(** * CodeSync runtime server: session lifecycle and Java entry-point resolution

    A shallow embedding of [server/index.js] (the WebSocket session handler)
    and of the two-phase Java entry-point resolver of the variant of the
    same server, with the properties that the specification states about
    them.

    - [Js], [Regex], [Path], [Fs]: the parts of JavaScript and of Node that
      the server relies on (strings, regular expressions, [path], [fs]).
    - [Pat]: the regular expressions of the source.
    - [Resolver]: [findJavaMainClass] with [javap] probing and its helpers.
    - [Server]: the connection handler of [server/index.js] as a state
      machine over the events of the event loop.
    - [Props], [Sample]: the vocabulary of the statements and sample inputs.
    - [Spec]: the candidate tiers in the words of the specification, to be
      compared with the ones of [Resolver].
    - [Failing]: the handler of [Server] over a removal of the workspace
      that can fail with the directory in place.
    - [MoreSamples]: more sample inputs.
    - [Scan]: the synchronous [findJavaMainClass] of another variant.
    - [Web], [Preview]: the preview branch, the cleanup of previews and the
      HTTP server of [server/index.js].
    - [Inv], [PreviewSample]: more vocabulary and samples.
    - then the lemmas, one theorem for each property C1 to C10, and the
      further properties X1 to X15.

    Conventions of the embedding.
    - A JavaScript string is a [string]; a character is one code unit in the
      range 0..255 (so [\s] covers the ASCII blanks and U+00A0 only).
    - Inbound messages are well typed: [msg.files] is a list of objects,
      names, contents and language tags are strings; an absent field of
      type string is the empty string where the source only tests it for
      truth, and [None] where the source passes it on.
    - The connection-local variables [proc] and [workdir] are fields of the
      session state; the file system, the table of child processes, the
      compilers started and the log of [ws.send] calls are the rest of it.
    - The handler of a message is [async]: it is suspended at
      [await runCommand(...)] and resumed by a later event.  The state
      machine takes one step for each task of the event loop.
    - What a child process does to the file system is not modelled.
    - [Fs] is a tree: its operations fail for the reasons that the tree
      shows (a file where a directory is needed, a missing parent), not for
      permissions or busy resources; [Failing] lifts this for the removal
      of a workspace.
    - The HTTP handler starts from what [new URL] gives: the path name, or
      the exception that the handler does not catch. *)

From Stdlib Require Import ZArith Ascii String.
From stdpp Require Import base option list strings pretty gmap.

Local Open Scope string_scope.
Local Open Scope list_scope.
Set Warnings "-register-all".

(* ===================================================================== *)
(** * JavaScript strings                                                  *)
(* ===================================================================== *)

Module Js.

(** [s.startsWith(p)], [s.includes(p)], [s.endsWith(p)] *)
Fixpoint startsWith (p s : string) : bool :=
  match p, s with
  | EmptyString, _ => true
  | String a p', String b s' => if Ascii.eqb a b then startsWith p' s' else false
  | String _ _, EmptyString => false
  end.

Fixpoint includes (p s : string) : bool :=
  if startsWith p s then true
  else match s with
       | EmptyString => false
       | String _ s' => includes p s'
       end.

Fixpoint endsWith (p s : string) : bool :=
  if String.eqb p s then true
  else match s with
       | EmptyString => false
       | String _ s' => endsWith p s'
       end.

(** [s.split(sep)] for a one-character separator. *)
Fixpoint split_aux (sep : ascii) (cur : string) (s : string) : list string :=
  match s with
  | EmptyString => [String.rev cur]
  | String c s' =>
      if Ascii.eqb c sep then String.rev cur :: split_aux sep EmptyString s'
      else split_aux sep (String c cur) s'
  end.

Definition split (sep : ascii) (s : string) : list string :=
  split_aux sep EmptyString s.

(** [xs.join(sep)] *)
Fixpoint join (sep : string) (xs : list string) : string :=
  match xs with
  | [] => ""
  | [x] => x
  | x :: rest => x +:+ sep +:+ join sep rest
  end.

(** [s.replace(/c/g, d)] for single characters. *)
Fixpoint replaceChar (c d : ascii) (s : string) : string :=
  match s with
  | EmptyString => EmptyString
  | String a s' => String (if Ascii.eqb a c then d else a) (replaceChar c d s')
  end.

(** Truthiness of a string: only the empty string is falsy. *)
Definition truthy (s : string) : bool := negb (String.eqb s "").

(** [a || b] on strings. *)
Definition or_else (a b : string) : string := if truthy a then a else b.

(** [Array.from(new Set(xs))]: a [Set] keeps the first insertion of each
    value, in insertion order. *)
Definition set_add (acc : list string) (x : string) : list string :=
  if bool_decide (x ∈ acc) then acc else acc ++ [x].

Definition uniq (xs : list string) : list string :=
  foldl set_add [] xs.

End Js.

(* ===================================================================== *)
(** * Regular expressions (the subset used by the server)                 *)
(* ===================================================================== *)

Module Regex.

Inductive regex : Type :=
| Eps                            (* empty pattern *)
| Chr (p : ascii -> bool)        (* one character of a class *)
| Seq (r1 r2 : regex)
| Alt (r1 r2 : regex)            (* r1|r2, r1 tried first *)
| Star (r : regex)               (* greedy r* *)
| Grp (i : nat) (r : regex)      (* capture group number i *)
| WordB                          (* \b *)
| Bol.                           (* ^ under the m flag *)

Definition Plus (r : regex) : regex := Seq r (Star r).
Definition Opt (r : regex) : regex := Alt r Eps.

Definition code (c : ascii) : N := N_of_ascii c.

Definition in_range (lo hi : N) (c : ascii) : bool :=
  (lo <=? code c)%N && (code c <=? hi)%N.

Definition is_upper (c : ascii) := in_range 65 90 c.
Definition is_lower (c : ascii) := in_range 97 122 c.
Definition is_digit (c : ascii) := in_range 48 57 c.

(** [\w] is [A-Za-z0-9_]. *)
Definition is_word (c : ascii) : bool :=
  is_upper c || is_lower c || is_digit c || (code c =? 95)%N.

(** [A-Za-z_] *)
Definition is_ident_start (c : ascii) : bool :=
  is_upper c || is_lower c || (code c =? 95)%N.

(** [\s] restricted to code units below 256: TAB, LF, VT, FF, CR, SP, NBSP. *)
Definition is_space (c : ascii) : bool :=
  in_range 9 13 c || (code c =? 32)%N || (code c =? 160)%N.

(** Line terminators seen by [^] under the m flag (LF and CR below 256). *)
Definition is_newline (c : ascii) : bool :=
  (code c =? 10)%N || (code c =? 13)%N.

Definition lower (c : ascii) : ascii :=
  if is_upper c then ascii_of_N (code c + 32) else c.

(** A literal, and a literal under the i flag. *)
Fixpoint Lit (s : string) : regex :=
  match s with
  | EmptyString => Eps
  | String c EmptyString => Chr (Ascii.eqb c)
  | String c s' => Seq (Chr (Ascii.eqb c)) (Lit s')
  end.

Fixpoint LitI (s : string) : regex :=
  match s with
  | EmptyString => Eps
  | String c EmptyString => Chr (fun a => Ascii.eqb (lower a) (lower c))
  | String c s' => Seq (Chr (fun a => Ascii.eqb (lower a) (lower c))) (LitI s')
  end.

Definition Seqs (rs : list regex) : regex := foldr Seq Eps rs.

Definition captures := list (nat * string).

Fixpoint get_cap (i : nat) (cs : captures) : option string :=
  match cs with
  | [] => None
  | (j, s) :: cs' => if Nat.eqb i j then Some s else get_cap i cs'
  end.

Definition prefix_upto (s rest : string) : string :=
  String.substring 0 (String.length s - String.length rest) s.

Definition word_opt (o : option ascii) : bool :=
  match o with Some c => is_word c | None => false end.

Definition head_opt (s : string) : option ascii :=
  match s with String c _ => Some c | EmptyString => None end.

(** Backtracking matcher in continuation-passing style.  [prev] is the
    character before the current position (needed by [\b] and [^]), [s] the
    rest of the input.  An iteration of [*] that consumes nothing is
    rejected, as in ECMAScript. *)
Fixpoint rmatch {A : Type} (r : regex) (prev : option ascii) (s : string)
    (cs : captures)
    (k : option ascii -> string -> captures -> option A) : option A :=
  match r with
  | Eps => k prev s cs
  | Chr p =>
      match s with
      | String c s' => if p c then k (Some c) s' cs else None
      | EmptyString => None
      end
  | Seq r1 r2 =>
      rmatch r1 prev s cs (fun prev' s' cs' => rmatch r2 prev' s' cs' k)
  | Alt r1 r2 =>
      match rmatch r1 prev s cs k with
      | Some x => Some x
      | None => rmatch r2 prev s cs k
      end
  | Star r1 =>
      (fix loop (n : nat) (prev : option ascii) (s : string) (cs : captures)
         : option A :=
         match n with
         | O => k prev s cs
         | S n' =>
             match rmatch r1 prev s cs
                     (fun prev' s' cs' =>
                        if (String.length s' <? String.length s)%nat
                        then loop n' prev' s' cs' else None) with
             | Some x => Some x
             | None => k prev s cs
             end
         end) (String.length s) prev s cs
  | Grp i r1 =>
      rmatch r1 prev s cs
        (fun prev' s' cs' => k prev' s' ((i, prefix_upto s s') :: cs'))
  | WordB =>
      if xorb (word_opt prev) (word_opt (head_opt s)) then k prev s cs else None
  | Bol =>
      match prev with
      | None => k prev s cs
      | Some c => if is_newline c then k prev s cs else None
      end
  end.

(** The result of a successful match: the matched text, the captures, and
    the position after the match. *)
Record rmatch_result := MatchResult {
  m_text : string;
  m_caps : captures;
  m_prev : option ascii;
  m_rest : string;
}.

Definition match_here (r : regex) (prev : option ascii) (s : string)
  : option rmatch_result :=
  rmatch r prev s []
    (fun prev' s' cs => Some (MatchResult (prefix_upto s s') cs prev' s')).

(** Leftmost match at or after the current position. *)
Fixpoint search (r : regex) (prev : option ascii) (s : string)
  : option rmatch_result :=
  match match_here r prev s with
  | Some m => Some m
  | None =>
      match s with
      | EmptyString => None
      | String c s' => search r (Some c) s'
      end
  end.

(** [re.test(s)] and [s.match(re)] without the g flag. *)
Definition test (r : regex) (s : string) : bool :=
  match search r None s with Some _ => true | None => false end.

Definition exec (r : regex) (s : string) : option rmatch_result :=
  search r None s.

(** The loop [while ((m = re.exec(s)) !== null) ...] for a regex with the g
    flag: successive matches, each search starting where the previous match
    ended.  The patterns of the server never match the empty string; the
    loop of the model stops on an empty match. *)
Fixpoint exec_all_from (fuel : nat) (r : regex) (prev : option ascii)
    (s : string) : list rmatch_result :=
  match fuel with
  | O => []
  | S fuel' =>
      match search r prev s with
      | None => []
      | Some m =>
          if (String.length (m_rest m) <? String.length s)%nat
          then m :: exec_all_from fuel' r (m_prev m) (m_rest m)
          else [m]
      end
  end.

Definition exec_all (r : regex) (s : string) : list rmatch_result :=
  exec_all_from (S (String.length s)) r None s.

Definition group (i : nat) (m : rmatch_result) : option string :=
  get_cap i (m_caps m).

End Regex.

(* ===================================================================== *)
(** * Paths ([path] of Node, POSIX flavour)                               *)
(* ===================================================================== *)

Module Path.

(** An absolute, normalized path: its segments, and whether the text it
    was made from ended with a slash (which [path.normalize] keeps). *)
Record t := Make { segs : list string; slash : bool }.

Definition is_dot (x : string) : bool := String.eqb x "" || String.eqb x ".".

(** [normalizeString] for an absolute path: empty and [.] segments are
    dropped, [..] removes the segment before it and is dropped at the
    root.  [acc] is the result so far, last segment first. *)
Fixpoint norm (acc : list string) (xs : list string) : list string :=
  match xs with
  | [] => reverse acc
  | x :: xs' =>
      if is_dot x then norm acc xs'
      else if String.eqb x ".." then norm (tail acc) xs'
      else norm (x :: acc) xs'
  end.

(** [path.join(base, rel)] for an absolute normalized [base]. *)
Definition join (base : list string) (rel : string) : t :=
  Make (norm (reverse base) (Js.split "/" rel)) (Js.endsWith "/" rel).

(** [path.join(dir, name)] for a name returned by [readdirSync]: one
    proper segment. *)
Definition child (dir : list string) (name : string) : list string :=
  dir ++ [name].

(** [path.dirname(p)] *)
Definition dirname (p : t) : t := Make (removelast (segs p)) false.

(** [path.relative(base, p)] *)
Fixpoint relative_segs (base p : list string) : list string :=
  match base, p with
  | b :: base', x :: p' =>
      if String.eqb b x then relative_segs base' p'
      else replicate (length base) ".." ++ p
  | _, _ => replicate (length base) ".." ++ p
  end.

Definition relative (base p : list string) : string :=
  Js.join "/" (relative_segs base p).

(** The text of an absolute path. *)
Definition to_string (p : list string) : string := "/" +:+ Js.join "/" p.

(** [path.basename(p, ext)]: the last non-empty segment of [p], without
    [ext] when it ends with it and is longer; the empty string when [p] is
    [ext] itself. *)
Definition strip_suffix (ext s : string) : string :=
  if Js.endsWith ext s && negb (String.eqb ext s)
  then String.substring 0 (String.length s - String.length ext) s
  else s.

Definition basename (p ext : string) : string :=
  if String.eqb p ext then ""
  else
    match filter (fun x => Js.truthy x = true) (reverse (Js.split "/" p)) with
    | [] => ""
    | x :: _ => strip_suffix ext x
    end.

(** [os.tmpdir()] *)
Definition tmpdir : list string := ["tmp"].

End Path.

(* ===================================================================== *)
(** * The file system                                                     *)
(* ===================================================================== *)

Module Fs.

(** Regular files and directories; a directory lists its entries in the
    order [readdirSync] returns them. *)
Inductive node : Type :=
| File (content : string)
| Dir (entries : list (string * node)).

(** The outcome of an operation that may throw. *)
Inductive result (A : Type) : Type :=
| Ok (a : A)
| Throw (msg : string).
Global Arguments Ok {A} a.
Global Arguments Throw {A} msg.

Definition bind {A B} (r : result A) (f : A -> result B) : result B :=
  match r with Ok a => f a | Throw e => Throw e end.

Fixpoint entry (x : string) (es : list (string * node)) : option node :=
  match es with
  | [] => None
  | (y, n) :: es' => if String.eqb x y then Some n else entry x es'
  end.

Fixpoint set_entry (x : string) (n : node) (es : list (string * node))
  : list (string * node) :=
  match es with
  | [] => [(x, n)]
  | (y, m) :: es' =>
      if String.eqb x y then (y, n) :: es' else (y, m) :: set_entry x n es'
  end.

Fixpoint del_entry (x : string) (es : list (string * node))
  : list (string * node) :=
  match es with
  | [] => []
  | (y, m) :: es' =>
      if String.eqb x y then del_entry x es' else (y, m) :: del_entry x es'
  end.

(** The node at a path below [n]. *)
Fixpoint get (p : list string) (n : node) : option node :=
  match p with
  | [] => Some n
  | x :: p' =>
      match n with
      | Dir es => match entry x es with Some c => get p' c | None => None end
      | File _ => None
      end
  end.

Definition is_dir (p : list string) (fs : node) : bool :=
  match get p fs with Some (Dir _) => true | _ => false end.

(** [fs.existsSync(p)] *)
Definition existsSync (p : Path.t) (fs : node) : bool :=
  match get (Path.segs p) fs with
  | Some (Dir _) => true
  | Some (File _) => negb (Path.slash p)
  | None => false
  end.

(** [fs.readFileSync(p, 'utf8')] *)
Definition readFileSync (p : Path.t) (fs : node) : result string :=
  match get (Path.segs p) fs with
  | Some (File c) => if Path.slash p then Throw "ENOTDIR" else Ok c
  | Some (Dir _) => Throw "EISDIR"
  | None => Throw "ENOENT"
  end.

(** [fs.readdirSync(p, { withFileTypes: true })] *)
Definition readdirSync (p : list string) (fs : node)
  : result (list (string * node)) :=
  match get p fs with
  | Some (Dir es) => Ok es
  | Some (File _) => Throw "ENOTDIR"
  | None => Throw "ENOENT"
  end.

Fixpoint write_at (p : list string) (c : string) (n : node) : result node :=
  match n with
  | File _ => Throw "ENOTDIR"
  | Dir es =>
      match p with
      | [] => Throw "EISDIR"
      | [x] =>
          match entry x es with
          | Some (Dir _) => Throw "EISDIR"
          | _ => Ok (Dir (set_entry x (File c) es))
          end
      | x :: p' =>
          match entry x es with
          | Some n' =>
              bind (write_at p' c n') (fun n'' => Ok (Dir (set_entry x n'' es)))
          | None => Throw "ENOENT"
          end
      end
  end.

(** [fs.writeFileSync(p, content, 'utf8')] *)
Definition writeFileSync (p : Path.t) (c : string) (fs : node) : result node :=
  if Path.slash p then Throw "EISDIR" else write_at (Path.segs p) c fs.

(** [fs.mkdirSync(p, { recursive: true })] *)
Fixpoint mkdir_p (p : list string) (n : node) : result node :=
  match p with
  | [] => match n with Dir _ => Ok n | File _ => Throw "EEXIST" end
  | x :: p' =>
      match n with
      | File _ => Throw "ENOTDIR"
      | Dir es =>
          bind (mkdir_p p' (default (Dir []) (entry x es)))
               (fun n' => Ok (Dir (set_entry x n' es)))
      end
  end.

Definition mkdirSync (p : Path.t) (fs : node) : result node :=
  mkdir_p (Path.segs p) fs.

(** Creation of one directory that must not exist, below an existing
    directory: the [mkdir] of [mkdtempSync]. *)
Fixpoint mkdir_new (p : list string) (n : node) : result node :=
  match n with
  | File _ => Throw "ENOTDIR"
  | Dir es =>
      match p with
      | [] => Throw "EEXIST"
      | [x] =>
          match entry x es with
          | Some _ => Throw "EEXIST"
          | None => Ok (Dir (set_entry x (Dir []) es))
          end
      | x :: p' =>
          match entry x es with
          | Some n' =>
              bind (mkdir_new p' n') (fun n'' => Ok (Dir (set_entry x n'' es)))
          | None => Throw "ENOENT"
          end
      end
  end.

(** [fs.rmSync(p, { recursive: true, force: true })]: a missing path is
    not an error.  The call throws only where the tree forbids it (a file
    on the way); the failures of a real removal that leave the directory
    in place are those of [Failing]. *)
Fixpoint rmSync (p : list string) (n : node) : result node :=
  match n with
  | File _ => Throw "ENOTDIR"
  | Dir es =>
      match p with
      | [] => Throw "EINVAL"
      | [x] => Ok (Dir (del_entry x es))
      | x :: p' =>
          match entry x es with
          | Some n' =>
              bind (rmSync p' n') (fun n'' => Ok (Dir (set_entry x n'' es)))
          | None => Ok n
          end
      end
  end.

(** Number of nodes of a tree. *)
Fixpoint size (n : node) : nat :=
  match n with
  | File _ => 1
  | Dir es => S (list_sum (map (fun e => size (snd e)) es))
  end.

End Fs.

(* ===================================================================== *)
(** * The regular expressions of the source                               *)
(* ===================================================================== *)

Module Pat.
Import Regex.

(** [\s] and [[A-Za-z_]\w*] *)
Definition sp : regex := Chr is_space.
Definition ident : regex := Seq (Chr is_ident_start) (Star (Chr is_word)).

(** Source: /^\s*package\s+([\w.]+)\s*;/m *)
Definition pkgRegex : regex :=
  Seqs [Bol; Star sp; Lit "package"; Plus sp;
        Grp 1 (Plus (Chr (fun c => is_word c || Ascii.eqb c ".")));
        Star sp; Lit ";"].

(** Source: /\b(class|record|enum)\s+([A-Za-z_]\w* )/g *)
Definition classRegex : regex :=
  Seqs [WordB; Grp 1 (Alt (Lit "class") (Alt (Lit "record") (Lit "enum")));
        Plus sp; Grp 2 ident].

(** The two ways of writing the parameter of [main]:
    String\s*(?:\[\s*\]|\.\.\.)\s+[A-Za-z_]\w* and
    String\s+[A-Za-z_]\w*\s*\[\s*\]. *)
Definition brackets : regex := Seqs [Lit "["; Star sp; Lit "]"].

Definition mainParam : regex :=
  Alt (Seqs [Lit "String"; Star sp; Alt brackets (Lit "..."); Plus sp; ident])
      (Seqs [Lit "String"; Plus sp; ident; Star sp; brackets]).

(** Source: \b(?:public\s+static|static\s+public)\s+void\s+main\s*\(\s*(?:<mainParam>)\s*\) *)
Definition mainSignature : regex :=
  Seqs [WordB;
        Alt (Seqs [Lit "public"; Plus sp; Lit "static"])
            (Seqs [Lit "static"; Plus sp; Lit "public"]);
        Plus sp; Lit "void"; Plus sp; Lit "main"; Star sp; Lit "(";
        Star sp; mainParam; Star sp; Lit ")"].

(** [tokenRegex] of [findLikelySourceMainClasses]:
    /\b(?:class|record|enum)\s+([A-Za-z_]\w* )\b|<mainSignature>/g *)
Definition tokenRegex : regex :=
  Alt (Seqs [WordB; Alt (Lit "class") (Alt (Lit "record") (Lit "enum"));
             Plus sp; Grp 1 ident; WordB])
      mainSignature.

(** Source: /\bpublic\s+static\s+void\s+main\s*\(\s*java\.lang\.String\[\]\s*\)/ *)
Definition javapMain : regex :=
  Seqs [WordB; Lit "public"; Plus sp; Lit "static"; Plus sp; Lit "void";
        Plus sp; Lit "main"; Star sp; Lit "("; Star sp;
        Lit "java.lang.String[]"; Star sp; Lit ")"].

(** Source: /ENOENT|not recognized/i *)
Definition toolMissing : regex := Alt (LitI "ENOENT") (LitI "not recognized").

(** Source: /static\s+void\s+main\s*\(\s*String\s*\[\]\s*\w*\s*\)/ *)
Definition hasMainRegex : regex :=
  Seqs [Lit "static"; Plus sp; Lit "void"; Plus sp; Lit "main"; Star sp;
        Lit "("; Star sp; Lit "String"; Star sp; Lit "[]"; Star sp;
        Star (Chr is_word); Star sp; Lit ")"].

(** Source: /^\s*(public\s+)?class\s+(\w+)/m *)
Definition publicClassRegex : regex :=
  Seqs [Bol; Star sp; Opt (Grp 1 (Seq (Lit "public") (Plus sp)));
        Lit "class"; Plus sp; Grp 2 (Plus (Chr is_word))].

(** Source: /\b(import\s+|export\s+)/ *)
Definition esmRegex : regex :=
  Seq WordB (Grp 1 (Alt (Seq (Lit "import") (Plus sp))
                        (Seq (Lit "export") (Plus sp)))).

End Pat.

(* ===================================================================== *)
(** * The two-phase Java entry-point resolver                             *)
(* ===================================================================== *)

(** The variant of the server whose [findJavaMainClass] probes the compiled
    classes with [javap] and falls back on a scan of the sources. *)

Module Resolver.
Import Fs.

(** What [runCommand] resolves to; [code] is [None] for the [null] of a
    process ended by a signal. *)
Record cmd_result := CmdResult {
  code : option Z;
  stdout : string;
  stderr : string;
}.

Record parsed := Parsed {
  pkg : string;
  content : string;
  fqcnCandidates : list string;
}.

(** [pkg ? `${pkg}.${className}` : className] *)
Definition qualify (pkg className : string) : string :=
  if Js.truthy pkg then pkg +:+ "." +:+ className else className.

(** [pkgMatch ? pkgMatch[1] : ''] *)
Definition package_of (content : string) : string :=
  match Regex.exec Pat.pkgRegex content with
  | Some m => default "" (Regex.group 1 m)
  | None => ""
  end.

Definition parseJavaPackageAndClasses (fs : node) (workdir : list string)
    (fileName : string) : parsed :=
  match readFileSync (Path.join workdir fileName) fs with
  | Ok content =>
      let pkg := package_of content in
      let classNames :=
        omap (Regex.group 2) (Regex.exec_all Pat.classRegex content) in
      let uniqueClassNames := Js.uniq classNames in
      let uniqueClassNames :=
        match uniqueClassNames with
        | [] => [Path.basename fileName ".java"]
        | _ => uniqueClassNames
        end in
      Parsed pkg content (map (qualify pkg) uniqueClassNames)
  | Throw _ => Parsed "" "" [Path.basename fileName ".java"]
  end.

(** One turn of the [while] loop of [findLikelySourceMainClasses]; the
    state is [(currentClass, mainClasses)]. *)
Definition likely_step (pkg : string) (st : string * list string)
    (token : Regex.rmatch_result) : string * list string :=
  let '(currentClass, mainClasses) := st in
  match Regex.group 1 token with
  | Some name =>
      if Js.truthy name then (name, mainClasses)
      else if Js.truthy currentClass
           then (currentClass, mainClasses ++ [qualify pkg currentClass])
           else st
  | None =>
      if Js.truthy currentClass
      then (currentClass, mainClasses ++ [qualify pkg currentClass])
      else st
  end.

Definition findLikelySourceMainClasses (pkg content : string) : list string :=
  Js.uniq (snd (foldl (likely_step pkg) ("", [])
                      (Regex.exec_all Pat.tokenRegex content))).

(** [rel.replace(/\.class$/, '').replace(/\//g, '.')] after
    [path.relative(workdir, fullPath).replace(/\\/g, '/')]. *)
Definition drop_class_suffix (s : string) : string :=
  if Js.endsWith ".class" s
  then String.substring 0 (String.length s - 6) s else s.

Definition fqcn_of_path (workdir fullPath : list string) : string :=
  let rel := Js.replaceChar "\" "/" (Path.relative workdir fullPath) in
  Js.replaceChar "/" "." (drop_class_suffix rel).

(** The body of [for (const entry of entries)]: a directory is pushed on
    the stack, a regular file whose name ends in [.class] and has no [$]
    adds a class.  A directory is pushed with its listing (the file system
    does not change during the walk); the head of the list is the top of
    the stack. *)
Definition is_class_file (name : string) : bool :=
  Js.endsWith ".class" name && negb (Js.includes "$" name).

Definition walk_entry (workdir dir : list string)
    (st : list (list string * list (string * node)) * list string)
    (e : string * node)
  : list (list string * list (string * node)) * list string :=
  let '(stack, classes) := st in
  let fullPath := Path.child dir (fst e) in
  match snd e with
  | Dir es => ((fullPath, es) :: stack, classes)
  | File _ =>
      if is_class_file (fst e)
      then (stack, classes ++ [fqcn_of_path workdir fullPath])
      else st
  end.

(** The loop [while (stack.length)]. *)
Fixpoint walk (fuel : nat) (workdir : list string)
    (stack : list (list string * list (string * node)))
    (classes : list string) : option (list string) :=
  match fuel with
  | O => None
  | S fuel' =>
      match stack with
      | [] => Some classes
      | (dir, entries) :: stack' =>
          let st := foldl (walk_entry workdir dir) (stack', classes) entries in
          walk fuel' workdir (fst st) (snd st)
      end
  end.

(** [None] is for a walk that runs out of fuel (it never does, see
    [listCompiledClassCandidates_total]); [Throw] for the exception of the
    first [readdirSync]. *)
Definition listCompiledClassCandidates (fs : node) (workdir : list string)
  : option (result (list string)) :=
  match readdirSync workdir fs with
  | Throw e => Some (Throw e)
  | Ok es =>
      option_map Ok (walk (S (size (Dir es))) workdir [(workdir, es)] [])
  end.

(** [classHasMainWithJavap], applied to what [runCommand('javap', ...)]
    resolved to; [None] is the [null] of the source. *)
Definition code_is (z : Z) (r : cmd_result) : bool :=
  match code r with Some c => Z.eqb c z | None => false end.

Definition classHasMainWithJavap (probe : cmd_result) : option bool :=
  if negb (code_is 0 probe) then
    if code_is (-1) probe && Regex.test Pat.toolMissing (stderr probe)
    then None
    else Some false
  else
    let output := stdout probe +:+ String "010" "" +:+ stderr probe in
    Some (Regex.test Pat.javapMain output).

(** [orderedFiles] *)
Definition orderedFiles (entryFile : string) (javaFiles : list string)
  : list string :=
  filter (fun name => (Js.truthy name && Js.endsWith ".java" name) = true)
         (Js.uniq (entryFile :: javaFiles)).

(** The [for] loop that fills [sourceCandidates] and [sourceLikelyMains]. *)
Definition sourceCandidates (fs : node) (workdir : list string)
    (files : list string) : list string :=
  flat_map (fun f => fqcnCandidates (parseJavaPackageAndClasses fs workdir f))
           files.

Definition sourceLikelyMains (fs : node) (workdir : list string)
    (files : list string) : list string :=
  flat_map (fun f =>
              let p := parseJavaPackageAndClasses fs workdir f in
              findLikelySourceMainClasses (pkg p) (content p))
           files.

(** [orderedCandidates] *)
Definition orderedCandidates (fs : node) (workdir : list string)
    (entryFile : string) (javaFiles : list string)
  : option (result (list string)) :=
  let files := orderedFiles entryFile javaFiles in
  match listCompiledClassCandidates fs workdir with
  | None => None
  | Some (Throw e) => Some (Throw e)
  | Some (Ok compiled) =>
      Some (Ok (Js.uniq (sourceCandidates fs workdir files ++ compiled)))
  end.

(** The probing loop [for (const fqcn of orderedCandidates)]: it returns
    [fqcn], runs to the end of the list, or leaves by [break]. *)
Inductive probe_end : Type :=
| Accepted (fqcn : string)
| Exhausted
| Abandoned.

Fixpoint probe (javap : string -> cmd_result) (cands : list string)
  : probe_end :=
  match cands with
  | [] => Exhausted
  | fqcn :: rest =>
      match classHasMainWithJavap (javap fqcn) with
      | Some true => Accepted fqcn
      | None => Abandoned
      | Some false => probe javap rest
      end
  end.

(** The last loop: the first likely main that is a candidate. *)
Fixpoint fallback (cands likely : list string) : option string :=
  match likely with
  | [] => None
  | fqcn :: rest =>
      if bool_decide (fqcn ∈ cands) then Some fqcn else fallback cands rest
  end.

(** [findJavaMainClass(workdir, entryFile, javaFiles)]; [javap] answers
    the calls [runCommand('javap', ['-classpath', workdir, fqcn], ...)]. *)
Definition findJavaMainClass (javap : string -> cmd_result) (fs : node)
    (workdir : list string) (entryFile : string) (javaFiles : list string)
  : option (result (option string)) :=
  match orderedCandidates fs workdir entryFile javaFiles with
  | None => None
  | Some (Throw e) => Some (Throw e)
  | Some (Ok cands) =>
      match probe javap cands with
      | Accepted fqcn => Some (Ok (Some fqcn))
      | _ =>
          Some (Ok (fallback cands
                      (sourceLikelyMains fs workdir
                         (orderedFiles entryFile javaFiles))))
      end
  end.

(** The end of the [java] branch of the [run] handler, from the result of
    [findJavaMainClass] on: what the handler does, in order. *)
Inductive effect : Type :=
| Send (type data : string)
| CleanupProcess
| Spawn (cmd : string) (args : list string).

Definition mainNotFound : string :=
  "Main method not found in submitted Java files. Define: public static void main(String[] args)".

Definition run_resolved (workdir : list string) (mainClass : option string)
  : list effect :=
  match mainClass with
  | Some c =>
      if Js.truthy c
      then [Spawn "java" ["-cp"; Path.to_string workdir; c]]
      else [Send "error" mainNotFound; CleanupProcess]
  | None => [Send "error" mainNotFound; CleanupProcess]
  end.

End Resolver.

(* ===================================================================== *)
(** * The session handler of [server/index.js]                            *)
(* ===================================================================== *)

(** One WebSocket connection.  The [preview] branch and the HTTP preview
    server, which the specification leaves out, are modelled apart, in
    [Preview] and [Web]; [process.platform] is a POSIX platform. *)

Module Server.
Import Fs.
Export Resolver (cmd_result, CmdResult, code, stdout, stderr, code_is).

(** The [data] of an outbound message. *)
Inductive json : Type :=
| JStr (s : string)
| JNum (z : Z)
| JNull.

(** [ws.send(JSON.stringify({ type, data }))] *)
Record out_msg := Out { o_type : string; o_data : json }.

(** An element of [msg.files]; [name] is [None] when the field is absent,
    [content] is [file.content || '']. *)
Record SourceFile := SrcFile { name : option string; content : string }.

(** A [run] message; [main] is the empty string when absent. *)
Record run_msg := RunMsg {
  language : string;
  files : list SourceFile;
  main : string;
}.

Inductive message : Type :=
| Run (m : run_msg)
| Input (data : option string)
| Terminate
| Other.

(** [JSON.parse(raw.toString())] throws, or gives a message. *)
Inductive inbound : Type :=
| Malformed
| Parsed (m : message).

(** A child process started for a run.  [running] holds from [spawn]
    until the process has exited or failed to start, [closed] from its
    ['close'] event on, [killed] is [proc.killed], [writable] is
    [proc.stdin.writable], [stdin] the chunks written so far. *)
Record process := Process {
  p_cmd : string;
  p_args : list string;
  p_cwd : option (list string);
  running : bool;
  closed : bool;
  killed : bool;
  writable : bool;
  stdin : list string;
}.

(** The locals that the handler still needs after [await runCommand]. *)
Inductive continuation : Type :=
| KJava (files : list SourceFile) (entryFile : string)
| KC
| KCpp.

(** A compiler started by [runCommand]; [waiting] until its promise is
    resolved. *)
Record job := Job {
  j_cmd : string;
  j_args : list string;
  j_cwd : list string;
  j_cont : continuation;
  waiting : bool;
}.

Record state := State {
  proc : option nat;                  (* let proc *)
  workdir : option (list string);     (* let workdir *)
  fs : node;
  procs : list process;               (* every process spawned, by pid *)
  jobs : list job;                    (* every compiler started *)
  sent : list out_msg;                (* what ws.send was given *)
  tmp_seq : nat;                      (* names handed out by mkdtempSync *)
}.

Definition set_proc (p : option nat) (s : state) : state :=
  State p (workdir s) (fs s) (procs s) (jobs s) (sent s) (tmp_seq s).
Definition set_workdir (w : option (list string)) (s : state) : state :=
  State (proc s) w (fs s) (procs s) (jobs s) (sent s) (tmp_seq s).
Definition set_fs (f : node) (s : state) : state :=
  State (proc s) (workdir s) f (procs s) (jobs s) (sent s) (tmp_seq s).
Definition set_procs (ps : list process) (s : state) : state :=
  State (proc s) (workdir s) (fs s) ps (jobs s) (sent s) (tmp_seq s).
Definition set_jobs (js : list job) (s : state) : state :=
  State (proc s) (workdir s) (fs s) (procs s) js (sent s) (tmp_seq s).
Definition set_tmp_seq (n : nat) (s : state) : state :=
  State (proc s) (workdir s) (fs s) (procs s) (jobs s) (sent s) n.

Definition send (o : out_msg) (s : state) : state :=
  State (proc s) (workdir s) (fs s) (procs s) (jobs s) (sent s ++ [o])
        (tmp_seq s).

Definition send_error (data : string) : state -> state :=
  send (Out "error" (JStr data)).

(** A state of a fresh connection on a machine with an empty [/tmp]. *)
Definition init : state :=
  State None None (Dir [("tmp", Dir [])]) [] [] [] 0.

(** ** Child processes *)

(** [proc.kill('SIGKILL')]: the signal is sent, and [killed] set, when the
    process has not exited yet. *)
Definition mark_killed (pr : process) : process :=
  if running pr
  then Process (p_cmd pr) (p_args pr) (p_cwd pr) (running pr) (closed pr)
               true (writable pr) (stdin pr)
  else pr.

Definition kill (pid : nat) (s : state) : state :=
  set_procs (alter mark_killed pid (procs s)) s.

(** A process is alive when it has been spawned, has not exited and has
    not been sent SIGKILL.  [alive_pids] are the live processes of the
    table, that is, of the processes spawned for a run; the compilers that
    [runCommand] starts are in [jobs]. *)
Definition alive (pr : process) : bool := running pr && negb (killed pr).

Definition alive_pids (s : state) : list nat :=
  filter (fun pid => (alive <$> procs s !! pid) = Some true)
         (seq 0 (length (procs s))).

(** [proc = spawn(cmd, args, { cwd, stdio: pipes })] followed by the
    registration of the [data], [close] and [error] listeners. *)
Definition spawn (cmd : string) (args : list string)
    (cwd : option (list string)) (s : state) : state :=
  set_proc (Some (length (procs s)))
    (set_procs (procs s ++ [Process cmd args cwd true false false true []]) s).

(** [if (proc && !proc.killed) { proc.kill('SIGKILL'); }] *)
Definition kill_part (p : option nat) (s : state) : state :=
  match p with
  | Some pid =>
      match procs s !! pid with
      | Some pr => if negb (killed pr) then kill pid s else s
      | None => s
      end
  | None => s
  end.

(** [cleanupProcess(proc, workdir)] *)
Definition cleanupProcess (p : option nat) (w : option (list string))
    (s : state) : state :=
  let s1 := kill_part p s in
  match w with
  | Some d =>
      match rmSync d (fs s1) with
      | Ok fs' => set_fs fs' s1
      | Throw _ => s1             (* ignore cleanup errors *)
      end
  | None => s1
  end.

(** [cleanupProcess(proc, workdir); proc = null; workdir = null;] *)
Definition release (s : state) : state :=
  set_proc None (set_workdir None (cleanupProcess (proc s) (workdir s) s)).

(** [ws.send(error); cleanupProcess(proc, workdir); proc = null;
    workdir = null; return;] *)
Definition fail (data : string) (s : state) : state :=
  release (send_error data s).

(** The [catch (err)] of the [run] branch. *)
Definition run_catch (err : string) (s : state) : state :=
  fail ("Runtime error: " +:+ err) s.

(** The message of the [TypeError] of [path.join] on a value that is not a
    string. *)
Definition dq : string := String "034" "".

Definition path_type_error (received : string) : string :=
  "The " +:+ dq +:+ "path" +:+ dq +:+
  " argument must be of type string. Received " +:+ received.

(** ** The workspace *)

Definition tmp_name (n : nat) : list string :=
  Path.tmpdir ++ ["code-sync-" +:+ pretty n].

(** [fs.mkdtempSync(path.join(os.tmpdir(), 'code-sync-'))]: a directory
    with a new name is made, or the call throws. *)
Definition mkdtempSync (s : state) : result (list string) * state :=
  let d := tmp_name (tmp_seq s) in
  let s1 := set_tmp_seq (S (tmp_seq s)) s in
  match mkdir_new d (fs s1) with
  | Ok fs' => (Ok d, set_fs fs' s1)
  | Throw e => (Throw e, s1)
  end.

(** The body of [for (const file of files)]: the file system after it, and
    the exception it threw, if any. *)
Definition materialize_file (w : list string) (f : SourceFile) (fs : node)
  : node * option string :=
  match name f with
  | Some n =>
      if Js.truthy n then
        let filePath := Path.join w n in
        let dir := Path.dirname filePath in
        match mkdirSync dir fs with
        | Throw e => (fs, Some e)
        | Ok fs1 =>
            match writeFileSync filePath (content f) fs1 with
            | Throw e => (fs1, Some e)
            | Ok fs2 => (fs2, None)
            end
        end
      else (fs, None)
  | None => (fs, None)
  end.

Fixpoint materialize (w : list string) (files : list SourceFile) (fs : node)
  : node * option string :=
  match files with
  | [] => (fs, None)
  | f :: rest =>
      match materialize_file w f fs with
      | (fs1, None) => materialize w rest fs1
      | (fs1, Some e) => (fs1, Some e)
      end
  end.

(** [files.map(f => f.name).filter(n => n && <keep>(n))] *)
Definition names_with (keep : string -> bool) (files : list SourceFile)
  : list string :=
  filter (fun n => (Js.truthy n && keep n) = true) (omap name files).

(** [msg.main || (files[0] ? files[0].name : 'main.py')]; [None] stands
    for [undefined]. *)
Definition entry_file (m : run_msg) : option string :=
  if Js.truthy (main m) then Some (main m)
  else match files m with
       | f :: _ => name f
       | [] => Some "main.py"
       end.

(** ** [findJavaMainClass(files, workdir, entryFile)] of [index.js] *)

(** [classMatch ? classMatch[2] : null] *)
Definition class_of (content : string) : option string :=
  match Regex.exec Pat.publicClassRegex content with
  | Some m => Regex.group 2 m
  | None => None
  end.

(** The [for (const file of javaFiles)] loop; the state is
    [fallbackPackage], the result [Some] at a [return]. *)
Fixpoint scan_java (fs : node) (workdir : list string) (entryFile : string)
    (javaFiles : list string) (fallbackPackage : string)
  : option string * string :=
  match javaFiles with
  | [] => (None, fallbackPackage)
  | file :: rest =>
      match readFileSync (Path.join workdir file) fs with
      | Throw _ => scan_java fs workdir entryFile rest fallbackPackage
      | Ok content =>
          let pkg := Resolver.package_of content in
          let fallbackPackage :=
            if String.eqb file entryFile then pkg else fallbackPackage in
          let hasMain := Regex.test Pat.hasMainRegex content in
          match class_of content with
          | Some className =>
              if hasMain && Js.truthy className
              then (Some (Resolver.qualify pkg className), fallbackPackage)
              else scan_java fs workdir entryFile rest fallbackPackage
          | None => scan_java fs workdir entryFile rest fallbackPackage
          end
      end
  end.

Definition findJavaMainClass (fs : node) (files : list SourceFile)
    (workdir : list string) (entryFile : string) : string :=
  let javaFiles := names_with (Js.endsWith ".java") files in
  let fallbackClass := Path.basename entryFile ".java" in
  match scan_java fs workdir entryFile javaFiles "" with
  | (Some fqcn, _) => fqcn
  | (None, fallbackPackage) => Resolver.qualify fallbackPackage fallbackClass
  end.

(** ** The [run] branch *)

(** [JSON.stringify({ type: 'module' })] *)
Definition esm_package : string :=
  "{" +:+ dq +:+ "type" +:+ dq +:+ ":" +:+ dq +:+ "module" +:+ dq +:+ "}".

(** [useEsm]: the entry file is read and tested; a failed read gives
    [false]. *)
Definition useEsm (entryPath : Path.t) (fs : node) : bool :=
  match readFileSync entryPath fs with
  | Ok entryContent => Regex.test Pat.esmRegex entryContent
  | Throw _ => false
  end.

(** [if (useEsm) { try { fs.writeFileSync(<workdir>/package.json, ...) }
    catch { } }] *)
Definition write_esm_package (w : list string) (s : state) : state :=
  match writeFileSync (Path.join w "package.json") esm_package (fs s) with
  | Ok fs' => set_fs fs' s
  | Throw _ => s
  end.

(** [const compile = await runCommand(cmd, args, { cwd: workdir })]: the
    compiler is started and the handler is suspended. *)
Definition await_compile (cmd : string) (args : list string)
    (cwd : list string) (k : continuation) (s : state) : state :=
  set_jobs (jobs s ++ [Job cmd args cwd k true]) s.

Definition is_cpp (n : string) : bool :=
  Js.endsWith ".cpp" n || Js.endsWith ".cc" n || Js.endsWith ".cxx" n.

(** The chain [if (language === 'python') ... else ...], entered with the
    workspace [w] made and the entry file found. *)
Definition launch (m : run_msg) (w : list string) (entryFile : string)
    (s : state) : state :=
  let language := language m in
  if String.eqb language "python" then
    spawn "python3" ["-u"; entryFile] (Some w) s
  else if String.eqb language "node" then
    let s1 := if useEsm (Path.join w entryFile) (fs s)
              then write_esm_package w s else s in
    spawn "node" [entryFile] (Some w) s1
  else if String.eqb language "java" then
    await_compile "javac" (names_with (Js.endsWith ".java") (files m)) w
      (KJava (files m) entryFile) s
  else if String.eqb language "c" then
    await_compile "gcc"
      (names_with (Js.endsWith ".c") (files m) ++ ["-o"; "app.out"]) w KC s
  else if String.eqb language "cpp" then
    await_compile "g++" (names_with is_cpp (files m) ++ ["-o"; "app.out"]) w
      KCpp s
  else if String.eqb language "prolog" then
    spawn "swipl" ["-q"; "-s"; entryFile] (Some w) s
  else if String.eqb language "ruby" then
    spawn "ruby" [entryFile] (Some w) s
  else
    fail ("Language not supported: " +:+ language) s.

(** The [try] block of the [run] branch, up to the language chain. *)
Definition run_body (m : run_msg) (s : state) : state :=
  match mkdtempSync s with
  | (Throw e, s1) => run_catch e s1
  | (Ok w, s1) =>
      let s2 := set_workdir (Some w) s1 in
      match materialize w (files m) (fs s2) with
      | (fs3, Some e) => run_catch e (set_fs fs3 s2)
      | (fs3, None) =>
          let s3 := set_fs fs3 s2 in
          match entry_file m with
          | None => run_catch (path_type_error "undefined") s3
          | Some entryFile =>
              if negb (existsSync (Path.join w entryFile) (fs s3))
              then fail ("Entry file not found: " +:+ entryFile) s3
              else launch m w entryFile s3
          end
      end
  end.

(** [if (msg.type === 'run') { cleanupProcess(proc, workdir); proc = null;
    workdir = null; try { ... } catch (err) { ... } return; }] *)
Definition handle_run (m : run_msg) (s : state) : state :=
  run_body m (release s).

(** ** The handler after [await]: the compiler has finished *)

Definition compile_failed (res : cmd_result) : bool := negb (code_is 0 res).

Definition default_diagnostic (k : continuation) : string :=
  match k with
  | KJava _ _ => "Java compilation failed"
  | KC => "C compilation failed"
  | KCpp => "C++ compilation failed"
  end.

(** [path.join(workdir, 'app.out')] as the command line shows it. *)
Definition app_out (w : list string) : string :=
  Path.to_string (w ++ ["app.out"]).

(** What the handler does when it is resumed with [compile]; [proc] and
    [workdir] are read in the state of that moment. *)
Definition resume (k : continuation) (res : cmd_result) (s : state) : state :=
  if compile_failed res then
    fail (Js.or_else (stderr res) (default_diagnostic k)) s
  else
    match k with
    | KJava files entryFile =>
        match workdir s with
        | Some w =>
            spawn "java"
              ["-cp"; Path.to_string w;
               findJavaMainClass (fs s) files w entryFile]
              (Some w) s
        | None =>
            match names_with (Js.endsWith ".java") files with
            | [] =>
                spawn "java" ["-cp"; "null"; Path.basename entryFile ".java"]
                  None s
            | _ :: _ => run_catch (path_type_error "null") s
            end
        end
    | KC | KCpp =>
        match workdir s with
        | Some w => spawn (app_out w) [] (Some w) s
        | None => run_catch (path_type_error "null") s
        end
    end.

Definition finish_job (j : job) : job :=
  Job (j_cmd j) (j_args j) (j_cwd j) (j_cont j) false.

(** ** Events of the connection *)

Inductive event : Type :=
| Message (raw : inbound)                       (* ws 'message' *)
| CompileDone (id : nat) (res : cmd_result)     (* runCommand resolves *)
| ProcStdout (pid : nat) (data : string)        (* proc.stdout 'data' *)
| ProcStderr (pid : nat) (data : string)        (* proc.stderr 'data' *)
| ProcClose (pid : nat) (code : option Z)       (* proc 'close' *)
| ProcError (pid : nat) (msg : string)          (* proc 'error' *)
| StdinEnd (pid : nat)           (* proc.stdin stops being writable *)
| Close.                                        (* ws 'close' *)

Definition exit_data (code : option Z) : json :=
  match code with Some z => JNum z | None => JNull end.

Definition terminated : json := JStr "terminated".

(** [proc.stdin.write(`${msg.data ?? ''}\n`)] *)
Definition line_of (data : option string) : string :=
  default "" data +:+ String "010" "".

Definition write_stdin (chunk : string) (pr : process) : process :=
  Process (p_cmd pr) (p_args pr) (p_cwd pr) (running pr) (closed pr)
          (killed pr) (writable pr) (stdin pr ++ [chunk]).

Definition handle_input (data : option string) (s : state) : state :=
  match proc s with
  | Some pid =>
      match procs s !! pid with
      | Some pr =>
          if writable pr
          then set_procs (alter (write_stdin (line_of data)) pid (procs s)) s
          else s
      | None => s
      end
  | None => s
  end.

Definition handle_terminate (s : state) : state :=
  send (Out "exit" terminated) (release s).

Definition handle_message (raw : inbound) (s : state) : state :=
  match raw with
  | Malformed => send_error "Invalid JSON message" s
  | Parsed (Run m) => handle_run m s
  | Parsed (Input data) => handle_input data s
  | Parsed Terminate => handle_terminate s
  | Parsed Other => s
  end.

(** The process has exited and its streams are closed. *)
Definition mark_closed (pr : process) : process :=
  Process (p_cmd pr) (p_args pr) (p_cwd pr) false true (killed pr) false
          (stdin pr).

(** The process could not be started, or failed. *)
Definition mark_failed (pr : process) : process :=
  Process (p_cmd pr) (p_args pr) (p_cwd pr) false (closed pr) (killed pr)
          (writable pr) (stdin pr).

Definition mark_stdin_end (pr : process) : process :=
  Process (p_cmd pr) (p_args pr) (p_cwd pr) (running pr) (closed pr)
          (killed pr) false (stdin pr).

(** The listeners registered on a process read [proc] and [workdir] of the
    connection when they run. *)
Definition on_close (code : option Z) (s : state) : state :=
  release (send (Out "exit" (exit_data code)) s).

Definition on_error (msg : string) (s : state) : state :=
  fail ("Failed to start runtime: " +:+ msg) s.

(** One task of the event loop.  An event for a process that has already
    been closed, or for a compiler that is not waiting, does not occur: the
    state is left as it is. *)
Definition step (s : state) (e : event) : state :=
  match e with
  | Message raw => handle_message raw s
  | CompileDone id res =>
      match jobs s !! id with
      | Some j =>
          if waiting j
          then resume (j_cont j) res (set_jobs (alter finish_job id (jobs s)) s)
          else s
      | None => s
      end
  | ProcStdout pid data =>
      match procs s !! pid with
      | Some pr => if closed pr then s else send (Out "stdout" (JStr data)) s
      | None => s
      end
  | ProcStderr pid data =>
      match procs s !! pid with
      | Some pr => if closed pr then s else send (Out "stderr" (JStr data)) s
      | None => s
      end
  | ProcClose pid code =>
      match procs s !! pid with
      | Some pr =>
          if closed pr then s
          else on_close code (set_procs (alter mark_closed pid (procs s)) s)
      | None => s
      end
  | ProcError pid msg =>
      match procs s !! pid with
      | Some pr =>
          if closed pr then s
          else on_error msg (set_procs (alter mark_failed pid (procs s)) s)
      | None => s
      end
  | StdinEnd pid => set_procs (alter mark_stdin_end pid (procs s)) s
  | Close => release s
  end.

(** A run of the event loop. *)
Definition exec (s : state) (evs : list event) : state := foldl step s evs.

End Server.

(* ===================================================================== *)
(** * Vocabulary of the statements                                        *)
(* ===================================================================== *)

Module Props.
Import Fs.

(** A regular file named [name] lies in the tree of listing [es], below the
    directories [dirs]. *)
Inductive file_at : list (string * node) -> list string -> string -> Prop :=
| file_here es name c :
    (name, File c) ∈ es -> file_at es [] name
| file_below es d es' dirs name :
    (d, Dir es') ∈ es -> file_at es' dirs name -> file_at es (d :: dirs) name.

(** What [stat] would tell about a path: a file with its content, or a
    directory. *)
Inductive kind : Type :=
| IsFile (content : string)
| IsDir.

Definition stat (p : list string) (fs : node) : option kind :=
  match get p fs with
  | Some (File c) => Some (IsFile c)
  | Some (Dir _) => Some IsDir
  | None => None
  end.

(** A file name none of whose segments is [..]. *)
Definition no_dotdot (name : string) : bool :=
  forallb (fun x => negb (String.eqb x "..")) (Js.split "/" name).

Definition is_java (name : string) : bool :=
  Js.truthy name && Js.endsWith ".java" name.

(** What the resolver itself takes from the sources: the candidates of
    the entry file and those of the other Java files, each file taken
    once, in the order of submission.  These are names for parts of the
    code, used in the lemmas; the tiers of the specification are in
    [Spec]. *)
Definition entry_types (fs : node) (workdir : list string)
    (entryFile : string) : list string :=
  if is_java entryFile
  then Resolver.fqcnCandidates
         (Resolver.parseJavaPackageAndClasses fs workdir entryFile)
  else [].

Definition other_files (entryFile : string) (javaFiles : list string)
  : list string :=
  filter (fun n => is_java n = true)
         (filter (fun n => n <> entryFile) (Js.uniq javaFiles)).

Definition other_types (fs : node) (workdir : list string)
    (entryFile : string) (javaFiles : list string) : list string :=
  Resolver.sourceCandidates fs workdir (other_files entryFile javaFiles).

(** [x] comes before [y] in [l]. *)
Definition before (x y : string) (l : list string) : Prop :=
  exists l1 l2 l3, l = l1 ++ x :: l2 ++ y :: l3.

(** The number of nodes below the directories of a stack of the walk. *)
Definition stack_weight (stack : list (list string * list (string * node)))
  : nat :=
  list_sum (map (fun d => size (Dir (snd d))) stack).

(** What one turn of the walk pushes on the stack and adds to the classes:
    the sub-directories and the class files of a listing. *)
Definition subdirs (dir : list string) (es : list (string * node))
  : list (list string * list (string * node)) :=
  omap (fun e => match snd e with
                 | Dir es' => Some (Path.child dir (fst e), es')
                 | File _ => None
                 end) es.

Definition class_files (workdir dir : list string) (es : list (string * node))
  : list string :=
  omap (fun e => match snd e with
                 | File _ =>
                     if Resolver.is_class_file (fst e)
                     then Some (Resolver.fqcn_of_path workdir
                                  (Path.child dir (fst e)))
                     else None
                 | Dir _ => None
                 end) es.

(** The class files of a tree, as the walk names them, with the test of
    the code ([Resolver.is_class_file]); [Spec.artifact_below] spells the
    test out. *)
Definition class_below (workdir dir : list string) (es : list (string * node))
    (c : string) : Prop :=
  exists dirs name,
    file_at es dirs name /\ Resolver.is_class_file name = true /\
    c = Resolver.fqcn_of_path workdir (dir ++ dirs ++ [name]).

(** At most one process of the session is alive, and it is the one that
    [proc] names. *)
Definition one_alive (s : Server.state) : Prop :=
  forall pid pr,
    Server.procs s !! pid = Some pr -> Server.alive pr = true ->
    Server.proc s = Some pid.

Definition none_alive (ps : list Server.process) : Prop :=
  forall pid pr, ps !! pid = Some pr -> Server.alive pr = false.

(** The events that end a run in a state: [terminate], the end of the
    connection, the exit or the failure of a process, and the failure of a
    compiler that a handler waits for. *)
Definition ends_run (s : Server.state) (e : Server.event) : Prop :=
  match e with
  | Server.Message (Server.Parsed Server.Terminate) => True
  | Server.Close => True
  | Server.ProcClose pid _ | Server.ProcError pid _ =>
      exists pr, Server.procs s !! pid = Some pr /\ Server.closed pr = false
  | Server.CompileDone id res =>
      exists j, Server.jobs s !! id = Some j /\ Server.waiting j = true /\
                Server.compile_failed res = true
  | _ => False
  end.

(** A compiler that a handler waits for ends with status 0. *)
Definition resumes_to_spawn (s : Server.state) (e : Server.event) : Prop :=
  match e with
  | Server.CompileDone id res =>
      exists j, Server.jobs s !! id = Some j /\ Server.waiting j = true /\
                Server.compile_failed res = false
  | _ => False
  end.

(** The file names of a [run] message have no [..] segment. *)
Definition safe_event (e : Server.event) : Prop :=
  match e with
  | Server.Message (Server.Parsed (Server.Run m)) =>
      forall f n, f ∈ Server.files m -> Server.name f = Some n ->
                  no_dotdot n = true
  | _ => True
  end.

(** The workspace directories of the session in the course of a run of the
    event loop: the value of [workdir] after each event. *)
Fixpoint workspaces (s : Server.state) (evs : list Server.event)
  : list (list string) :=
  match evs with
  | [] => []
  | e :: evs' =>
      option_list (Server.workdir (Server.step s e))
      ++ workspaces (Server.step s e) evs'
  end.

(** Of the directories [ds], only the one that [workdir] names exists. *)
Definition tidy (wd : option (list string)) (fs : Fs.node)
    (ds : list (list string)) : Prop :=
  (forall w, wd = Some w -> length w = 2) /\
  forall d, d ∈ ds ->
    length d = 2 /\ (is_Some (stat d fs) -> wd = Some d).

End Props.

(* ===================================================================== *)
(** * Sample inputs                                                       *)
(* ===================================================================== *)

Module Sample.
Import Fs Server.

(** A work directory after a successful [javac]: an entry file whose class
    has the runnable signature, a second source file, and class files. *)
Definition main_java : string :=
  "class Main { public static void main(String[] args) { } }".

Definition util_java : string := "package lib; class Util { }".

Definition java_fs : node :=
  Dir [("w", Dir [("Main.java", File main_java);
                  ("Util.java", File util_java);
                  ("Main.class", File "");
                  ("Main$1.class", File "");
                  ("lib", Dir [("Util.class", File "")])])].

(** [javap] cannot be started. *)
Definition javap_missing (fqcn : string) : cmd_result :=
  CmdResult (Some (-1)%Z) "" "spawn javap ENOENT".

(** [javap] finds no runnable [main] in any class. *)
Definition javap_no_main (fqcn : string) : cmd_result :=
  CmdResult (Some 0%Z) "class X { X(); }" "".


(** A compiler that succeeds, one that is ended by a signal before it has
    written anything, and one that reports a syntax error. *)
Definition compiled_ok : cmd_result := CmdResult (Some 0%Z) "" "".
Definition compiled_silent_failure : cmd_result := CmdResult None "" "".
Definition compiled_syntax_error : cmd_result :=
  CmdResult (Some 1%Z) "" "Main.java:1: error: ';' expected".

(** [run] messages. *)
Definition run_python : run_msg :=
  RunMsg "python" [SrcFile (Some "a.py") "print(input())"] "".

Definition run_java : run_msg :=
  RunMsg "java" [SrcFile (Some "Main.java") main_java] "".

(** A Java program without any [main] method. *)
Definition run_java_no_main : run_msg :=
  RunMsg "java" [SrcFile (Some "Util.java") "class Helper { }"] "".

Definition run_escape : run_msg :=
  RunMsg "python" [SrcFile (Some "../evil.txt") "x"] "".

Definition run_node_esm : run_msg :=
  RunMsg "node" [SrcFile (Some "m.js") "import x from 'y'"] "".

Definition run_node_cjs : run_msg :=
  RunMsg "node" [SrcFile (Some "m.js") "const x = require('y')"] "".

(** An ES module next to a directory named [package.json]. *)
Definition run_node_esm_dir : run_msg :=
  RunMsg "node" [SrcFile (Some "m.js") "import x from 'y'";
                 SrcFile (Some "package.json/a") ""] "".

Definition run_unknown : run_msg :=
  RunMsg "cobol" [SrcFile (Some "a.cob") ""] "".

(** No file at all, and a file below another file. *)
Definition run_empty : run_msg := RunMsg "python" [] "".

Definition run_clash : run_msg :=
  RunMsg "python" [SrcFile (Some "a") "x"; SrcFile (Some "a/b.py") "y"] "".

(** A session with a Python program running. *)
Definition running_python : state :=
  exec init [Message (Parsed (Run run_python))].

(** A session waiting for [javac]. *)
Definition compiling_java : state :=
  exec init [Message (Parsed (Run run_java))].

End Sample.

(* ===================================================================== *)
(** * The candidate tiers in the words of the specification               *)
(* ===================================================================== *)

(** Written from the specification, not from the resolver: the types that
    a source file declares, and the compiled artifacts of the output
    tree.  The theorems compare the candidates of the resolver with
    them. *)

Module Spec.
Import Fs.

(** The names of the types that a text declares: the identifier after each
    keyword [class], [record] or [enum], each name once, in the order of
    the text. *)
Definition declared_names (content : string) : list string :=
  Js.uniq (omap (Regex.group 2) (Regex.exec_all Pat.classRegex content)).

(** The fully-qualified types ([package.Type] or bare [Type]) declared in
    a submitted file; none when the file cannot be read. *)
Definition declared_types (fs : node) (workdir : list string)
    (fileName : string) : list string :=
  match readFileSync (Path.join workdir fileName) fs with
  | Ok content =>
      map (Resolver.qualify (Resolver.package_of content))
          (declared_names content)
  | Throw _ => []
  end.

(** The name of a file without [.java], in the package of the file when
    the file can be read. *)
Definition base_name_type (fs : node) (workdir : list string)
    (fileName : string) : string :=
  match readFileSync (Path.join workdir fileName) fs with
  | Ok content =>
      Resolver.qualify (Resolver.package_of content)
                       (Path.basename fileName ".java")
  | Throw _ => Path.basename fileName ".java"
  end.

(** The types of a file, or one default name when it declares none. *)
Definition types_or (default : string) (types : list string) : list string :=
  match types with
  | [] => [default]
  | _ :: _ => types
  end.

(** Tier (i): the types declared in the designated entry file; tier (ii):
    the types declared in the other submitted [.java] files, in the order
    of submission. *)
Definition entry_tier (fs : node) (workdir : list string)
    (entryFile : string) : list string :=
  if Props.is_java entryFile then declared_types fs workdir entryFile else [].

Definition others_tier (fs : node) (workdir : list string)
    (entryFile : string) (javaFiles : list string) : list string :=
  flat_map (declared_types fs workdir) (Props.other_files entryFile javaFiles).

(** Tier (iii): a compiled artifact of the tree of listing [es] is a
    regular file whose name ends in [.class] and holds no [$]; its
    candidate name is made of its path below the work directory. *)
Definition artifact_below (workdir dir : list string)
    (es : list (string * node)) (c : string) : Prop :=
  exists dirs name,
    Props.file_at es dirs name /\
    Js.endsWith ".class" name = true /\ Js.includes "$" name = false /\
    c = Resolver.fqcn_of_path workdir (dir ++ dirs ++ [name]).

End Spec.

(* ===================================================================== *)
(** * The session handler when the removal of a directory can fail        *)
(* ===================================================================== *)

(** [fs.rmSync(dir, { recursive: true, force: true })] can throw with the
    directory still in place (EACCES, EBUSY, ENOTEMPTY): the case that the
    [catch] of [cleanupProcess] is for.  [Fs.rmSync] has the errors of the
    structure of the tree only.  Here the handler of [Server] is written
    over any removal [rm]: [rm dir fs] is the file system that the call
    leaves, and the exception it threw, if any.  All that does not call
    [cleanupProcess] is taken from [Server]. *)

Module Failing.
Import Fs Server.

(** The removal of [Fs]: the tree without [dir], or the tree as it was
    and the exception. *)
Definition rmSync (dir : list string) (fs : node) : node * option string :=
  match Fs.rmSync dir fs with
  | Ok fs' => (fs', None)
  | Throw e => (fs, Some e)
  end.

Section Removal.
Variable rm : list string -> node -> node * option string.

(** [cleanupProcess(proc, workdir)]: the exception of [rm] is dropped. *)
Definition cleanupProcess (p : option nat) (w : option (list string))
    (s : state) : state :=
  let s1 := kill_part p s in
  match w with
  | Some d => set_fs (rm d (fs s1)).1 s1      (* ignore cleanup errors *)
  | None => s1
  end.

Definition release (s : state) : state :=
  set_proc None (set_workdir None (cleanupProcess (proc s) (workdir s) s)).

Definition fail (data : string) (s : state) : state :=
  release (send_error data s).

Definition run_catch (err : string) (s : state) : state :=
  fail ("Runtime error: " +:+ err) s.

Definition launch (m : run_msg) (w : list string) (entryFile : string)
    (s : state) : state :=
  let language := language m in
  if String.eqb language "python" then
    spawn "python3" ["-u"; entryFile] (Some w) s
  else if String.eqb language "node" then
    let s1 := if useEsm (Path.join w entryFile) (fs s)
              then write_esm_package w s else s in
    spawn "node" [entryFile] (Some w) s1
  else if String.eqb language "java" then
    await_compile "javac" (names_with (Js.endsWith ".java") (files m)) w
      (KJava (files m) entryFile) s
  else if String.eqb language "c" then
    await_compile "gcc"
      (names_with (Js.endsWith ".c") (files m) ++ ["-o"; "app.out"]) w KC s
  else if String.eqb language "cpp" then
    await_compile "g++" (names_with is_cpp (files m) ++ ["-o"; "app.out"]) w
      KCpp s
  else if String.eqb language "prolog" then
    spawn "swipl" ["-q"; "-s"; entryFile] (Some w) s
  else if String.eqb language "ruby" then
    spawn "ruby" [entryFile] (Some w) s
  else
    fail ("Language not supported: " +:+ language) s.

Definition run_body (m : run_msg) (s : state) : state :=
  match mkdtempSync s with
  | (Throw e, s1) => run_catch e s1
  | (Ok w, s1) =>
      let s2 := set_workdir (Some w) s1 in
      match materialize w (files m) (fs s2) with
      | (fs3, Some e) => run_catch e (set_fs fs3 s2)
      | (fs3, None) =>
          let s3 := set_fs fs3 s2 in
          match entry_file m with
          | None => run_catch (path_type_error "undefined") s3
          | Some entryFile =>
              if negb (existsSync (Path.join w entryFile) (fs s3))
              then fail ("Entry file not found: " +:+ entryFile) s3
              else launch m w entryFile s3
          end
      end
  end.

Definition handle_run (m : run_msg) (s : state) : state :=
  run_body m (release s).

Definition resume (k : continuation) (res : cmd_result) (s : state) : state :=
  if compile_failed res then
    fail (Js.or_else (stderr res) (default_diagnostic k)) s
  else
    match k with
    | KJava files entryFile =>
        match workdir s with
        | Some w =>
            spawn "java"
              ["-cp"; Path.to_string w;
               findJavaMainClass (fs s) files w entryFile]
              (Some w) s
        | None =>
            match names_with (Js.endsWith ".java") files with
            | [] =>
                spawn "java" ["-cp"; "null"; Path.basename entryFile ".java"]
                  None s
            | _ :: _ => run_catch (path_type_error "null") s
            end
        end
    | KC | KCpp =>
        match workdir s with
        | Some w => spawn (app_out w) [] (Some w) s
        | None => run_catch (path_type_error "null") s
        end
    end.

Definition handle_terminate (s : state) : state :=
  send (Out "exit" terminated) (release s).

Definition handle_message (raw : inbound) (s : state) : state :=
  match raw with
  | Malformed => send_error "Invalid JSON message" s
  | Parsed (Run m) => handle_run m s
  | Parsed (Input data) => handle_input data s
  | Parsed Terminate => handle_terminate s
  | Parsed Other => s
  end.

Definition on_close (code : option Z) (s : state) : state :=
  release (send (Out "exit" (exit_data code)) s).

Definition on_error (msg : string) (s : state) : state :=
  fail ("Failed to start runtime: " +:+ msg) s.

Definition step (s : state) (e : event) : state :=
  match e with
  | Message raw => handle_message raw s
  | CompileDone id res =>
      match jobs s !! id with
      | Some j =>
          if waiting j
          then resume (j_cont j) res (set_jobs (alter finish_job id (jobs s)) s)
          else s
      | None => s
      end
  | ProcStdout pid data =>
      match procs s !! pid with
      | Some pr => if closed pr then s else send (Out "stdout" (JStr data)) s
      | None => s
      end
  | ProcStderr pid data =>
      match procs s !! pid with
      | Some pr => if closed pr then s else send (Out "stderr" (JStr data)) s
      | None => s
      end
  | ProcClose pid code =>
      match procs s !! pid with
      | Some pr =>
          if closed pr then s
          else on_close code (set_procs (alter mark_closed pid (procs s)) s)
      | None => s
      end
  | ProcError pid msg =>
      match procs s !! pid with
      | Some pr =>
          if closed pr then s
          else on_error msg (set_procs (alter mark_failed pid (procs s)) s)
      | None => s
      end
  | StdinEnd pid => set_procs (alter mark_stdin_end pid (procs s)) s
  | Close => release s
  end.

Definition exec (s : state) (evs : list event) : state := foldl step s evs.

End Removal.

(** A removal that fails on a busy directory and leaves it in place. *)
Definition rm_busy (dir : list string) (fs : node) : node * option string :=
  (fs, Some "EBUSY").

(** A removal is repeatable when a second call on what the first has left
    leaves it as it is. *)
Definition repeatable (rm : list string -> node -> node * option string)
  : Prop :=
  forall dir fs, (rm dir (rm dir fs).1).1 = (rm dir fs).1.

End Failing.

(* ===================================================================== *)
(** * More sample inputs                                                  *)
(* ===================================================================== *)

Module MoreSamples.
Import Fs Server.

(** A program whose only file is written into the directory that was the
    workspace of the first run of the session. *)
Definition run_reenter : run_msg :=
  RunMsg "python" [SrcFile (Some "../code-sync-0/x.py") "print(1)"] "".

(** A work directory whose only source file declares no type. *)
Definition no_type_fs : node :=
  Dir [("w", Dir [("Util.java", File "// nothing is declared here")])].

End MoreSamples.

(* ===================================================================== *)
(** * The resolver that scans the sources only                            *)
(* ===================================================================== *)

(** The variant of the server whose [findJavaMainClass] is synchronous: it
    reads the submitted files, entry file first, and returns the class of
    the first one with a runnable [main], or [null]. *)

Module Scan.
Import Fs Regex.

(** What [parseJavaClassInfo] returns. *)
Record class_info := ClassInfo { hasMain : bool; fqcn : string }.

(** Source: /\b(public\s+static|static\s+public)\s+void\s+main\s*\(\s*(?:<mainParam>)\s*\)/m *)
Definition mainRegex : regex :=
  Seqs [WordB;
        Grp 1 (Alt (Seqs [Lit "public"; Plus Pat.sp; Lit "static"])
                   (Seqs [Lit "static"; Plus Pat.sp; Lit "public"]));
        Plus Pat.sp; Lit "void"; Plus Pat.sp; Lit "main"; Star Pat.sp; Lit "(";
        Star Pat.sp; Pat.mainParam; Star Pat.sp; Lit ")"].

(** [classMatch] is the first match of [Pat.classRegex] (the source has the
    same pattern without the g flag). *)
Definition parseJavaClassInfo (fs : node) (workdir : list string)
    (fileName : string) : class_info :=
  match readFileSync (Path.join workdir fileName) fs with
  | Ok content =>
      let hasMain := Regex.test mainRegex content in
      let pkg := Resolver.package_of content in
      let className :=
        match Regex.exec Pat.classRegex content with
        | Some m => default "" (Regex.group 2 m)
        | None => Path.basename fileName ".java"
        end in
      ClassInfo hasMain (Resolver.qualify pkg className)
  | Throw _ => ClassInfo false (Path.basename fileName ".java")
  end.

(** The loop [for (const fileName of candidates)]. *)
Fixpoint first_main (fs : node) (workdir : list string)
    (candidates : list string) : option string :=
  match candidates with
  | [] => None
  | fileName :: rest =>
      let info := parseJavaClassInfo fs workdir fileName in
      if hasMain info then Some (fqcn info) else first_main fs workdir rest
  end.

(** [findJavaMainClass(workdir, entryFile, javaFiles)]; [candidates] is
    built as [orderedFiles] of the two-phase resolver is. *)
Definition findJavaMainClass (fs : node) (workdir : list string)
    (entryFile : string) (javaFiles : list string) : option string :=
  first_main fs workdir (Resolver.orderedFiles entryFile javaFiles).

End Scan.

(* ===================================================================== *)
(** * The preview server: paths, content types and rewriting              *)
(* ===================================================================== *)

Module Web.
Import Fs Regex.

(** [s.toLowerCase()] on code units below 256: the ASCII capitals, and the
    capitals of Latin-1 (U+00C0 to U+00DE without the sign U+00D7). *)
Definition lower_char (c : ascii) : ascii :=
  if is_upper c || (in_range 192 222 c && negb (code c =? 215)%N)
  then ascii_of_N (code c + 32) else c.

Fixpoint toLowerCase (s : string) : string :=
  match s with
  | EmptyString => EmptyString
  | String c s' => String (lower_char c) (toLowerCase s')
  end.

(** The last non-empty segment of a path. *)
Definition last_segment (p : string) : string :=
  match filter (fun x => Js.truthy x = true) (reverse (Js.split "/" p)) with
  | [] => ""
  | x :: _ => x
  end.

(** A string cut at its last dot: what is before the dot, and the rest
    from the dot on. *)
Fixpoint last_dot (s : string) : option (string * string) :=
  match s with
  | EmptyString => None
  | String c s' =>
      match last_dot s' with
      | Some (before, ext) => Some (String c before, ext)
      | None => if Ascii.eqb c "." then Some ("", s) else None
      end
  end.

(** [path.extname(p)]: the last segment from its last dot on; the empty
    string when it has no dot, when the dot is its first character, and
    for the segment [..]. *)
Definition extname (p : string) : string :=
  let b := last_segment p in
  match last_dot b with
  | None => ""
  | Some (before, ext) =>
      if String.eqb before "" then ""
      else if String.eqb b ".." then ""
      else ext
  end.

Definition getMimeType (filePath : string) : string :=
  let ext := toLowerCase (extname filePath) in
  if String.eqb ext ".html" then "text/html; charset=utf-8"
  else if String.eqb ext ".css" then "text/css; charset=utf-8"
  else if String.eqb ext ".js" then "application/javascript; charset=utf-8"
  else if String.eqb ext ".mjs" then "application/javascript; charset=utf-8"
  else if String.eqb ext ".json" then "application/json; charset=utf-8"
  else if String.eqb ext ".svg" then "image/svg+xml; charset=utf-8"
  else if String.eqb ext ".png" then "image/png"
  else if String.eqb ext ".jpg" then "image/jpeg"
  else if String.eqb ext ".jpeg" then "image/jpeg"
  else if String.eqb ext ".gif" then "image/gif"
  else if String.eqb ext ".webp" then "image/webp"
  else "text/plain; charset=utf-8".

(** ** [rewriteRootUrls] *)

(** The class of the two quotes. *)
Definition is_quote (c : ascii) : bool :=
  (code c =? 34)%N || (code c =? 39)%N.

(** The three patterns, each without its look-ahead (?!preview\/):
    (src|href)=(<quote>)\/ and srcset=(<quote>)\/ and url\(\s*(<quote>?)\/ *)
Definition rootAttr : regex :=
  Seqs [Grp 1 (Alt (Lit "src") (Lit "href")); Lit "="; Grp 2 (Chr is_quote);
        Lit "/"].

Definition rootSrcset : regex :=
  Seqs [Lit "srcset="; Grp 1 (Chr is_quote); Lit "/"].

Definition rootUrl : regex :=
  Seqs [Lit "url("; Star Pat.sp; Grp 1 (Opt (Chr is_quote)); Lit "/"].

(** A match of [r(?!ahead)] at the current position: the look-ahead is
    the last test of the match, and its failure makes the matcher
    backtrack into [r]. *)
Definition match_unless (r : regex) (ahead : string) (prev : option ascii)
    (s : string) : option rmatch_result :=
  rmatch r prev s []
    (fun prev' s' cs =>
       if Js.startsWith ahead s' then None
       else Some (MatchResult (prefix_upto s s') cs prev' s')).

(** [s.replace(/r(?!ahead)/g, f)]: the matches are looked for from left to
    right, each search starting where the previous match ended (one
    character further after an empty match). *)
Fixpoint replace_from (fuel : nat) (r : regex) (ahead : string)
    (f : rmatch_result -> string) (prev : option ascii) (s : string) : string :=
  match fuel with
  | O => s
  | S fuel' =>
      match match_unless r ahead prev s with
      | Some m =>
          if (String.length (m_rest m) <? String.length s)%nat
          then f m +:+ replace_from fuel' r ahead f (m_prev m) (m_rest m)
          else
            match s with
            | EmptyString => f m
            | String c s' =>
                f m +:+ String c (replace_from fuel' r ahead f (Some c) s')
            end
      | None =>
          match s with
          | EmptyString => EmptyString
          | String c s' => String c (replace_from fuel' r ahead f (Some c) s')
          end
      end
  end.

Definition replace_all (r : regex) (ahead : string)
    (f : rmatch_result -> string) (s : string) : string :=
  replace_from (S (String.length s)) r ahead f None s.

(** [$n] in a replacement. *)
Definition cap (i : nat) (m : rmatch_result) : string :=
  default "" (group i m).

(** [basePrefix.endsWith('/') ? basePrefix.slice(0, -1) : basePrefix] *)
Definition safe_base (basePrefix : string) : string :=
  if Js.endsWith "/" basePrefix
  then String.substring 0 (String.length basePrefix - 1) basePrefix
  else basePrefix.

(** [basePrefix] holds no [$] (it is [/preview/] and a preview id), so
    that it stands for itself in the replacements. *)
Definition rewriteRootUrls (content basePrefix : string) : string :=
  if negb (Js.truthy content) then content
  else
    let safeBase := safe_base basePrefix in
    let updated := content in
    let updated :=
      replace_all rootAttr "preview/"
        (fun m => cap 1 m +:+ "=" +:+ cap 2 m +:+ safeBase +:+ "/") updated in
    let updated :=
      replace_all rootSrcset "preview/"
        (fun m => "srcset=" +:+ cap 1 m +:+ safeBase +:+ "/") updated in
    let updated :=
      replace_all rootUrl "preview/"
        (fun m => "url(" +:+ cap 1 m +:+ safeBase +:+ "/") updated in
    updated.

(** ** [path.normalize] and the path of the file to serve *)

(** [normalizeString] for a relative path: [..] removes the segment before
    it, and stays when there is none or when that segment is [..] itself.
    [acc] is the result so far, last segment first. *)
Fixpoint norm_rel (acc : list string) (xs : list string) : list string :=
  match xs with
  | [] => reverse acc
  | x :: xs' =>
      if Path.is_dot x then norm_rel acc xs'
      else if String.eqb x ".." then
        match acc with
        | y :: acc' =>
            if String.eqb y ".." then norm_rel (x :: acc) xs'
            else norm_rel acc' xs'
        | [] => norm_rel [x] xs'
        end
      else norm_rel (x :: acc) xs'
  end.

(** [path.normalize(p)] *)
Definition normalize (p : string) : string :=
  if String.eqb p "" then "."
  else
    let isAbsolute := Js.startsWith "/" p in
    let trailingSeparator := Js.endsWith "/" p in
    let body :=
      Js.join "/" (if isAbsolute then Path.norm [] (Js.split "/" p)
                   else norm_rel [] (Js.split "/" p)) in
    if String.eqb body "" then
      if isAbsolute then "/" else if trailingSeparator then "./" else "."
    else
      (if isAbsolute then "/" else "") +:+ body
      +:+ (if trailingSeparator then "/" else "").

(** [s.replace(/^(\.\.(\/|\\|$))+/, '')]: the leading [../] and [..\] are
    removed, and a [..] that ends the string after them. *)
Fixpoint strip_dotdot (s : string) : string :=
  match s with
  | String a (String b rest) =>
      if Ascii.eqb a "." && Ascii.eqb b "." then
        match rest with
        | EmptyString => EmptyString
        | String c s' =>
            if Ascii.eqb c "/" || Ascii.eqb c "\" then strip_dotdot s' else s
        end
      else s
  | _ => s
  end.

(** The text of a path made by [path.join]. *)
Definition path_text (p : Path.t) : string :=
  match Path.segs p with
  | [] => "/"
  | _ => Path.to_string (Path.segs p) +:+ (if Path.slash p then "/" else "")
  end.

(** [relPath] and [filePath] of the request handler; [segments] are the
    segments of the URL, [preview] and the preview id first. *)
Definition relPath (segments : list string) : string :=
  strip_dotdot
    (normalize (Js.or_else (Js.join "/" (drop 2 segments)) "index.html")).

Definition filePath (workdir : list string) (segments : list string) : Path.t :=
  Path.join workdir (relPath segments).

(** What [res.writeHead] and [res.end] are given. *)
Record response := Response {
  status : nat;
  contentType : string;
  cacheControl : option string;
  body : string;
}.

Definition plain (status : nat) (body : string) : response :=
  Response status "text/plain" None body.

Definition rewritten (ext : string) : bool :=
  String.eqb ext ".html" || String.eqb ext ".htm" || String.eqb ext ".css".

(** The branch [if (segments[0] === 'preview')] from the preview found on:
    [workdir] is [preview.workdir]. *)
Definition serve (fs : node) (previewId : string) (workdir : list string)
    (segments : list string) : response :=
  let filePath := filePath workdir segments in
  if negb (Js.startsWith (Path.to_string workdir) (path_text filePath))
  then plain 403 "Forbidden"
  else if negb (existsSync filePath fs) then plain 404 "File not found"
  else
    match readFileSync filePath fs with
    | Throw _ => plain 500 "Failed to read preview file"
    | Ok data =>
        let ext := toLowerCase (extname (path_text filePath)) in
        let data :=
          if rewritten ext
          then rewriteRootUrls data ("/preview/" +:+ previewId)
          else data in
        Response 200 (getMimeType (path_text filePath)) (Some "no-cache") data
    end.

End Web.

(* ===================================================================== *)
(** * Previews: the [preview] branch, their cleanup and the HTTP server   *)
(* ===================================================================== *)

(** The table [previews] of the server, the set [ownedPreviews] of the
    connection, and the session of [Server] beside them.  The messages of
    the [preview] branch carry a [requestId]: they are kept in a log of
    their own.  The timer of a preview is the event [Expire]. *)

Module Preview.
Import Fs Server.

(** A [preview] message; [p_main] is the empty string when absent. *)
Record preview_msg := PreviewMsg {
  requestId : json;
  p_files : list SourceFile;
  p_main : string;
}.

(** [{ type: 'preview', requestId, url }] and
    [{ type: 'preview-error', data, requestId }] *)
Inductive reply : Type :=
| PreviewReady (requestId : json) (url : string)
| PreviewError (data : string) (requestId : json).

Record world := World {
  session : state;
  previews : gmap string (list string);     (* previewId to workdir *)
  ownedPreviews : list string;              (* in the order of insertion *)
  replies : list reply;
}.

Definition set_session (s : state) (w : world) : world :=
  World s (previews w) (ownedPreviews w) (replies w).

Definition send_reply (r : reply) (w : world) : world :=
  World (session w) (previews w) (ownedPreviews w) (replies w ++ [r]).

Definition init : world := World Server.init ∅ [] [].

Definition preview_tmp_name (n : nat) : list string :=
  Path.tmpdir ++ ["code-sync-preview-" +:+ pretty n].

(** [fs.mkdtempSync(path.join(os.tmpdir(), 'code-sync-preview-'))] *)
Definition mkdtempSync (s : state) : result (list string) * state :=
  let d := preview_tmp_name (tmp_seq s) in
  let s1 := set_tmp_seq (S (tmp_seq s)) s in
  match mkdir_new d (fs s1) with
  | Ok fs' => (Ok d, set_fs fs' s1)
  | Throw e => (Throw e, s1)
  end.

(** [msg.main || (files[0] ? files[0].name : 'index.html')]; [None] stands
    for [undefined]. *)
Definition entry_file (m : preview_msg) : option string :=
  if Js.truthy (p_main m) then Some (p_main m)
  else match p_files m with
       | f :: _ => name f
       | [] => Some "index.html"
       end.

(** Source: /^[\\/]+/ *)
Definition leadingSlashes : Regex.regex :=
  Regex.Plus (Regex.Chr (fun c => Ascii.eqb c "\" || Ascii.eqb c "/")).

(** [entryFile.replace(/^[\\/]+/, '')]: the pattern can only match at the
    start of the string. *)
Definition entry_path (entryFile : string) : string :=
  match Regex.match_here leadingSlashes None entryFile with
  | Some m => Regex.m_rest m
  | None => entryFile
  end.

(** [try { fs.rmSync(dir, { recursive: true, force: true }); } catch { }] *)
Definition remove_quietly (dir : list string) (s : state) : state :=
  match rmSync dir (fs s) with
  | Ok fs' => set_fs fs' s
  | Throw _ => s
  end.

(** The [catch (err)] of the [preview] branch; [previewDir] is [None]
    when [mkdtempSync] has thrown. *)
Definition preview_catch (previewDir : option (list string)) (err : string)
    (rid : json) (w : world) : world :=
  let s := match previewDir with
           | Some dir => remove_quietly dir (session w)
           | None => session w
           end in
  send_reply (PreviewError ("Preview error: " +:+ err) rid) (set_session s w).

Definition undefined_replace : string :=
  "Cannot read properties of undefined (reading 'replace')".

(** The [preview] branch; [previewId] is what [crypto.randomUUID()]
    returned. *)
Definition handle_preview (m : preview_msg) (previewId : string) (w : world)
  : world :=
  let rid := requestId m in
  match mkdtempSync (session w) with
  | (Throw e, s1) => preview_catch None e rid (set_session s1 w)
  | (Ok previewDir, s1) =>
      match materialize previewDir (p_files m) (fs s1) with
      | (fs2, Some e) =>
          preview_catch (Some previewDir) e rid (set_session (set_fs fs2 s1) w)
      | (fs2, None) =>
          let w2 := set_session (set_fs fs2 s1) w in
          match entry_file m with
          | None => preview_catch (Some previewDir) undefined_replace rid w2
          | Some entryFile =>
              let entryPath := entry_path entryFile in
              let entryFull := Path.join previewDir entryPath in
              if negb (existsSync entryFull fs2) then
                let w3 :=
                  send_reply
                    (PreviewError ("Entry file not found: " +:+ entryFile) rid)
                    w2 in
                match rmSync previewDir (fs (session w3)) with
                | Ok fs3 => set_session (set_fs fs3 (session w3)) w3
                | Throw e => preview_catch (Some previewDir) e rid w3
                end
              else
                send_reply
                  (PreviewReady rid
                     ("/preview/" +:+ previewId +:+ "/" +:+ entryPath))
                  (World (session w2)
                         (<[previewId := previewDir]> (previews w2))
                         (Js.set_add (ownedPreviews w2) previewId)
                         (replies w2))
          end
      end
  end.

(** [cleanupPreview(previewId)] *)
Definition cleanupPreview (previewId : string) (w : world) : world :=
  match previews w !! previewId with
  | None => w
  | Some workdir =>
      World (remove_quietly workdir (session w))
            (delete previewId (previews w)) (ownedPreviews w) (replies w)
  end.

(** [ws.on('close', ...)]: the run is released, then the previews of the
    connection are cleaned up. *)
Definition handle_close (w : world) : world :=
  foldl (fun w previewId => cleanupPreview previewId w)
        (set_session (Server.step (session w) Close) w)
        (ownedPreviews w).

Inductive event : Type :=
| Conn (e : Server.event)                 (* an event of the connection *)
| PreviewRequest (m : preview_msg) (previewId : string)
| Expire (previewId : string).            (* the timer of a preview *)

Definition step (w : world) (e : event) : world :=
  match e with
  | Conn Close => handle_close w
  | Conn e' => set_session (Server.step (session w) e') w
  | PreviewRequest m previewId => handle_preview m previewId w
  | Expire previewId => cleanupPreview previewId w
  end.

Definition exec (w : world) (evs : list event) : world := foldl step w evs.

(** The request handler of the HTTP server; [segments] is
    [url.pathname.split('/').filter(Boolean)]. *)
Definition handle_request (w : world) (segments : list string)
  : Web.response :=
  match segments with
  | first :: rest =>
      if String.eqb first "preview" then
        match head rest with
        | Some previewId =>
            match previews w !! previewId with
            | Some workdir =>
                Web.serve (fs (session w)) previewId workdir segments
            | None => Web.plain 404 "Preview not found"
            end
        | None => Web.plain 404 "Preview not found"
        end
      else Web.plain 200 "Code Sync runtime is running"
  | [] => Web.plain 200 "Code Sync runtime is running"
  end.

(** The request handler from the request on.  The first statement,
    [new URL(req.url || '/', `http://${req.headers.host}`)], throws on a
    malformed [Host] header or URL; it is outside any [try], so that the
    request then gets no answer from the handler ([None]).  [url] is what
    the constructor gave: the [pathname] of the URL, percent-encoded and
    without dot segments as the URL parser leaves it, or the exception. *)
Definition on_request (w : world) (url : result string)
  : option Web.response :=
  match url with
  | Throw _ => None
  | Ok pathname =>
      Some (handle_request w
              (filter (fun x => Js.truthy x = true) (Js.split "/" pathname)))
  end.

End Preview.

(* ===================================================================== *)
(** * More vocabulary                                                     *)
(* ===================================================================== *)

Module Inv.
Import Fs.

(** A process record is the same process later on: command, arguments and
    directory are kept, and what was written to its input is still there. *)
Definition same_process (pr pr' : Server.process) : Prop :=
  Server.p_cmd pr' = Server.p_cmd pr /\ Server.p_args pr' = Server.p_args pr /\
  Server.p_cwd pr' = Server.p_cwd pr /\
  Server.stdin pr `prefix_of` Server.stdin pr'.

Definition keeps_processes (ps ps' : list Server.process) : Prop :=
  forall pid pr, ps !! pid = Some pr ->
    exists pr', ps' !! pid = Some pr' /\ same_process pr pr'.

(** From [s] to [s'] the log of messages has grown, the processes are
    kept, and at most [n] things were done: messages sent, processes
    spawned, compilers started. *)
Definition advances (n : nat) (s s' : Server.state) : Prop :=
  exists out,
    Server.sent s' = Server.sent s ++ out /\
    length out + length (Server.procs s') + length (Server.jobs s')
    <= length (Server.procs s) + length (Server.jobs s) + n /\
    length (Server.jobs s) <= length (Server.jobs s') /\
    keeps_processes (Server.procs s) (Server.procs s').

(** The compilers that are running: the ones started by [runCommand]
    whose handler still waits.  They are child processes that are not in
    the table of the run processes, and that no cleanup kills. *)
Definition compilers_running (s : Server.state) : list nat :=
  filter (fun id => (Server.waiting <$> Server.jobs s !! id) = Some true)
         (seq 0 (length (Server.jobs s))).

(** The process that [proc] names is in the table and was started in the
    directory that [workdir] names. *)
Definition runs_in_workdir (s : Server.state) : Prop :=
  forall pid, Server.proc s = Some pid ->
    exists pr, Server.procs s !! pid = Some pr /\
               Server.p_cwd pr = Server.workdir s.

(** What a file gives to [findJavaMainClass] of [index.js]: the qualified
    name of its class when it can be read, has a [main] and a class. *)
Definition declares_main (fs : node) (workdir : list string) (file : string)
  : option string :=
  match readFileSync (Path.join workdir file) fs with
  | Ok content =>
      match Server.class_of content with
      | Some className =>
          if Regex.test Pat.hasMainRegex content && Js.truthy className
          then Some (Resolver.qualify (Resolver.package_of content) className)
          else None
      | None => None
      end
  | Throw _ => None
  end.

(** The package of the entry file, when it is one of the Java files and
    can be read. *)
Definition entry_package (fs : node) (workdir : list string)
    (entryFile : string) (javaFiles : list string) : string :=
  if bool_decide (entryFile ∈ javaFiles) then
    match readFileSync (Path.join workdir entryFile) fs with
    | Ok content => Resolver.package_of content
    | Throw _ => ""
    end
  else "".

(** From [s] to [s'] the run has been ended with the message [o]: the
    process that [proc] named is not alive, the directory that [workdir]
    named is gone, and both variables are cleared. *)
Definition run_ended (s s' : Server.state) (o : Server.out_msg) : Prop :=
  Server.sent s' = Server.sent s ++ [o] /\
  Server.proc s' = None /\ Server.workdir s' = None /\
  (forall cur pr, Server.proc s = Some cur ->
     Server.procs s' !! cur = Some pr -> Server.alive pr = false) /\
  (forall d, Server.workdir s = Some d -> d <> [] ->
     Props.stat d (Server.fs s') = None).

(** The state of the loop of [findLikelySourceMainClasses]: the current
    class is a name that a token has given, and so is every class of the
    result. *)
Definition likely_inv (pkg : string) (seen : list Regex.rmatch_result)
    (st : string * list string) : Prop :=
  (st.1 = "" \/
   exists t, t ∈ seen /\ Regex.group 1 t = Some st.1) /\
  forall c, c ∈ st.2 ->
    exists name t, c = Resolver.qualify pkg name /\ Js.truthy name = true /\
                   t ∈ seen /\ Regex.group 1 t = Some name.

(** Two states of a session that differ in the file system and in the
    names that [mkdtempSync] has used only. *)
Definition same_run (s s' : Server.state) : Prop :=
  Server.proc s' = Server.proc s /\ Server.workdir s' = Server.workdir s /\
  Server.procs s' = Server.procs s /\ Server.jobs s' = Server.jobs s /\
  Server.sent s' = Server.sent s.

(** The segments [..] of a relative path come first: what
    [path.normalize] leaves of them. *)
Fixpoint ups_first (l : list string) : bool :=
  match l with
  | [] => true
  | x :: l' =>
      if String.eqb x ".." then ups_first l'
      else forallb (fun y => negb (String.eqb y "..")) l'
  end.

(** The same for the accumulator of [norm_rel], last segment first. *)
Fixpoint ups_last (acc : list string) : bool :=
  match acc with
  | [] => true
  | y :: acc' =>
      if String.eqb y ".." then forallb (fun z => String.eqb z "..") acc'
      else ups_last acc'
  end.

(** The text has no slash. *)
Fixpoint no_slash (s : string) : bool :=
  match s with
  | EmptyString => true
  | String c s' => negb (Ascii.eqb c "/") && no_slash s'
  end.

End Inv.

(* ===================================================================== *)
(** * Sample previews                                                     *)
(* ===================================================================== *)

Module PreviewSample.
Import Server Preview.

(** A page with a style sheet. *)
Definition site : preview_msg :=
  PreviewMsg (JNum 7)
    [SrcFile (Some "index.html") "<link href='/a.css'>";
     SrcFile (Some "a.css") "body { }"] "".

(** The server after the page has been asked for; the UUID drawn is
    [u1]. *)
Definition served : world := exec init [PreviewRequest site "u1"].

(** A page whose name has a blank, and the server after it has been asked
    for. *)
Definition spaced : preview_msg :=
  PreviewMsg JNull [SrcFile (Some "my page.html") "<p>hello</p>"] "".

Definition served_spaced : world := exec init [PreviewRequest spaced "u2"].

End PreviewSample.

(* ===================================================================== *)
(** * Sets as lists                                                       *)
(* ===================================================================== *)

Import Props.

Lemma set_add_elem (acc : list string) (x y : string) :
  y ∈ Js.set_add acc x <-> y ∈ acc \/ y = x.
Proof.
  unfold Js.set_add. case_bool_decide as Hx.
  - split; [auto|]. intros [H | ->]; done.
  - rewrite elem_of_app, list_elem_of_singleton. tauto.
Qed.

Lemma uniq_snoc (l : list string) (x : string) :
  Js.uniq (l ++ [x]) = Js.set_add (Js.uniq l) x.
Proof. unfold Js.uniq. by rewrite foldl_app. Qed.

Lemma foldl_set_add (acc l : list string) :
  foldl Js.set_add acc l = acc ++ filter (fun x => x ∉ acc) (Js.uniq l).
Proof.
  induction l as [| x l IH] using rev_ind.
  - simpl. by rewrite app_nil_r.
  - rewrite foldl_app, uniq_snoc. simpl. rewrite IH.
    unfold Js.set_add at 1. case_bool_decide as Hin.
    + unfold Js.set_add. case_bool_decide as Hu; [done|].
      rewrite filter_app, filter_cons.
      apply elem_of_app in Hin as [Hacc | Hf].
      * rewrite decide_False by (intros Hn; by apply Hn).
        by rewrite filter_nil, app_nil_r.
      * apply list_elem_of_filter in Hf as [_ Hf]. done.
    + assert (Hacc : x ∉ acc) by (intros H; apply Hin, elem_of_app; auto).
      assert (Hu : x ∉ Js.uniq l).
      { intros H. apply Hin, elem_of_app. right.
        by apply list_elem_of_filter. }
      unfold Js.set_add. rewrite bool_decide_eq_false_2 by done.
      rewrite filter_app, filter_cons, decide_True by done.
      by rewrite filter_nil, <- app_assoc.
Qed.

Lemma uniq_elem (l : list string) (x : string) : x ∈ Js.uniq l <-> x ∈ l.
Proof.
  induction l as [| y l IH] using rev_ind.
  - done.
  - rewrite uniq_snoc, set_add_elem, elem_of_app, list_elem_of_singleton.
    tauto.
Qed.

Lemma uniq_NoDup (l : list string) : NoDup (Js.uniq l).
Proof.
  induction l as [| y l IH] using rev_ind.
  - constructor.
  - rewrite uniq_snoc. unfold Js.set_add. case_bool_decide as Hin; [done|].
    apply NoDup_app. split_and!; [done | | apply NoDup_singleton].
    intros z Hz Hz'. apply list_elem_of_singleton in Hz'. by subst.
Qed.

(** The candidates of a first list all come before those that only the
    second list brings. *)
Lemma uniq_app (a b : list string) :
  Js.uniq (a ++ b) = Js.uniq a ++ filter (fun x => x ∉ a) (Js.uniq b).
Proof.
  unfold Js.uniq at 1. rewrite foldl_app. fold (Js.uniq a).
  rewrite foldl_set_add. f_equal.
  apply list_filter_iff. intros x. by rewrite uniq_elem.
Qed.

Lemma uniq_cons (x : string) (l : list string) :
  Js.uniq (x :: l) = x :: filter (fun y => y <> x) (Js.uniq l).
Proof.
  change (x :: l) with ([x] ++ l). rewrite uniq_app. simpl. f_equal.
  apply list_filter_iff. intros y. by rewrite list_elem_of_singleton.
Qed.

(* ===================================================================== *)
(** * The matcher on literals and on the patterns of the source           *)
(* ===================================================================== *)

(** On a literal the matcher is the prefix test. *)
Lemma rmatch_Lit {A : Type} (p : string) (prev : option ascii) (s : string)
    (cs : Regex.captures)
    (k : option ascii -> string -> Regex.captures -> option A) :
  (forall prev' s' cs', is_Some (k prev' s' cs')) ->
  is_Some (Regex.rmatch (Regex.Lit p) prev s cs k) <-> Js.startsWith p s = true.
Proof.
  intros Hk. revert prev s. induction p as [| c p IH]; intros prev s.
  - simpl. split; [done | intros _; apply Hk].
  - destruct p as [| c' p].
    + destruct s as [| a s]; simpl.
      * split; [by intros [? ?] | done].
      * destruct (Ascii.eqb c a); [|split; [by intros [? ?] | done]].
        split; [done | intros _; apply Hk].
    + change (Regex.Lit (String c (String c' p)))
        with (Regex.Seq (Regex.Chr (Ascii.eqb c)) (Regex.Lit (String c' p))).
      destruct s as [| a s].
      * simpl. split; [by intros [? ?] | done].
      * change (Js.startsWith (String c (String c' p)) (String a s))
          with (if Ascii.eqb c a then Js.startsWith (String c' p) s else false).
        change (Regex.rmatch
                  (Regex.Seq (Regex.Chr (Ascii.eqb c)) (Regex.Lit (String c' p)))
                  prev (String a s) cs k)
          with (if Ascii.eqb c a
                then Regex.rmatch (Regex.Lit (String c' p)) (Some a) s cs k
                else None).
        destruct (Ascii.eqb c a); [apply IH|].
        split; [by intros [? ?] | done].
Qed.

(** [re.test(s)] for a literal [re] is [s.includes(...)]. *)
Lemma test_Lit (p s : string) : Regex.test (Regex.Lit p) s = Js.includes p s.
Proof.
  unfold Regex.test.
  assert (H : forall prev, is_Some (Regex.search (Regex.Lit p) prev s)
                           <-> Js.includes p s = true).
  { induction s as [| a s IH]; intros prev.
    - simpl. unfold Regex.match_here.
      pose proof (rmatch_Lit p prev "" []
                    (fun prev' s' cs =>
                       Some (Regex.MatchResult (Regex.prefix_upto "" s') cs prev' s'))
                    ltac:(by eexists)) as Hm.
      destruct (Regex.rmatch _ _ _ _ _) as [m |].
      + rewrite (proj1 Hm) by (by eexists). split; [done | by eexists].
      + destruct (Js.startsWith p ""); [|split; [by intros [? ?] | done]].
        destruct (proj2 Hm eq_refl) as [? [=]].
    - simpl. unfold Regex.match_here.
      pose proof (rmatch_Lit p prev (String a s) []
                    (fun prev' s' cs =>
                       Some (Regex.MatchResult
                               (Regex.prefix_upto (String a s) s') cs prev' s'))
                    ltac:(by eexists)) as Hm.
      destruct (Regex.rmatch _ _ _ _ _) as [m |].
      + rewrite (proj1 Hm) by (by eexists). split; [done | by eexists].
      + destruct (Js.startsWith p (String a s)); [|apply IH].
        destruct (proj2 Hm eq_refl) as [? [=]]. }
  specialize (H None). destruct (Regex.search _ _ _) as [m |].
  - symmetry. apply H. by eexists.
  - destruct (Js.includes p s); [|done]. by destruct (proj2 H eq_refl).
Qed.

(** The patterns of the source on sample texts. *)
Example pattern_examples :
  Resolver.package_of "package com.acme.app;" = "com.acme.app" /\
  Resolver.package_of "// package of the demo" = "" /\
  omap (Regex.group 2)
    (Regex.exec_all Pat.classRegex
       "public class Main { enum Color { RED } record P(int x) { } }")
  = ["Main"; "Color"; "P"] /\
  Regex.exec_all Pat.classRegex "classy = subclass(1)" = [] /\
  Regex.test Pat.mainSignature "public static void main(String[] args)" = true /\
  Regex.test Pat.mainSignature "static public void main(String... a)" = true /\
  Regex.test Pat.mainSignature "public static void main(String a [ ])" = true /\
  Regex.test Pat.mainSignature "public void main(String[] args)" = false /\
  Regex.test Pat.javapMain
    "  public static void main(java.lang.String[]);" = true /\
  Regex.test Pat.toolMissing "spawn javap ENOENT" = true /\
  Regex.test Pat.toolMissing "'javap' is not recognized as a command" = true /\
  Regex.test Pat.toolMissing "error: class not found: Main" = false /\
  Regex.test Pat.hasMainRegex "static void main(String[] args)" = true /\
  Regex.test Pat.hasMainRegex "static void main(String... args)" = false /\
  Server.class_of "  public class Foo extends Bar" = Some "Foo" /\
  Regex.test Pat.esmRegex "import fs from 'fs'" = true /\
  Regex.test Pat.esmRegex "module.exports = { important: 1 }" = false.
Proof. vm_compute. repeat split. Qed.

(* ===================================================================== *)
(** * The walk over the compiled classes                                  *)
(* ===================================================================== *)

Lemma walk_entries (w dir : list string) (es : list (string * Fs.node))
    (stack : list (list string * list (string * Fs.node)))
    (classes : list string) :
  foldl (Resolver.walk_entry w dir) (stack, classes) es
  = (reverse (subdirs dir es) ++ stack, classes ++ class_files w dir es).
Proof.
  revert stack classes. induction es as [| [x n] es IH]; intros stack classes.
  - simpl. by rewrite app_nil_r.
  - change (foldl (Resolver.walk_entry w dir) (stack, classes) ((x, n) :: es))
      with (foldl (Resolver.walk_entry w dir)
              (Resolver.walk_entry w dir (stack, classes) (x, n)) es).
    destruct n as [c | es'].
    + change (subdirs dir ((x, Fs.File c) :: es)) with (subdirs dir es).
      assert (Hc : class_files w dir ((x, Fs.File c) :: es)
                   = (if Resolver.is_class_file x
                      then [Resolver.fqcn_of_path w (Path.child dir x)]
                      else []) ++ class_files w dir es).
      { unfold class_files. simpl. by destruct (Resolver.is_class_file x). }
      rewrite Hc. unfold Resolver.walk_entry. cbn [fst snd].
      destruct (Resolver.is_class_file x); rewrite IH; [|done].
      by rewrite <- app_assoc.
    + change (class_files w dir ((x, Fs.Dir es') :: es))
        with (class_files w dir es).
      change (subdirs dir ((x, Fs.Dir es') :: es))
        with ((Path.child dir x, es') :: subdirs dir es).
      unfold Resolver.walk_entry. cbn [fst snd]. rewrite IH.
      rewrite reverse_cons. by rewrite <- app_assoc.
Qed.

Lemma subdirs_weight (dir : list string) (es : list (string * Fs.node)) :
  stack_weight (subdirs dir es) <= list_sum (map (fun e => Fs.size (snd e)) es).
Proof.
  induction es as [| [x n] es IH]; [done|].
  destruct n as [c | es'].
  - change (subdirs dir ((x, Fs.File c) :: es)) with (subdirs dir es).
    simpl. lia.
  - change (subdirs dir ((x, Fs.Dir es') :: es))
      with ((Path.child dir x, es') :: subdirs dir es).
    unfold stack_weight in *. simpl in *. lia.
Qed.

Lemma stack_weight_app (a b : list (list string * list (string * Fs.node))) :
  stack_weight (a ++ b) = stack_weight a + stack_weight b.
Proof. unfold stack_weight. by rewrite map_app, list_sum_app. Qed.

Lemma stack_weight_rev (a : list (list string * list (string * Fs.node))) :
  stack_weight (reverse a) = stack_weight a.
Proof.
  induction a as [| x a IH]; [done|].
  rewrite reverse_cons, stack_weight_app, IH. unfold stack_weight. simpl. lia.
Qed.

Lemma stack_weight_cons (dir : list string) (es : list (string * Fs.node))
    (stack : list (list string * list (string * Fs.node))) :
  stack_weight ((dir, es) :: stack)
  = S (list_sum (map (fun e => Fs.size (snd e)) es)) + stack_weight stack.
Proof. reflexivity. Qed.

(** The walk ends before its fuel does. *)
Lemma walk_total (fuel : nat) (w : list string)
    (stack : list (list string * list (string * Fs.node)))
    (classes : list string) :
  stack_weight stack < fuel ->
  is_Some (Resolver.walk fuel w stack classes).
Proof.
  revert stack classes. induction fuel as [| fuel IH]; intros stack classes Hw.
  - lia.
  - destruct stack as [| [dir es] stack]; [by eexists|].
    simpl. rewrite walk_entries. simpl. apply IH.
    rewrite stack_weight_app, stack_weight_rev.
    pose proof (subdirs_weight dir es) as Hs.
    rewrite stack_weight_cons in Hw. lia.
Qed.

Lemma elem_of_subdirs (dir : list string) (es : list (string * Fs.node))
    (d : list string) (es' : list (string * Fs.node)) :
  (d, es') ∈ subdirs dir es <->
  exists x, d = Path.child dir x /\ (x, Fs.Dir es') ∈ es.
Proof.
  unfold subdirs. rewrite list_elem_of_omap. split.
  - intros [[x n] [Hin Heq]]. simpl in Heq. destruct n; [done|].
    injection Heq as <- <-. eauto.
  - intros [x [-> Hin]]. exists (x, Fs.Dir es'). done.
Qed.

Lemma elem_of_class_files (w dir : list string)
    (es : list (string * Fs.node)) (c : string) :
  c ∈ class_files w dir es <->
  exists x content, (x, Fs.File content) ∈ es /\
    Resolver.is_class_file x = true /\
    c = Resolver.fqcn_of_path w (Path.child dir x).
Proof.
  unfold class_files. rewrite list_elem_of_omap. split.
  - intros [[x n] [Hin Heq]]. simpl in Heq. destruct n as [content |]; [|done].
    destruct (Resolver.is_class_file x) eqn:Hc; [|done].
    injection Heq as <-. eauto.
  - intros (x & content & Hin & Hc & ->). exists (x, Fs.File content).
    simpl. by rewrite Hc.
Qed.

(** One level of [class_below]: the class files of the listing itself, and
    those below its sub-directories. *)
Lemma class_below_unfold (w dir : list string) (es : list (string * Fs.node))
    (c : string) :
  class_below w dir es c <->
  c ∈ class_files w dir es \/
  exists d es', (d, es') ∈ subdirs dir es /\ class_below w d es' c.
Proof.
  split.
  - intros (dirs & name & Hf & Hc & ->). inversion Hf; subst.
    + left. apply elem_of_class_files. eauto.
    + right. exists (Path.child dir d), es'. split.
      * apply elem_of_subdirs. eauto.
      * exists dirs0, name. split_and!; [done..|].
        unfold Path.child. by rewrite <- app_assoc.
  - intros [Hc | (d & es' & Hd & dirs & name & Hf & Hc & ->)].
    + apply elem_of_class_files in Hc as (x & content & Hin & Hc & ->).
      exists [], x. split_and!; [by econstructor | done | done].
    + apply elem_of_subdirs in Hd as (x & -> & Hin).
      exists (x :: dirs), name. split_and!; [by econstructor | done |].
      unfold Path.child. by rewrite <- app_assoc.
Qed.

(** The classes of a walk: those found before, and the class files below
    the directories of the stack. *)
Lemma walk_spec (fuel : nat) (w : list string)
    (stack : list (list string * list (string * Fs.node)))
    (classes r : list string) :
  Resolver.walk fuel w stack classes = Some r ->
  forall c, c ∈ r <->
    c ∈ classes \/
    exists dir es, (dir, es) ∈ stack /\ class_below w dir es c.
Proof.
  revert stack classes. induction fuel as [| fuel IH]; intros stack classes Hr c.
  - done.
  - destruct stack as [| [dir es] stack]; simpl in Hr.
    + injection Hr as <-. split; [auto|].
      intros [H | (dir & es & Hin & _)]; [done|]. by apply elem_of_nil in Hin.
    + rewrite walk_entries in Hr. simpl in Hr.
      rewrite (IH _ _ Hr c). rewrite elem_of_app. split.
      * intros [[H | H] | (d & es' & Hin & Hb)].
        -- by left.
        -- right. exists dir, es. split; [left|].
           apply class_below_unfold. by left.
        -- apply elem_of_app in Hin as [Hin | Hin].
           ++ right. exists dir, es. split; [left|].
              apply class_below_unfold. right. exists d, es'.
              split; [|done]. by apply elem_of_reverse.
           ++ right. exists d, es'. split; [by right | done].
      * intros [H | (d & es' & Hin & Hb)]; [by left; left|].
        apply elem_of_cons in Hin as [Heq | Hin].
        -- injection Heq as -> ->.
           apply class_below_unfold in Hb as [Hb | (d' & es'' & Hd & Hb)].
           ++ left. by right.
           ++ right. exists d', es''. split; [|done].
              apply elem_of_app. left. by apply elem_of_reverse.
        -- right. exists d, es'. split; [|done]. apply elem_of_app. by right.
Qed.

(** [listCompiledClassCandidates] always returns or throws. *)
Lemma listCompiledClassCandidates_total (fs : Fs.node) (w : list string) :
  is_Some (Resolver.listCompiledClassCandidates fs w).
Proof.
  unfold Resolver.listCompiledClassCandidates.
  destruct (Fs.readdirSync w fs) as [es | e]; [|by eexists].
  destruct (walk_total (S (Fs.size (Fs.Dir es))) w [(w, es)] []) as [r Hr].
  - rewrite stack_weight_cons. unfold stack_weight. simpl. lia.
  - rewrite Hr. by eexists.
Qed.

(** Its result is the class files found below the work directory: regular
    files whose name ends in [.class] and has no [$]. *)
Lemma listCompiledClassCandidates_spec (fs : Fs.node) (w cs : list string) :
  Resolver.listCompiledClassCandidates fs w = Some (Fs.Ok cs) ->
  exists es, Fs.readdirSync w fs = Fs.Ok es /\
    forall c, c ∈ cs <-> class_below w w es c.
Proof.
  unfold Resolver.listCompiledClassCandidates.
  destruct (Fs.readdirSync w fs) as [es | e]; [|done].
  destruct (Resolver.walk _ _ _ _) as [r |] eqn:Hr; [|done].
  intros [= <-]. exists es. split; [done|]. intros c.
  rewrite (walk_spec _ _ _ _ _ Hr c). split.
  - intros [H | (d & es' & Hin & Hb)]; [by apply elem_of_nil in H|].
    apply list_elem_of_singleton in Hin. by injection Hin as -> ->.
  - intros Hb. right. exists w, es. split; [left | done].
Qed.

(* ===================================================================== *)
(** * The candidates of the resolver and their order                      *)
(* ===================================================================== *)

Lemma orderedFiles_split (entryFile : string) (javaFiles : list string) :
  Resolver.orderedFiles entryFile javaFiles
  = (if is_java entryFile then [entryFile] else [])
    ++ other_files entryFile javaFiles.
Proof.
  unfold Resolver.orderedFiles, other_files. rewrite uniq_cons.
  rewrite filter_cons. fold (is_java entryFile).
  destruct (is_java entryFile) eqn:He.
  - rewrite decide_True by done. done.
  - rewrite decide_False by (by intros H; rewrite H in He). done.
Qed.

Lemma sourceCandidates_app (fs : Fs.node) (w a b : list string) :
  Resolver.sourceCandidates fs w (a ++ b)
  = Resolver.sourceCandidates fs w a ++ Resolver.sourceCandidates fs w b.
Proof. unfold Resolver.sourceCandidates. apply flat_map_app. Qed.

Lemma sourceCandidates_ordered (fs : Fs.node) (w : list string)
    (entryFile : string) (javaFiles : list string) :
  Resolver.sourceCandidates fs w (Resolver.orderedFiles entryFile javaFiles)
  = entry_types fs w entryFile ++ other_types fs w entryFile javaFiles.
Proof.
  rewrite orderedFiles_split, sourceCandidates_app. f_equal.
  unfold entry_types. destruct (is_java entryFile); [|done].
  unfold Resolver.sourceCandidates. simpl. by rewrite app_nil_r.
Qed.

Lemma orderedCandidates_total (fs : Fs.node) (w : list string)
    (entryFile : string) (javaFiles : list string) :
  is_Some (Resolver.orderedCandidates fs w entryFile javaFiles).
Proof.
  unfold Resolver.orderedCandidates.
  destruct (listCompiledClassCandidates_total fs w) as [[cs | e] ->];
    by eexists.
Qed.

(** The candidates in terms of what [parseJavaPackageAndClasses] gives
    for each file and of what the walk keeps: first the candidates of the
    entry file, then those of the other files, then the compiled
    classes, each candidate once. *)
Lemma candidates_in_priority_order (fs : Fs.node) (w : list string)
    (entryFile : string) (javaFiles : list string) :
  is_Some (Resolver.orderedCandidates fs w entryFile javaFiles) /\
  forall cands,
    Resolver.orderedCandidates fs w entryFile javaFiles = Some (Fs.Ok cands) ->
    exists compiled es,
      Fs.readdirSync w fs = Fs.Ok es /\
      (forall c, c ∈ compiled <-> class_below w w es c) /\
      cands
      = Js.uniq (entry_types fs w entryFile)
        ++ filter (fun c => c ∉ entry_types fs w entryFile)
             (Js.uniq (other_types fs w entryFile javaFiles))
        ++ filter (fun c => c ∉ entry_types fs w entryFile
                                 ++ other_types fs w entryFile javaFiles)
             (Js.uniq compiled) /\
      NoDup cands.
Proof.
  split; [apply orderedCandidates_total|].
  intros cands. unfold Resolver.orderedCandidates.
  destruct (Resolver.listCompiledClassCandidates fs w) as [[compiled | e] |]
    eqn:Hc; [|done..].
  intros [= <-].
  destruct (listCompiledClassCandidates_spec _ _ _ Hc) as (es & Hes & Hall).
  exists compiled, es. split_and!; [done | done | | apply uniq_NoDup].
  rewrite sourceCandidates_ordered, !uniq_app. by rewrite <- app_assoc.
Qed.

(* ===================================================================== *)
(** * Probing and fallback                                                *)
(* ===================================================================== *)



Lemma probe_accepted_inv (javap : string -> Resolver.cmd_result)
    (cands : list string) (c : string) :
  Resolver.probe javap cands = Resolver.Accepted c ->
  c ∈ cands /\ Resolver.classHasMainWithJavap (javap c) = Some true.
Proof.
  induction cands as [| x cands IH]; simpl; [done|].
  destruct (Resolver.classHasMainWithJavap (javap x)) as [[|]|] eqn:Hx.
  - intros [= <-]. split; [left | done].
  - intros H. destruct (IH H). split; [by right | done].
  - done.
Qed.

Lemma probe_not_accepted (javap : string -> Resolver.cmd_result)
    (cands : list string) :
  (forall c, c ∈ cands ->
     Resolver.classHasMainWithJavap (javap c) <> Some true) ->
  forall c, Resolver.probe javap cands <> Resolver.Accepted c.
Proof.
  intros Hall c Hp. apply probe_accepted_inv in Hp as [Hin Hc].
  by apply (Hall c).
Qed.

Lemma fallback_Some (cands likely : list string) (c : string) :
  Resolver.fallback cands likely = Some c -> c ∈ likely /\ c ∈ cands.
Proof.
  induction likely as [| x likely IH]; simpl; [done|].
  case_bool_decide as Hx.
  - intros [= <-]. split; [left | done].
  - intros H. destruct (IH H). split; [by right | done].
Qed.

Lemma fallback_None (cands likely : list string) :
  Resolver.fallback cands likely = None <->
  forall c, c ∈ likely -> c ∉ cands.
Proof.
  induction likely as [| x likely IH]; simpl.
  - split; [|done]. intros _ c Hc. by apply elem_of_nil in Hc.
  - case_bool_decide as Hx.
    + split; [done|]. intros H. exfalso. apply (H x); [left | done].
    + rewrite IH. split.
      * intros H c Hc. apply elem_of_cons in Hc as [-> | Hc]; auto.
      * intros H c Hc. apply H. by right.
Qed.


(** The answer [null] of [classHasMainWithJavap] is the failure of the tool
    itself: exit code -1 and a message of a missing executable. *)
Lemma tool_unavailable (r : Resolver.cmd_result) :
  Resolver.classHasMainWithJavap r = None <->
  Resolver.code r = Some (-1)%Z /\
  Regex.test Pat.toolMissing (Resolver.stderr r) = true.
Proof.
  unfold Resolver.classHasMainWithJavap, Resolver.code_is.
  destruct (Resolver.code r) as [z |]; simpl.
  - destruct (Z.eqb_spec z 0) as [-> | Hz]; simpl.
    + split; [done|]. by intros [[=] _].
    + destruct (Z.eqb_spec z (-1)) as [-> | Hz']; simpl.
      * destruct (Regex.test _ _); split; try done. by intros [_ [=]].
      * split; [done|]. intros [[= ->] _]. done.
  - split; [done|]. by intros [[=] _].
Qed.





(** What a file gives to the candidates, in the words of the
    specification: the types it declares, or its base name when it
    declares none or cannot be read. *)
Lemma parse_candidates_spec (fs : Fs.node) (w : list string) (f : string) :
  Resolver.fqcnCandidates (Resolver.parseJavaPackageAndClasses fs w f)
  = Spec.types_or (Spec.base_name_type fs w f) (Spec.declared_types fs w f).
Proof.
  unfold Resolver.parseJavaPackageAndClasses, Spec.declared_types,
    Spec.base_name_type, Spec.declared_names.
  destruct (Fs.readFileSync (Path.join w f) fs) as [content | e]; [| done].
  cbn zeta.
  by destruct (Js.uniq (omap (Regex.group 2)
                          (Regex.exec_all Pat.classRegex content))).
Qed.

Lemma artifact_below_class_below (w dir : list string)
    (es : list (string * Fs.node)) (c : string) :
  Spec.artifact_below w dir es c <-> class_below w dir es c.
Proof.
  unfold Spec.artifact_below, class_below, Resolver.is_class_file.
  split; intros (dirs & name & Hat & H); exists dirs, name;
    (split; [done|]).
  - destruct H as (-> & -> & ->). done.
  - destruct H as (H & ->). apply andb_true_iff in H as [-> H].
    apply negb_true_iff in H. by rewrite H.
Qed.

(** C7, as the code has it.  The candidates of the entry-point resolution
    are, in this order and each once: for the designated entry file (when
    its name ends in [.java]) the fully-qualified types it declares, or
    its base name when it declares none or cannot be read; then the same
    for the other submitted [.java] files; then the compiled artifacts of
    the work directory, the regular files of the tree whose name ends in
    [.class] and has no [$].  When every Java file of the request declares
    a type, the first two tiers are the declared types of the
    specification.  The list is always produced, unless the work
    directory cannot be listed. *)
Theorem candidates_are_tiers_with_base_names (fs : Fs.node) (w : list string)
    (entryFile : string) (javaFiles : list string) :
  let of_file f :=
    Spec.types_or (Spec.base_name_type fs w f) (Spec.declared_types fs w f) in
  let tier1 := if is_java entryFile then of_file entryFile else [] in
  let tier2 := flat_map of_file (other_files entryFile javaFiles) in
  is_Some (Resolver.orderedCandidates fs w entryFile javaFiles) /\
  (forall f,
     Resolver.fqcnCandidates (Resolver.parseJavaPackageAndClasses fs w f)
     = of_file f) /\
  (forall cands,
     Resolver.orderedCandidates fs w entryFile javaFiles = Some (Fs.Ok cands) ->
     exists compiled es,
       Fs.readdirSync w fs = Fs.Ok es /\
       (forall c, c ∈ compiled <-> Spec.artifact_below w w es c) /\
       cands
       = Js.uniq tier1
         ++ filter (fun c => c ∉ tier1) (Js.uniq tier2)
         ++ filter (fun c => c ∉ tier1 ++ tier2) (Js.uniq compiled) /\
       NoDup cands) /\
  ((forall f, f ∈ Resolver.orderedFiles entryFile javaFiles ->
      Spec.declared_types fs w f <> []) ->
   tier1 = Spec.entry_tier fs w entryFile /\
   tier2 = Spec.others_tier fs w entryFile javaFiles).
Proof.
  intros of_file tier1 tier2.
  assert (Ht1 : entry_types fs w entryFile = tier1).
  { unfold entry_types, tier1. destruct (is_java entryFile); [| done].
    apply parse_candidates_spec. }
  assert (Ht2 : other_types fs w entryFile javaFiles = tier2).
  { unfold other_types, Resolver.sourceCandidates, tier2.
    apply flat_map_ext. intros f. apply parse_candidates_spec. }
  destruct (candidates_in_priority_order fs w entryFile javaFiles)
    as [Htotal Hcands].
  split_and!; [done | apply parse_candidates_spec | |].
  - intros cands Hc.
    destruct (Hcands cands Hc) as (compiled & es & Hes & Hall & Heq & Hnd).
    exists compiled, es. split_and!; [done | | | done].
    + intros c. rewrite artifact_below_class_below. apply Hall.
    + by rewrite <- Ht1, <- Ht2.
  - intros Hdecl.
    assert (Hof : forall f, f ∈ Resolver.orderedFiles entryFile javaFiles ->
                            of_file f = Spec.declared_types fs w f).
    { intros f Hf. specialize (Hdecl f Hf). unfold of_file.
      by destruct (Spec.declared_types fs w f). }
    rewrite orderedFiles_split in Hof. split.
    + unfold tier1, Spec.entry_tier.
      destruct (is_java entryFile) eqn:Hj; [| done].
      apply Hof. apply elem_of_app. left. left.
    + unfold tier2, Spec.others_tier.
      assert (Hall : forall f, f ∈ other_files entryFile javaFiles ->
                               of_file f = Spec.declared_types fs w f).
      { intros f Hf. apply Hof. apply elem_of_app. by right. }
      revert Hall. generalize (other_files entryFile javaFiles) as l.
      induction l as [| f l IH]; intros Hall; [done|]. simpl.
      rewrite (Hall f) by left. f_equal. apply IH.
      intros g Hg. apply Hall. by right.
Qed.

(** C7 at the sample work directory, where both source files declare a
    type: the class of the entry file first, the class of the other file
    next; the compiled artifacts add nothing new. *)
Lemma candidates_are_tiers_with_base_names_witness :
  Resolver.orderedCandidates Sample.java_fs ["w"] "Main.java"
    ["Main.java"; "Util.java"] = Some (Fs.Ok ["Main"; "lib.Util"]) /\
  Spec.entry_tier Sample.java_fs ["w"] "Main.java" = ["Main"] /\
  Spec.others_tier Sample.java_fs ["w"] "Main.java" ["Main.java"; "Util.java"]
  = ["lib.Util"] /\
  (if is_java "Main.java"
   then Spec.types_or (Spec.base_name_type Sample.java_fs ["w"] "Main.java")
          (Spec.declared_types Sample.java_fs ["w"] "Main.java")
   else [])
  = Spec.entry_tier Sample.java_fs ["w"] "Main.java".
Proof.
  split_and!; [vm_compute; reflexivity.. |].
  apply (proj2 (proj2 (proj2 (candidates_are_tiers_with_base_names
                                Sample.java_fs ["w"] "Main.java"
                                ["Main.java"; "Util.java"])))).
  intros f Hf. vm_compute in Hf.
  apply elem_of_cons in Hf as [-> | Hf];
    [| apply list_elem_of_singleton in Hf; subst f]; vm_compute; discriminate.
Defined.

(** C7 fails as stated: the only source file declares no type, and yet
    the candidate list holds a name, the base name of the file, which is
    neither a type declared in a source file nor a compiled artifact. *)
Lemma candidate_is_no_declared_type :
  Resolver.orderedCandidates MoreSamples.no_type_fs ["w"] "Util.java"
    ["Util.java"] = Some (Fs.Ok ["Util"]) /\
  Spec.entry_tier MoreSamples.no_type_fs ["w"] "Util.java" = [] /\
  Spec.others_tier MoreSamples.no_type_fs ["w"] "Util.java" ["Util.java"] = [] /\
  Fs.readdirSync ["w"] MoreSamples.no_type_fs
  = Fs.Ok [("Util.java", Fs.File "// nothing is declared here")] /\
  forall c,
    ~ Spec.artifact_below ["w"] ["w"]
        [("Util.java", Fs.File "// nothing is declared here")] c.
Proof.
  split_and!; [vm_compute; reflexivity.. |].
  intros c (dirs & name & Hat & Hend & _).
  inversion Hat as [es n content Hin | es d es' ds n Hin _]; subst.
  - apply list_elem_of_singleton in Hin. injection Hin as -> _.
    vm_compute in Hend. discriminate.
  - apply list_elem_of_singleton in Hin. discriminate.
Qed.

(* ===================================================================== *)
(** * The file system: what an operation changes                          *)
(* ===================================================================== *)

Section FsFacts.
Import Fs.

Implicit Types (x y : string) (n : node) (es : list (string * node)).
Implicit Types (p q : list string).

Lemma entry_set_eq x n es : entry x (set_entry x n es) = Some n.
Proof.
  induction es as [| [y m] es IH]; simpl.
  - by rewrite String.eqb_refl.
  - destruct (String.eqb_spec x y) as [-> | Hxy]; simpl.
    + by rewrite String.eqb_refl.
    + by rewrite (proj2 (String.eqb_neq x y) Hxy).
Qed.

Lemma entry_set_ne x y n es : x <> y -> entry y (set_entry x n es) = entry y es.
Proof.
  intros Hxy. induction es as [| [z m] es IH]; simpl.
  - by rewrite (proj2 (String.eqb_neq y x)) by done.
  - destruct (String.eqb_spec x z) as [-> | Hxz]; simpl.
    + by rewrite (proj2 (String.eqb_neq y z)) by done.
    + by rewrite IH.
Qed.

Lemma entry_del_eq x es : entry x (del_entry x es) = None.
Proof.
  induction es as [| [y m] es IH]; simpl; [done|].
  destruct (String.eqb_spec x y) as [-> | Hxy]; simpl; [done|].
  by rewrite (proj2 (String.eqb_neq x y) Hxy).
Qed.

Lemma entry_del_ne x y es : x <> y -> entry y (del_entry x es) = entry y es.
Proof.
  intros Hxy. induction es as [| [z m] es IH]; simpl; [done|].
  destruct (String.eqb_spec x z) as [-> | Hxz]; simpl.
  - by rewrite IH, (proj2 (String.eqb_neq y z)) by done.
  - by rewrite IH.
Qed.

(** The equations of the operations on a path of two segments or more. *)
Lemma rmSync_deep x y p es :
  rmSync (x :: y :: p) (Dir es)
  = match entry x es with
    | Some n' =>
        bind (rmSync (y :: p) n') (fun n'' => Ok (Dir (set_entry x n'' es)))
    | None => Ok (Dir es)
    end.
Proof. reflexivity. Qed.

Lemma write_at_deep x y p c es :
  write_at (x :: y :: p) c (Dir es)
  = match entry x es with
    | Some n' =>
        bind (write_at (y :: p) c n')
             (fun n'' => Ok (Dir (set_entry x n'' es)))
    | None => Throw "ENOENT"
    end.
Proof. reflexivity. Qed.

Lemma mkdir_new_deep x y p es :
  mkdir_new (x :: y :: p) (Dir es)
  = match entry x es with
    | Some n' =>
        bind (mkdir_new (y :: p) n')
             (fun n'' => Ok (Dir (set_entry x n'' es)))
    | None => Throw "ENOENT"
    end.
Proof. reflexivity. Qed.

Lemma get_cons x p es :
  get (x :: p) (Dir es) = entry x es ≫= get p.
Proof. simpl. by destruct (entry x es). Qed.

Lemma get_file p c : p <> [] -> get p (File c) = None.
Proof. by destruct p. Qed.

Lemma stat_nil n : stat [] n = Some (match n with File c => IsFile c | Dir _ => IsDir end).
Proof. unfold stat. simpl. by destruct n. Qed.

Lemma stat_cons x p es :
  stat (x :: p) (Dir es) = entry x es ≫= stat p.
Proof. unfold stat. rewrite get_cons. by destruct (entry x es). Qed.

Lemma stat_file p c : p <> [] -> stat p (File c) = None.
Proof. intros Hp. unfold stat. by rewrite get_file. Qed.

(** The ancestors of an existing path exist, and are directories. *)
Lemma stat_prefix p q n :
  q `prefix_of` p -> q <> p -> is_Some (stat p n) -> stat q n = Some IsDir.
Proof.
  revert q n. induction p as [| x p IH]; intros q n Hpre Hne Hp.
  - apply prefix_nil_inv in Hpre. by subst.
  - destruct n as [c | es]; [by rewrite stat_file in Hp; [destruct Hp|]|].
    destruct q as [| y q]; [by rewrite stat_nil|].
    pose proof (prefix_cons_inv_1 _ _ _ _ Hpre) as ->.
    apply prefix_cons_inv_2 in Hpre.
    rewrite stat_cons in Hp |- *.
    destruct (entry x es) as [m |]; simpl in *; [|by destruct Hp].
    apply IH; [done | congruence | done].
Qed.

(** [rmSync]: the path is gone, whether the call returns or throws. *)
Lemma rmSync_gone p n :
  p <> [] ->
  match rmSync p n with
  | Ok n' => get p n' = None
  | Throw _ => get p n = None
  end.
Proof.
  revert n. induction p as [| x p IH]; intros n Hp; [done|].
  destruct n as [c | es]; [done|].
  destruct p as [| y p].
  - simpl. by rewrite entry_del_eq.
  - rewrite rmSync_deep.
    destruct (entry x es) as [m |] eqn:Hm; [|by rewrite get_cons, Hm].
    specialize (IH m ltac:(done)).
    destruct (rmSync (y :: p) m) as [m' | e]; unfold bind.
    + by rewrite get_cons, entry_set_eq.
    + by rewrite get_cons, Hm.
Qed.

(** [rmSync] creates nothing. *)
Lemma rmSync_stat p n n' q :
  rmSync p n = Ok n' -> is_Some (stat q n') -> is_Some (stat q n).
Proof.
  revert n n' q. induction p as [| x p IH]; intros n n' q Hrm Hq.
  - by destruct n.
  - destruct n as [c | es]; [done|].
    destruct q as [| z q]; [by rewrite stat_nil|].
    destruct p as [| y p].
    + simpl in Hrm. injection Hrm as <-. rewrite stat_cons in Hq |- *.
      destruct (decide (x = z)) as [-> | Hxz].
      * rewrite entry_del_eq in Hq. by destruct Hq.
      * by rewrite entry_del_ne in Hq.
    + rewrite rmSync_deep in Hrm.
      destruct (entry x es) as [m |] eqn:Hm; [|by injection Hrm as <-].
      destruct (rmSync (y :: p) m) as [m' | e] eqn:Hrm'; [|done].
      simpl in Hrm. injection Hrm as <-. rewrite stat_cons in Hq |- *.
      destruct (decide (x = z)) as [<- | Hxz].
      * rewrite entry_set_eq in Hq. rewrite Hm. simpl in *. by eapply IH.
      * by rewrite entry_set_ne in Hq.
Qed.

(** [mkdirSync] with [recursive]: a path that exists afterwards existed
    before as it is, or is a new directory on the way to the target. *)
Lemma mkdir_p_stat p n n' q :
  mkdir_p p n = Ok n' ->
  stat q n' = stat q n \/
  (stat q n = None /\ stat q n' = Some IsDir /\ q `prefix_of` p).
Proof.
  revert n n' q. induction p as [| x p IH]; intros n n' q Hmk.
  - simpl in Hmk. destruct n; [done|]. injection Hmk as <-. by left.
  - destruct n as [c | es]; [done|]. simpl in Hmk.
    destruct (mkdir_p p (default (Dir []) (entry x es))) as [m' | e] eqn:Hm;
      [|done].
    simpl in Hmk. injection Hmk as <-.
    destruct q as [| z q]; [left; by rewrite !stat_nil|].
    rewrite !stat_cons.
    destruct (decide (x = z)) as [<- | Hxz]; [|left; by rewrite entry_set_ne].
    rewrite entry_set_eq. simpl.
    destruct (IH _ _ q Hm) as [Heq | (Hnone & Hdir & Hpre)].
    + destruct (entry x es) as [m |] eqn:He; simpl in *; [by left|].
      destruct q as [| z q].
      * right. split_and!; [done | by rewrite Heq | apply prefix_cons, prefix_nil].
      * left. by rewrite Heq.
    + destruct (entry x es) as [m |] eqn:He; simpl in *.
      * right. split_and!; [done | done | by apply prefix_cons].
      * right. split_and!; [done | done | by apply prefix_cons].
Qed.

(** [writeFileSync]: only the target changes. *)
Lemma write_at_stat p c n n' q :
  write_at p c n = Ok n' -> q <> p -> stat q n' = stat q n.
Proof.
  revert n n' q. induction p as [| x p IH]; intros n n' q Hw Hne.
  - by destruct n.
  - destruct n as [c0 | es]; [done|].
    destruct p as [| y p].
    + simpl in Hw.
      assert (Hn' : n' = Dir (set_entry x (File c) es) /\
                    (forall es', entry x es <> Some (Dir es'))).
      { destruct (entry x es) as [[c1 | es1] |]; [| done |];
          injection Hw as <-; by split. }
      destruct Hn' as [-> Hnd].
      destruct q as [| z q]; [by rewrite !stat_nil|]. rewrite !stat_cons.
      destruct (decide (x = z)) as [<- | Hxz]; [|by rewrite entry_set_ne].
      rewrite entry_set_eq. simpl.
      destruct q as [| z q]; [done|]. rewrite stat_file by done.
      destruct (entry x es) as [[c1 | es1] |] eqn:He; simpl.
      * by rewrite stat_file.
      * by destruct (Hnd es1).
      * done.
    + rewrite write_at_deep in Hw.
      destruct (entry x es) as [m |] eqn:Hm; [|done].
      destruct (write_at (y :: p) c m) as [m' | e] eqn:Hw'; [|done].
      simpl in Hw. injection Hw as <-.
      destruct q as [| z q]; [by rewrite !stat_nil|]. rewrite !stat_cons.
      destruct (decide (x = z)) as [<- | Hxz]; [|by rewrite entry_set_ne].
      rewrite entry_set_eq, Hm. simpl. eapply IH; [done | congruence].
Qed.

Lemma write_at_get p c n n' :
  write_at p c n = Ok n' -> get p n' = Some (File c).
Proof.
  revert n n'. induction p as [| x p IH]; intros n n' Hw.
  - by destruct n.
  - destruct n as [c0 | es]; [done|].
    destruct p as [| y p].
    + simpl in Hw.
      assert (n' = Dir (set_entry x (File c) es)) as ->.
      { destruct (entry x es) as [[c1 | es1] |]; [| done |];
          by injection Hw as <-. }
      by rewrite get_cons, entry_set_eq.
    + rewrite write_at_deep in Hw.
      destruct (entry x es) as [m |] eqn:Hm; [|done].
      destruct (write_at (y :: p) c m) as [m' | e] eqn:Hw'; [|done].
      simpl in Hw. injection Hw as <-.
      rewrite get_cons, entry_set_eq. simpl. by eapply IH.
Qed.

(** Writing a file in an existing directory succeeds unless the target is
    a directory. *)
Lemma write_at_child p x c n :
  stat p n = Some IsDir ->
  stat (p ++ [x]) n <> Some IsDir ->
  is_Some (match write_at (p ++ [x]) c n with Ok n' => Some n' | Throw _ => None end).
Proof.
  revert n. induction p as [| y p IH]; intros n Hd Hx.
  - destruct n as [c0 | es]; [done|]. change ([] ++ [x]) with [x] in *.
    rewrite stat_cons in Hx. simpl.
    destruct (entry x es) as [[c1 | es1] |]; [by eexists | | by eexists].
    by destruct Hx.
  - destruct n as [c0 | es]; [done|].
    rewrite stat_cons in Hd. rewrite <- app_comm_cons, stat_cons in Hx.
    destruct (entry y es) as [m |] eqn:Hm; [|done]. simpl in Hd, Hx.
    destruct (IH m Hd Hx) as [m' Hm'].
    destruct (write_at (p ++ [x]) c m) as [m'' | e] eqn:Hw; [|done].
    rewrite <- app_comm_cons.
    destruct (p ++ [x]) as [| z r] eqn:Hpx; [by destruct p|].
    rewrite write_at_deep.
    rewrite Hm, Hw. simpl. by eexists.
Qed.

(** Writing on a directory throws. *)
Lemma write_at_dir p c n :
  stat p n = Some IsDir -> exists e, write_at p c n = Throw e.
Proof.
  revert n. induction p as [| x p IH]; intros n Hd.
  - destruct n; [done|]. by eexists.
  - destruct n as [c0 | es]; [by eexists|]. rewrite stat_cons in Hd.
    destruct (entry x es) as [m |] eqn:Hm; [|done]. simpl in Hd.
    destruct p as [| y p].
    + simpl. rewrite Hm. rewrite stat_nil in Hd. destruct m; [done|]. by eexists.
    + rewrite write_at_deep.
      rewrite Hm. destruct (IH m Hd) as [e ->]. by eexists.
Qed.

(** [mkdtempSync]: one new directory. *)
Lemma mkdir_new_stat p n n' q :
  mkdir_new p n = Ok n' ->
  (q <> p -> is_Some (stat q n') -> is_Some (stat q n)) /\
  stat p n = None /\ stat p n' = Some IsDir.
Proof.
  revert n n' q. induction p as [| x p IH]; intros n n' q Hmk.
  - by destruct n.
  - destruct n as [c0 | es]; [done|].
    destruct p as [| y p].
    + simpl in Hmk. destruct (entry x es) as [m |] eqn:Hm; [done|].
      injection Hmk as <-. rewrite !stat_cons, Hm, entry_set_eq.
      split_and!; [|done..]. intros Hne Hq.
      destruct q as [| z q]; [by rewrite stat_nil|].
      rewrite stat_cons in Hq |- *.
      destruct (decide (x = z)) as [<- | Hxz]; [|by rewrite entry_set_ne in Hq].
      rewrite entry_set_eq in Hq. simpl in Hq.
      destruct q as [| z q]; [done|]. unfold stat in Hq. simpl in Hq.
      by destruct Hq.
    + rewrite mkdir_new_deep in Hmk.
      destruct (entry x es) as [m |] eqn:Hm; [|done].
      destruct (mkdir_new (y :: p) m) as [m' | e] eqn:Hmk'; [|done].
      simpl in Hmk. injection Hmk as <-.
      rewrite !stat_cons, Hm, entry_set_eq. simpl.
      destruct q as [| z q].
      * destruct (IH _ _ [] Hmk') as (_ & H1 & H2). split_and!; [|done..].
        intros _ _. by rewrite stat_nil.
      * destruct (IH _ _ q Hmk') as (H0 & H1 & H2). split_and!; [|done..].
        intros Hne Hq. rewrite stat_cons in Hq |- *.
        destruct (decide (x = z)) as [<- | Hxz];
          [|by rewrite entry_set_ne in Hq].
        rewrite entry_set_eq in Hq. rewrite Hm. simpl in *.
        apply H0; [congruence | done].
Qed.

End FsFacts.

(* ===================================================================== *)
(** * Paths                                                               *)
(* ===================================================================== *)

Lemma norm_no_dotdot (acc xs : list string) :
  forallb (fun x => negb (String.eqb x "..")) xs = true ->
  Path.norm acc xs
  = reverse acc ++ filter (fun x => Path.is_dot x = false) xs.
Proof.
  revert acc. induction xs as [| x xs IH]; intros acc Hxs; simpl.
  - by rewrite app_nil_r.
  - simpl in Hxs. apply andb_true_iff in Hxs as [Hx Hxs].
    rewrite filter_cons. destruct (Path.is_dot x) eqn:Hd.
    + rewrite decide_False by done. by apply IH.
    + rewrite decide_True by done.
      apply negb_true_iff in Hx. rewrite Hx, IH by done.
      by rewrite reverse_cons, <- app_assoc.
Qed.

(** A name without [..] resolves inside the directory it is joined to. *)
Lemma join_inside (w : list string) (name : string) :
  no_dotdot name = true -> w `prefix_of` Path.segs (Path.join w name).
Proof.
  intros Hn. unfold Path.join. simpl.
  rewrite norm_no_dotdot by done. rewrite reverse_involutive.
  by apply prefix_app_r.
Qed.

(** A leading slash of the name is dropped by the join. *)
Lemma join_absolute (w : list string) (name : string) :
  Path.segs (Path.join w ("/" +:+ name)) = Path.segs (Path.join w name).
Proof. reflexivity. Qed.

Lemma join_package_json (w : list string) :
  Path.join w "package.json" = Path.Make (w ++ ["package.json"]) false.
Proof.
  unfold Path.join. f_equal.
  change (Js.split "/" "package.json") with ["package.json"].
  simpl. by rewrite reverse_cons, reverse_involutive.
Qed.

Lemma prefix_removelast (p q : list string) :
  q `prefix_of` removelast p -> q `prefix_of` p.
Proof.
  intros Hq. destruct p as [| x p] using rev_ind; [done|].
  rewrite removelast_last in Hq. by apply prefix_app_r.
Qed.

(* ===================================================================== *)
(** * Materialization of the workspace                                    *)
(* ===================================================================== *)

(** The write of one file whose resolved path is inside the workspace
    leaves every path outside the workspace, and the workspace directory
    itself, as they were. *)
Lemma materialize_file_inside (w : list string) (f : Server.SourceFile)
    (fs : Fs.node) (q : list string) :
  stat w fs = Some IsDir ->
  (forall n, Server.name f = Some n ->
     w `prefix_of` Path.segs (Path.join w n)) ->
  (~ w `prefix_of` q \/ q = w) ->
  stat q (Server.materialize_file w f fs).1 = stat q fs.
Proof.
  intros Hw Hin Hq. unfold Server.materialize_file.
  destruct (Server.name f) as [n |]; [|done].
  destruct (Js.truthy n); [|done].
  specialize (Hin n eq_refl). set (P := Path.join w n) in *.
  assert (Hmk : forall fs1, Fs.mkdir_p (removelast (Path.segs P)) fs = Fs.Ok fs1 ->
                            stat q fs1 = stat q fs).
  { intros fs1 Hfs1.
    destruct (mkdir_p_stat _ _ _ q Hfs1) as [Heq | (Hnone & _ & Hpre)]; [done|].
    exfalso. apply prefix_removelast in Hpre.
    destruct Hq as [Hq | ->]; [|by rewrite Hw in Hnone].
    destruct (prefix_weak_total _ _ _ Hpre Hin) as [Hqw | Hwq]; [|done].
    assert (stat q fs = Some IsDir) as Hd; [|by rewrite Hd in Hnone].
    apply (stat_prefix w); [done | | by rewrite Hw].
    intros ->. by apply Hq. }
  unfold Fs.mkdirSync, Path.dirname. simpl.
  destruct (Fs.mkdir_p _ fs) as [fs1 | e] eqn:Hfs1; [|done].
  unfold Fs.writeFileSync. destruct (Path.slash P); [by apply Hmk|].
  destruct (Fs.write_at _ _ fs1) as [fs2 | e] eqn:Hfs2; [|by apply Hmk].
  simpl. rewrite <- (Hmk fs1 eq_refl).
  apply (write_at_stat _ _ _ _ _ Hfs2).
  destruct Hq as [Hq | ->]; [by intros ->|].
  intros Heq. destruct (write_at_dir (Path.segs P) (Server.content f) fs1)
    as [e He]; [|by rewrite He in Hfs2].
  rewrite <- Heq.
  destruct (mkdir_p_stat _ _ _ w Hfs1) as [Hs | (Hnone & _)];
    [by rewrite Hs | by rewrite Hw in Hnone].
Qed.

Lemma materialize_inside (w : list string) (files : list Server.SourceFile)
    (fs : Fs.node) (q : list string) :
  stat w fs = Some IsDir ->
  (forall f n, f ∈ files -> Server.name f = Some n ->
     w `prefix_of` Path.segs (Path.join w n)) ->
  (~ w `prefix_of` q \/ q = w) ->
  stat q (Server.materialize w files fs).1 = stat q fs.
Proof.
  revert fs. induction files as [| f files IH]; intros fs Hw Hin Hq; [done|].
  simpl.
  assert (Hf : forall q', (~ w `prefix_of` q' \/ q' = w) ->
                 stat q' (Server.materialize_file w f fs).1 = stat q' fs).
  { intros q' Hq'. apply materialize_file_inside; [done | | done].
    intros n. apply Hin. left. }
  destruct (Server.materialize_file w f fs) as [fs1 [e |]] eqn:Hm; simpl in *.
  - by apply Hf.
  - rewrite IH; [by apply Hf | | | done].
    + rewrite Hf; [done | by right].
    + intros f' n Hf'. apply Hin. by right.
Qed.

(** C3, as the code has it.  A file name with no [..] segment resolves to
    a path inside the workspace directory (a leading slash of the name is
    dropped by the join), and when all names are such, nothing outside the
    workspace directory is created, removed or changed. *)
Theorem materialize_without_dotdot_stays_inside (w : list string)
    (files : list Server.SourceFile) (fs : Fs.node) :
  stat w fs = Some IsDir ->
  (forall f n, f ∈ files -> Server.name f = Some n -> no_dotdot n = true) ->
  (forall f n, f ∈ files -> Server.name f = Some n ->
     w `prefix_of` Path.segs (Path.join w n) /\
     Path.segs (Path.join w ("/" +:+ n)) = Path.segs (Path.join w n)) /\
  (forall q, ~ w `prefix_of` q ->
     stat q (Server.materialize w files fs).1 = stat q fs).
Proof.
  intros Hw Hsafe. split.
  - intros f n Hf Hn. split; [|apply join_absolute].
    apply join_inside. by apply (Hsafe f).
  - intros q Hq. apply materialize_inside; [done | | by left].
    intros f n Hf Hn. apply join_inside. by apply (Hsafe f).
Qed.

Lemma materialize_without_dotdot_stays_inside_witness :
  (forall f n, f ∈ [Server.SrcFile (Some "/src/a.py") "x"] ->
     Server.name f = Some n ->
     ["tmp"; "ws"] `prefix_of` Path.segs (Path.join ["tmp"; "ws"] n) /\
     Path.segs (Path.join ["tmp"; "ws"] ("/" +:+ n))
     = Path.segs (Path.join ["tmp"; "ws"] n)) /\
  (forall q, ~ ["tmp"; "ws"] `prefix_of` q ->
     stat q (Server.materialize ["tmp"; "ws"]
               [Server.SrcFile (Some "/src/a.py") "x"]
               (Fs.Dir [("tmp", Fs.Dir [("ws", Fs.Dir [])])])).1
     = stat q (Fs.Dir [("tmp", Fs.Dir [("ws", Fs.Dir [])])])).
Proof.
  apply materialize_without_dotdot_stays_inside.
  - reflexivity.
  - intros f n Hf Hn. apply list_elem_of_singleton in Hf. subst f.
    injection Hn as <-. reflexivity.
Defined.

(** C3 fails as stated: the file [../evil.txt] of a [run] message is
    written next to the workspace directory, and the run goes on. *)
Lemma materialize_writes_outside :
  let s := Server.exec Server.init
             [Server.Message (Server.Parsed (Server.Run Sample.run_escape))] in
  Server.workdir s = Some ["tmp"; "code-sync-0"] /\
  ~ ["tmp"; "code-sync-0"] `prefix_of` ["tmp"; "evil.txt"] /\
  stat ["tmp"; "evil.txt"] (Server.fs Server.init) = None /\
  stat ["tmp"; "evil.txt"] (Server.fs s) = Some (IsFile "x") /\
  Server.sent s = [].
Proof.
  vm_compute. split_and!; try reflexivity.
  intros [k Hk]. discriminate Hk.
Qed.

(* ===================================================================== *)
(** * The cleanup routine                                                 *)
(* ===================================================================== *)

Section Cleanup.
Import Fs Server.

Implicit Types (s : state) (p : option nat) (w : option (list string)).

Lemma cleanupProcess_unfold p w s :
  cleanupProcess p w s
  = match w with
    | Some d =>
        match rmSync d (fs (kill_part p s)) with
        | Ok fs' => set_fs fs' (kill_part p s)
        | Throw _ => kill_part p s
        end
    | None => kill_part p s
    end.
Proof. reflexivity. Qed.

Lemma kill_part_fields p s :
  proc (kill_part p s) = proc s /\ workdir (kill_part p s) = workdir s /\
  fs (kill_part p s) = fs s /\ jobs (kill_part p s) = jobs s /\
  sent (kill_part p s) = sent s /\ tmp_seq (kill_part p s) = tmp_seq s /\
  length (procs (kill_part p s)) = length (procs s).
Proof.
  unfold kill_part. destruct p as [pid |]; [|done].
  destruct (procs s !! pid) as [pr |]; [|done].
  destruct (negb (killed pr)); [|done].
  unfold kill. simpl. by rewrite length_alter.
Qed.

Lemma cleanupProcess_fields p w s :
  proc (cleanupProcess p w s) = proc s /\
  workdir (cleanupProcess p w s) = workdir s /\
  jobs (cleanupProcess p w s) = jobs s /\
  sent (cleanupProcess p w s) = sent s /\
  tmp_seq (cleanupProcess p w s) = tmp_seq s /\
  procs (cleanupProcess p w s) = procs (kill_part p s).
Proof.
  rewrite cleanupProcess_unfold.
  destruct (kill_part_fields p s) as (H1 & H2 & H3 & H4 & H5 & H6 & H7).
  destruct w as [d |]; [|done].
  destruct (rmSync d (fs (kill_part p s))); done.
Qed.

(** After [cleanupProcess] the process is not alive. *)
Lemma mark_killed_not_alive (pr : process) :
  alive (mark_killed pr) = false \/ (killed pr = true /\ mark_killed pr = pr).
Proof.
  unfold mark_killed, alive. destruct pr as [c a d r cl k wr i]; simpl.
  destruct r, k; simpl; auto.
Qed.

Lemma cleanupProcess_kills pid w s pr :
  procs (cleanupProcess (Some pid) w s) !! pid = Some pr -> alive pr = false.
Proof.
  destruct (cleanupProcess_fields (Some pid) w s) as (_ & _ & _ & _ & _ & ->).
  unfold kill_part. destruct (procs s !! pid) as [pr0 |] eqn:Hpr.
  - destruct (killed pr0) eqn:Hk; simpl.
    + rewrite Hpr. intros [= <-]. unfold alive. rewrite Hk.
      by rewrite andb_false_r.
    + unfold kill. simpl. rewrite list_lookup_alter_eq, Hpr. simpl.
      intros [= <-].
      destruct (mark_killed_not_alive pr0) as [H | [H _]]; [done | congruence].
  - by rewrite Hpr.
Qed.

(** With the removal of [Fs], which throws only where nothing is left to
    remove, the directory is gone after [cleanupProcess].  For a removal
    that can fail with the directory in place see [Failing]. *)
Lemma cleanupProcess_removes p d s :
  d <> [] -> stat d (fs (cleanupProcess p (Some d) s)) = None.
Proof.
  intros Hd. rewrite cleanupProcess_unfold.
  pose proof (rmSync_gone d (fs (kill_part p s)) Hd) as Hgone.
  unfold stat.
  destruct (rmSync d (fs (kill_part p s))) as [fs' | e]; simpl;
    by rewrite Hgone.
Qed.

(** [cleanupProcess] never fails: when [rmSync] throws, the exception is
    dropped and only the kill has taken place. *)
Lemma cleanupProcess_swallows p d s e :
  rmSync d (fs s) = Throw e ->
  cleanupProcess p (Some d) s = kill_part p s.
Proof.
  intros Hrm. rewrite cleanupProcess_unfold.
  destruct (kill_part_fields p s) as (_ & _ & -> & _). by rewrite Hrm.
Qed.

Lemma del_entry_idem x (es : list (string * node)) :
  del_entry x (del_entry x es) = del_entry x es.
Proof.
  induction es as [| [y m] es IH]; simpl; [done|].
  destruct (String.eqb x y) eqn:Hxy; simpl; [done|].
  by rewrite Hxy, IH.
Qed.

Lemma set_entry_idem x n (es : list (string * node)) :
  set_entry x n (set_entry x n es) = set_entry x n es.
Proof.
  induction es as [| [y m] es IH]; simpl.
  - by rewrite String.eqb_refl.
  - destruct (String.eqb x y) eqn:Hxy; simpl; rewrite Hxy; [done|].
    by rewrite IH.
Qed.

Lemma rmSync_idem q (n n' : node) : rmSync q n = Ok n' -> rmSync q n' = Ok n'.
Proof.
  revert n n'. induction q as [| x q IH]; intros n n' Hrm.
  - by destruct n.
  - destruct n as [c | es]; [done|]. destruct q as [| y q].
    + simpl in Hrm. injection Hrm as <-. simpl. by rewrite del_entry_idem.
    + rewrite rmSync_deep in Hrm.
      destruct (entry x es) as [m |] eqn:Hm.
      * destruct (rmSync (y :: q) m) as [m' | e] eqn:Hrm'; [|done].
        simpl in Hrm. injection Hrm as <-.
        rewrite rmSync_deep.
        rewrite entry_set_eq, (IH _ _ Hrm'). simpl.
        by rewrite set_entry_idem.
      * injection Hrm as <-.
        rewrite rmSync_deep.
        by rewrite Hm.
Qed.

Lemma mark_killed_idem (pr : process) :
  mark_killed (mark_killed pr) = mark_killed pr.
Proof. unfold mark_killed. destruct pr as [c a d r cl k wr i]. by destruct r. Qed.

Lemma kill_part_idem p s : kill_part p (kill_part p s) = kill_part p s.
Proof.
  unfold kill_part. destruct p as [pid |]; [|done].
  destruct (procs s !! pid) as [pr |] eqn:Hpr; [|by rewrite Hpr].
  destruct (killed pr) eqn:Hk; simpl; [by rewrite Hpr, Hk|].
  unfold kill. simpl. rewrite list_lookup_alter_eq, Hpr. simpl.
  destruct (killed (mark_killed pr)) eqn:Hk'; simpl; [done|].
  unfold set_procs. simpl. f_equal.
  rewrite list_alter_alter_eq. apply list_alter_ext; [|done].
  intros x _. apply mark_killed_idem.
Qed.

Lemma kill_part_set_fs p s f :
  kill_part p (set_fs f s) = set_fs f (kill_part p s).
Proof.
  unfold kill_part. destruct p as [pid |]; [|done]. simpl.
  destruct (procs s !! pid) as [pr |]; [|done].
  by destruct (negb (killed pr)).
Qed.

(** [cleanupProcess] is idempotent. *)
Lemma cleanupProcess_idem p w s :
  cleanupProcess p w (cleanupProcess p w s) = cleanupProcess p w s.
Proof.
  rewrite !cleanupProcess_unfold. destruct w as [d |]; [|apply kill_part_idem].
  destruct (rmSync d (fs (kill_part p s))) as [fs' | e] eqn:Hrm.
  - rewrite kill_part_set_fs, kill_part_idem. simpl.
    by rewrite (rmSync_idem _ _ _ Hrm).
  - rewrite kill_part_idem. by rewrite Hrm.
Qed.

(** [release]: the process is killed, the workspace removed, and both
    variables are [null]. *)
Lemma release_fields s :
  proc (release s) = None /\ workdir (release s) = None /\
  jobs (release s) = jobs s /\ sent (release s) = sent s /\
  tmp_seq (release s) = tmp_seq s /\
  length (procs (release s)) = length (procs s).
Proof.
  unfold release. simpl.
  destruct (cleanupProcess_fields (proc s) (workdir s) s)
    as (_ & _ & H3 & H4 & H5 & H6).
  destruct (kill_part_fields (proc s) s) as (_ & _ & _ & _ & _ & _ & H7).
  split_and!; try done. by rewrite H6.
Qed.

Lemma release_removes s d :
  workdir s = Some d -> d <> [] -> stat d (fs (release s)) = None.
Proof.
  intros Hw Hd. unfold release. simpl. rewrite Hw.
  by apply cleanupProcess_removes.
Qed.

Lemma release_kills s pid pr :
  proc s = Some pid -> procs (release s) !! pid = Some pr -> alive pr = false.
Proof.
  intros Hp. unfold release. simpl. rewrite Hp. apply cleanupProcess_kills.
Qed.

Lemma release_idle s :
  proc s = None -> workdir s = None -> release s = s.
Proof.
  intros Hp Hw. unfold release. rewrite Hp, Hw.
  destruct s; simpl in *. by subst.
Qed.

End Cleanup.

(* ===================================================================== *)
(** * The [node] branch                                                   *)
(* ===================================================================== *)

Lemma useEsm_spec (p : Path.t) (fs : Fs.node) :
  Server.useEsm p fs = true <->
  exists c, Fs.readFileSync p fs = Fs.Ok c /\ Regex.test Pat.esmRegex c = true.
Proof.
  unfold Server.useEsm. destruct (Fs.readFileSync p fs) as [c | e].
  - split; [eauto|]. by intros (c' & [= <-] & H).
  - split; [done|]. by intros (c' & [=] & _).
Qed.

Lemma write_esm_package_spec (w : list string) (s : Server.state) :
  (stat w (Server.fs s) = Some IsDir ->
   stat (w ++ ["package.json"]) (Server.fs s) <> Some IsDir ->
   stat (w ++ ["package.json"]) (Server.fs (Server.write_esm_package w s))
   = Some (IsFile Server.esm_package)) /\
  (stat (w ++ ["package.json"]) (Server.fs s) = Some IsDir ->
   Server.write_esm_package w s = s).
Proof.
  unfold Server.write_esm_package. rewrite join_package_json.
  unfold Fs.writeFileSync. simpl. split.
  - intros Hw Hp.
    destruct (write_at_child w "package.json" Server.esm_package
                (Server.fs s) Hw Hp) as [n' Hn'].
    destruct (Fs.write_at _ _ _) as [fs' | e] eqn:Hwr; [|done].
    simpl. unfold stat. by rewrite (write_at_get _ _ _ _ Hwr).
  - intros Hp.
    destruct (write_at_dir _ Server.esm_package _ Hp) as [e ->]. done.
Qed.

(** C10, as the code has it.  For a [run] with language [node], once the
    workspace is made and the entry file found: when the entry file can be
    read and its content matches the import/export pattern, the file
    [package.json] with content [{"type":"module"}] is written into the
    workspace before [node] is spawned, unless a directory of that name is
    in the way, in which case the failed write is ignored; when the
    content does not match, or cannot be read, nothing is written.  In all
    cases [node] is spawned on the entry file. *)
Theorem node_esm_package (m : Server.run_msg) (w : list string)
    (entryFile : string) (s : Server.state) :
  Server.language m = "node" ->
  let esm := Server.useEsm (Path.join w entryFile) (Server.fs s) in
  let s' := Server.launch m w entryFile s in
  (esm = true <->
   exists c, Fs.readFileSync (Path.join w entryFile) (Server.fs s) = Fs.Ok c /\
             Regex.test Pat.esmRegex c = true) /\
  s' = Server.spawn "node" [entryFile] (Some w)
         (if esm then Server.write_esm_package w s else s) /\
  (esm = true -> stat w (Server.fs s) = Some IsDir ->
   stat (w ++ ["package.json"]) (Server.fs s) <> Some IsDir ->
   stat (w ++ ["package.json"]) (Server.fs s')
   = Some (IsFile Server.esm_package)) /\
  (esm = true ->
   stat (w ++ ["package.json"]) (Server.fs s) = Some IsDir ->
   Server.fs s' = Server.fs s) /\
  (esm = false -> Server.fs s' = Server.fs s).
Proof.
  intros Hl esm s'. subst s'. unfold Server.launch. rewrite Hl.
  change (String.eqb "node" "python") with false.
  change (String.eqb "node" "node") with true. cbv iota. fold esm.
  destruct (write_esm_package_spec w s) as [Hok Hdir].
  split_and!.
  - apply useEsm_spec.
  - done.
  - intros -> Hw Hp. by apply Hok.
  - intros -> Hp. by rewrite Hdir.
  - by intros ->.
Qed.

Lemma node_esm_package_witness :
  Server.useEsm (Path.join ["tmp"; "ws"] "m.js")
    (Fs.Dir [("tmp", Fs.Dir [("ws", Fs.Dir [("m.js", Fs.File "export default 1")])])])
  = true /\
  stat ["tmp"; "ws"; "package.json"]
    (Server.fs (Server.launch (Server.RunMsg "node" [] "m.js") ["tmp"; "ws"] "m.js"
       (Server.State None (Some ["tmp"; "ws"])
          (Fs.Dir [("tmp", Fs.Dir [("ws", Fs.Dir [("m.js", Fs.File "export default 1")])])])
          [] [] [] 1)))
  = Some (IsFile Server.esm_package).
Proof.
  split; [reflexivity|].
  apply (node_esm_package (Server.RunMsg "node" [] "m.js") ["tmp"; "ws"] "m.js"
           (Server.State None (Some ["tmp"; "ws"])
              (Fs.Dir [("tmp", Fs.Dir [("ws", Fs.Dir [("m.js", Fs.File "export default 1")])])])
              [] [] [] 1)); [reflexivity.. | discriminate].
Defined.

(** C10 fails as stated: the entry file is an ES module, and no
    [package.json] file is written, because the run submitted a directory
    of that name; [node] is spawned all the same and nothing is sent. *)
Lemma esm_package_not_written :
  let s := Server.exec Server.init
             [Server.Message (Server.Parsed (Server.Run Sample.run_node_esm_dir))] in
  Server.useEsm (Path.join ["tmp"; "code-sync-0"] "m.js") (Server.fs s) = true /\
  stat ["tmp"; "code-sync-0"; "package.json"] (Server.fs s) = Some IsDir /\
  Server.p_cmd <$> Server.procs s !! 0 = Some "node" /\
  Server.sent s = [].
Proof. vm_compute. split_and!; reflexivity. Qed.

(** The usual cases: an ES module gets its [package.json], a CommonJS
    script does not. *)
Example esm_examples :
  stat ["tmp"; "code-sync-0"; "package.json"]
    (Server.fs (Server.exec Server.init
       [Server.Message (Server.Parsed (Server.Run Sample.run_node_esm))]))
  = Some (IsFile Server.esm_package) /\
  stat ["tmp"; "code-sync-0"; "package.json"]
    (Server.fs (Server.exec Server.init
       [Server.Message (Server.Parsed (Server.Run Sample.run_node_cjs))]))
  = None.
Proof. vm_compute. split; reflexivity. Qed.

(* ===================================================================== *)
(** * A failed compilation                                                *)
(* ===================================================================== *)

(** C4, as the code has it.  When the compiler of a waiting [run] ends with
    a status other than 0, exactly one [error] message is sent: its data is
    the stderr of the compiler when that is not empty, and the fixed text
    of the language otherwise.  No process is spawned, the process and the
    workspace of the session are cleaned up, both variables are cleared,
    and a later report for the same compiler does nothing. *)
Theorem compile_failure_reported (s : Server.state) (id : nat)
    (j : Server.job) (res : Resolver.cmd_result) :
  Server.jobs s !! id = Some j -> Server.waiting j = true ->
  Server.compile_failed res = true ->
  let s' := Server.step s (Server.CompileDone id res) in
  Server.sent s'
  = Server.sent s
    ++ [Server.Out "error"
          (Server.JStr (if Js.truthy (Resolver.stderr res) then Resolver.stderr res
                        else Server.default_diagnostic (Server.j_cont j)))] /\
  length (Server.procs s') = length (Server.procs s) /\
  Server.proc s' = None /\ Server.workdir s' = None /\
  (forall d, Server.workdir s = Some d -> d <> [] ->
     stat d (Server.fs s') = None) /\
  (forall pid pr, Server.proc s = Some pid ->
     Server.procs s' !! pid = Some pr -> Server.alive pr = false) /\
  (forall res', Server.step s' (Server.CompileDone id res') = s').
Proof.
  intros Hj Hw Hf s'. subst s'. simpl. rewrite Hj, Hw.
  unfold Server.resume. rewrite Hf. unfold Server.fail.
  set (s0 := Server.send_error _ _).
  assert (Hs0 : Server.proc s0 = Server.proc s /\
                Server.workdir s0 = Server.workdir s /\
                Server.procs s0 = Server.procs s /\
                Server.jobs s0 = alter Server.finish_job id (Server.jobs s) /\
                Server.sent s0
                = Server.sent s
                  ++ [Server.Out "error"
                        (Server.JStr (Js.or_else (Resolver.stderr res)
                           (Server.default_diagnostic (Server.j_cont j))))]).
  { done. }
  destruct Hs0 as (Hp0 & Hw0 & Hps0 & Hj0 & Hse0).
  destruct (release_fields s0) as (Hp & Hwd & Hjs & Hs & _ & Hl).
  pose proof (release_kills s0) as Hk.
  pose proof (release_removes s0) as Hr.
  split_and!.
  - by rewrite Hs, Hse0.
  - by rewrite Hl, Hps0.
  - done.
  - done.
  - intros d Hd. apply Hr. by rewrite Hw0.
  - intros pid pr Hpid. apply Hk. by rewrite Hp0.
  - intros res'. rewrite Hjs, Hj0, list_lookup_alter_eq, Hj. done.
Qed.

Lemma compile_failure_reported_witness :
  Server.sent (Server.step Sample.compiling_java
                 (Server.CompileDone 0 Sample.compiled_syntax_error))
  = [Server.Out "error" (Server.JStr "Main.java:1: error: ';' expected")].
Proof.
  apply (compile_failure_reported Sample.compiling_java 0
           (Server.Job "javac" ["Main.java"] ["tmp"; "code-sync-0"]
              (Server.KJava (Server.files Sample.run_java) "Main.java") true)
           Sample.compiled_syntax_error); reflexivity.
Defined.

(** C4 fails as stated: a compiler that ends without having written to
    stderr is reported with a text that is not its stderr. *)
Lemma compile_failure_not_verbatim :
  Server.compile_failed Sample.compiled_silent_failure = true /\
  Resolver.stderr Sample.compiled_silent_failure = "" /\
  Server.sent (Server.step Sample.compiling_java
                 (Server.CompileDone 0 Sample.compiled_silent_failure))
  = [Server.Out "error" (Server.JStr "Java compilation failed")].
Proof. vm_compute. split_and!; reflexivity. Qed.

(* ===================================================================== *)
(** * Resolution that confirms no class                                   *)
(* ===================================================================== *)

(** The two-phase resolver: when neither the probe nor the scan of the
    sources confirms a candidate, the result is [null], and the handler
    sends the fixed message and spawns nothing; a class that is returned
    is a candidate confirmed by one of the two. *)
Lemma two_phase_has_no_default (javap : string -> Resolver.cmd_result)
    (fs : Fs.node) (w : list string) (entryFile : string)
    (javaFiles cands : list string) :
  Resolver.orderedCandidates fs w entryFile javaFiles = Some (Fs.Ok cands) ->
  let likely :=
    Resolver.sourceLikelyMains fs w (Resolver.orderedFiles entryFile javaFiles) in
  let result := Resolver.findJavaMainClass javap fs w entryFile javaFiles in
  ((forall c, c ∈ cands ->
      Resolver.classHasMainWithJavap (javap c) <> Some true) ->
   (forall c, c ∈ likely -> c ∉ cands) ->
   result = Some (Fs.Ok None) /\
   Resolver.run_resolved w None
   = [Resolver.Send "error" Resolver.mainNotFound; Resolver.CleanupProcess]) /\
  (forall c, result = Some (Fs.Ok (Some c)) ->
     c ∈ cands /\
     (Resolver.classHasMainWithJavap (javap c) = Some true \/ c ∈ likely)).
Proof.
  intros Hc likely result. unfold result, Resolver.findJavaMainClass.
  rewrite Hc. fold likely. split.
  - intros Hprobe Hlikely.
    pose proof (probe_not_accepted javap cands Hprobe) as Hna.
    apply fallback_None in Hlikely. rewrite Hlikely.
    split; [|done]. destruct (Resolver.probe javap cands); [|done..].
    by destruct (Hna fqcn).
  - intros c. destruct (Resolver.probe javap cands) eqn:Hp.
    + intros [= ->]. apply probe_accepted_inv in Hp as [H1 H2]. auto.
    + intros [= Hf]. apply fallback_Some in Hf as [H1 H2]. auto.
    + intros [= Hf]. apply fallback_Some in Hf as [H1 H2]. auto.
Qed.

(** C5 on [server/index.js].  A Java program without any [main] method is
    compiled; [findJavaMainClass] returns the name made from the entry file
    ([Util], a class that does not even exist), no [error] message is sent
    and [java] is spawned on that name.  The two-phase resolver gives
    [null] on the same sources, whatever [javap] reports short of a
    runnable [main]. *)
Theorem index_js_falls_back_to_default_class :
  let s0 := Server.exec Server.init
              [Server.Message (Server.Parsed (Server.Run Sample.run_java_no_main))] in
  let s := Server.step s0 (Server.CompileDone 0 Sample.compiled_ok) in
  Regex.test Pat.hasMainRegex "class Helper { }" = false /\
  Server.findJavaMainClass (Server.fs s0) (Server.files Sample.run_java_no_main)
    ["tmp"; "code-sync-0"] "Util.java" = "Util" /\
  Server.sent s = [] /\
  (Server.p_cmd <$> Server.procs s !! 0) = Some "java" /\
  (Server.p_args <$> Server.procs s !! 0)
  = Some ["-cp"; "/tmp/code-sync-0"; "Util"] /\
  Resolver.findJavaMainClass Sample.javap_no_main (Server.fs s0)
    ["tmp"; "code-sync-0"] "Util.java" ["Util.java"]
  = Some (Fs.Ok None) /\
  Resolver.findJavaMainClass Sample.javap_missing (Server.fs s0)
    ["tmp"; "code-sync-0"] "Util.java" ["Util.java"]
  = Some (Fs.Ok None).
Proof. vm_compute. split_and!; reflexivity. Qed.

(* ===================================================================== *)
(** * One process per session                                             *)
(* ===================================================================== *)

(** C1 on [server/index.js].  A [run] of a Java program is suspended on
    [javac]; a [run] of a Python program arrives and starts its process;
    [javac] then ends with status 0 and the first handler, resumed, spawns
    [java] and overwrites [proc].  Both processes are alive, and the
    Python process is not the one [proc] names: no later [terminate],
    [run] or [close] kills it. *)
Theorem two_processes_alive_after_interleaved_runs :
  let s := Server.exec Server.init
             [Server.Message (Server.Parsed (Server.Run Sample.run_java));
              Server.Message (Server.Parsed (Server.Run Sample.run_python));
              Server.CompileDone 0 Sample.compiled_ok] in
  Server.alive_pids s = [0; 1] /\
  Server.proc s = Some 1 /\
  (Server.p_cmd <$> Server.procs s !! 0) = Some "python3" /\
  (Server.p_cmd <$> Server.procs s !! 1) = Some "java" /\
  Server.alive_pids
    (Server.exec s [Server.Message (Server.Parsed Server.Terminate);
                    Server.Close]) = [0].
Proof. vm_compute. split_and!; reflexivity. Qed.

Section OneProcess.
Import Server.

Implicit Types (s : state) (ps : list process).

Lemma none_alive_one_alive s : none_alive (procs s) -> one_alive s.
Proof. intros Hn pid pr Hpr Ha. by rewrite (Hn pid pr Hpr) in Ha. Qed.

Lemma none_alive_spawn cmd args cwd s :
  none_alive (procs s) -> one_alive (spawn cmd args cwd s).
Proof.
  intros Hn pid pr. unfold spawn. simpl. intros Hpr Ha.
  apply lookup_app_Some in Hpr as [Hpr | [Hlen Hpr]].
  - by rewrite (Hn pid pr Hpr) in Ha.
  - apply list_lookup_singleton_Some in Hpr as [Hpid _].
    f_equal. lia.
Qed.

Lemma none_alive_alter_killed ps pid :
  none_alive ps -> none_alive (alter mark_killed pid ps).
Proof.
  intros Hn pid' pr. destruct (decide (pid = pid')) as [<- | Hne].
  - rewrite list_lookup_alter_eq. destruct (ps !! pid) as [pr0 |] eqn:Hpr0; [|done].
    simpl. intros [= <-]. pose proof (Hn pid pr0 Hpr0) as Ha.
    destruct (mark_killed_not_alive pr0) as [H | [_ H]]; [done | by rewrite H].
  - rewrite list_lookup_alter_ne by done. apply Hn.
Qed.

(** After [release] no process is alive, if at most the one that [proc]
    names was. *)
Lemma one_alive_release s : one_alive s -> none_alive (procs (release s)).
Proof.
  intros Hone pid pr. unfold release. simpl.
  destruct (cleanupProcess_fields (proc s) (workdir s) s) as (_ & _ & _ & _ & _ & Hps).
  intros Hpr. destruct (alive pr) eqn:Ha; [|done]. exfalso.
  destruct (proc s) as [p0 |] eqn:Hp0.
  - destruct (decide (p0 = pid)) as [-> | Hne].
    + by rewrite (cleanupProcess_kills pid (workdir s) s pr Hpr) in Ha.
    + rewrite Hps in Hpr. unfold kill_part in Hpr.
      assert (procs s !! pid = Some pr) as Hpr0.
      { destruct (procs s !! p0) as [pr0 |]; [|done].
        destruct (negb (killed pr0)); [|done].
        unfold kill in Hpr. simpl in Hpr.
        by rewrite list_lookup_alter_ne in Hpr. }
      specialize (Hone pid pr Hpr0 Ha). congruence.
  - rewrite Hps in Hpr. simpl in Hpr. specialize (Hone pid pr Hpr Ha).
    congruence.
Qed.

Lemma none_alive_fail data s :
  one_alive s -> none_alive (procs (fail data s)).
Proof. intros Hone. unfold fail. by apply one_alive_release. Qed.

Create HintDb alive discriminated.
#[local] Hint Resolve none_alive_one_alive none_alive_spawn none_alive_fail
  one_alive_release : alive.

Lemma mkdtempSync_fields s :
  procs (mkdtempSync s).2 = procs s /\ proc (mkdtempSync s).2 = proc s /\
  workdir (mkdtempSync s).2 = workdir s /\ jobs (mkdtempSync s).2 = jobs s /\
  sent (mkdtempSync s).2 = sent s /\
  (mkdtempSync s).1 = Fs.bind (Fs.mkdir_new (tmp_name (tmp_seq s)) (fs s))
                        (fun _ => Fs.Ok (tmp_name (tmp_seq s))).
Proof.
  unfold mkdtempSync.
  change (fs (set_tmp_seq (S (tmp_seq s)) s)) with (fs s).
  destruct (Fs.mkdir_new (tmp_name (tmp_seq s)) (fs s)); done.
Qed.

Lemma launch_one_alive m w entryFile s :
  none_alive (procs s) -> one_alive (launch m w entryFile s).
Proof.
  intros Hn. unfold launch.
  repeat (destruct (String.eqb (language m) _)); auto with alive.
  apply none_alive_spawn.
  destruct (useEsm _ _); [|done]. unfold write_esm_package.
  by destruct (Fs.writeFileSync _ _ _).
Qed.

Lemma run_body_one_alive m s :
  none_alive (procs s) -> one_alive (run_body m s).
Proof.
  intros Hn. unfold run_body.
  destruct (mkdtempSync_fields s) as (Hps & _).
  destruct (mkdtempSync s) as [[w | e] s1]; simpl in Hps.
  - assert (Hn' : forall fs3,
              none_alive (procs (set_fs fs3 (set_workdir (Some w) s1))))
      by (intros fs3; simpl; by rewrite Hps).
    destruct (materialize w (files m) _) as [fs3 [e |]];
      [unfold run_catch; auto with alive|].
    destruct (entry_file m) as [entryFile |];
      [|unfold run_catch; auto with alive].
    destruct (negb (Fs.existsSync _ _)); [auto with alive|].
    by apply launch_one_alive.
  - assert (Hn' : none_alive (procs s1)) by (by rewrite Hps).
    unfold run_catch. auto with alive.
Qed.

Lemma resume_one_alive k res s :
  one_alive s -> (compile_failed res = false -> proc s = None) ->
  one_alive (resume k res s).
Proof.
  intros Hone Hidle. unfold resume.
  destruct (compile_failed res); [by apply none_alive_one_alive, none_alive_fail|].
  specialize (Hidle eq_refl).
  assert (none_alive (procs s)) as Hn.
  { intros pid pr Hpr. destruct (alive pr) eqn:Ha; [|done].
    specialize (Hone pid pr Hpr Ha). congruence. }
  destruct k as [fl ef | |]; destruct (workdir s);
    try (by apply none_alive_spawn);
    try (by apply none_alive_one_alive, none_alive_fail).
  destruct (names_with _ _);
    [by apply none_alive_spawn | by apply none_alive_one_alive, none_alive_fail].
Qed.

Lemma one_alive_alter (f : process -> process) pid s :
  (forall pr, alive (f pr) = true -> alive pr = true) ->
  one_alive s -> one_alive (set_procs (alter f pid (procs s)) s).
Proof.
  intros Hf Hone pid' pr. simpl. destruct (decide (pid = pid')) as [<- | Hne].
  - rewrite list_lookup_alter_eq.
    destruct (procs s !! pid) as [pr0 |] eqn:Hpr0; [|done]. simpl.
    intros [= <-] Ha. apply (Hone pid pr0 Hpr0). by apply Hf.
  - rewrite list_lookup_alter_ne by done. apply Hone.
Qed.

(** At most one process is alive after every step, except when a handler
    resumed after a successful compilation finds that [proc] has been set
    in the meantime. *)
Lemma step_keeps_one_alive s e :
  one_alive s ->
  (resumes_to_spawn s e -> proc s = None) ->
  one_alive (step s e).
Proof.
  intros Hone Hres. destruct e as [raw | id res | pid d | pid d | pid c | pid m | pid |].
  - destruct raw as [| [m | d | |]]; simpl.
    + done.
    + apply run_body_one_alive. by apply one_alive_release.
    + unfold handle_input. destruct (proc s) as [pid |] eqn:Hp; [|done].
      destruct (procs s !! pid) as [pr |]; [|done].
      destruct (writable pr); [|done].
      apply one_alive_alter; [|done]. by intros [].
    + apply none_alive_one_alive. by apply one_alive_release.
    + done.
  - simpl. destruct (jobs s !! id) as [j |] eqn:Hj; [|done].
    destruct (waiting j) eqn:Hw; [|done].
    apply resume_one_alive; [done|].
    intros Hok. apply Hres. simpl. eauto.
  - simpl. destruct (procs s !! pid) as [pr |]; [|done].
    by destruct (closed pr).
  - simpl. destruct (procs s !! pid) as [pr |]; [|done].
    by destruct (closed pr).
  - simpl. destruct (procs s !! pid) as [pr |]; [|done].
    destruct (closed pr); [done|].
    apply none_alive_one_alive. unfold on_close. apply one_alive_release.
    apply (one_alive_alter mark_closed pid s); [by intros []|done].
  - simpl. destruct (procs s !! pid) as [pr |]; [|done].
    destruct (closed pr); [done|].
    apply none_alive_one_alive. unfold on_error. apply none_alive_fail.
    apply (one_alive_alter mark_failed pid s); [by intros []|done].
  - simpl. apply one_alive_alter; [by intros []|done].
  - simpl. apply none_alive_one_alive. by apply one_alive_release.
Qed.

End OneProcess.

(* ===================================================================== *)
(** * [terminate] and [input]                                             *)
(* ===================================================================== *)

(** What [terminate] does in every state.  It kills the process that
    [proc] names (no process is alive afterwards when at most that one
    was), removes the directory that [workdir] names, clears both
    variables and sends exactly one [exit] message whose data is
    ['terminated'], which no exit code of a process can be; on an idle
    session that message is all that happens. *)
Theorem terminate_sends_terminated (s : Server.state) :
  let s' := Server.step s (Server.Message (Server.Parsed Server.Terminate)) in
  Server.sent s' = Server.sent s ++ [Server.Out "exit" (Server.JStr "terminated")] /\
  Server.proc s' = None /\ Server.workdir s' = None /\
  (forall pid pr, Server.proc s = Some pid ->
     Server.procs s' !! pid = Some pr -> Server.alive pr = false) /\
  (one_alive s -> none_alive (Server.procs s')) /\
  (forall d, Server.workdir s = Some d -> d <> [] ->
     stat d (Server.fs s') = None) /\
  length (Server.procs s') = length (Server.procs s) /\
  Server.jobs s' = Server.jobs s /\
  (forall code, Server.exit_data code <> Server.JStr "terminated") /\
  (Server.proc s = None -> Server.workdir s = None ->
   s' = Server.send (Server.Out "exit" (Server.JStr "terminated")) s).
Proof.
  intros s'. subst s'.
  change (Server.step s _)
    with (Server.send (Server.Out "exit" (Server.JStr "terminated"))
            (Server.release s)).
  destruct (release_fields s) as (Hp & Hw & Hj & Hs & _ & Hl).
  pose proof (release_kills s) as Hk.
  pose proof (one_alive_release s) as Hn.
  pose proof (release_removes s) as Hr.
  pose proof (release_idle s) as Hi.
  remember (Server.release s) as r eqn:Er. clear Er.
  split_and!; cbn [Server.send Server.sent Server.proc Server.workdir
                   Server.procs Server.fs Server.jobs].
  - by rewrite Hs.
  - done.
  - done.
  - done.
  - done.
  - done.
  - done.
  - done.
  - by intros [z |].
  - intros Hp0 Hw0. by rewrite Hi.
Qed.

(** C8 on [server/index.js].  [terminate] kills the process that [proc]
    names, not every active process.  After a [run] of a Java program, a
    [run] of a Python program handled while [javac] works, and the end of
    [javac] with status 0, the session has two live processes and [proc]
    names the second ([java]).  The [terminate] message then sends the
    one [exit] message with ['terminated'] and clears [proc] and
    [workdir], and [python3] is still alive; no message of the protocol
    reaches it any more. *)
Theorem terminate_leaves_orphan_alive :
  let s := Server.exec Server.init
             [Server.Message (Server.Parsed (Server.Run Sample.run_java));
              Server.Message (Server.Parsed (Server.Run Sample.run_python));
              Server.CompileDone 0 Sample.compiled_ok] in
  let s' := Server.step s (Server.Message (Server.Parsed Server.Terminate)) in
  Server.alive_pids s = [0; 1] /\ Server.proc s = Some 1 /\
  ~ one_alive s /\
  Server.sent s' = Server.sent s ++ [Server.Out "exit" (Server.JStr "terminated")] /\
  Server.proc s' = None /\ Server.workdir s' = None /\
  Server.alive_pids s' = [0] /\
  (Server.p_cmd <$> Server.procs s' !! 0) = Some "python3" /\
  (Server.alive <$> Server.procs s' !! 0) = Some true /\
  Server.alive_pids
    (Server.exec s' [Server.Message (Server.Parsed Server.Terminate);
                     Server.Message (Server.Parsed (Server.Input (Some "x")));
                     Server.Close]) = [0].
Proof.
  cbv zeta. split_and!; try (vm_compute; reflexivity).
  intros Hone.
  specialize (Hone 0 (Server.Process "python3" ["-u"; "a.py"]
                        (Some ["tmp"; "code-sync-1"]) true false false true [])).
  by specialize (Hone eq_refl eq_refl).
Qed.

(** The cases of [if (proc && proc.stdin.writable)]. *)
Ltac input_cases := repeat case_match; done.

(** C9.  An [input] message writes the data followed by a newline to the
    stdin of the process of the session when there is one and its stdin is
    writable; otherwise it changes nothing.  In both cases nothing is sent
    and [proc], [workdir] and the file system stay as they are. *)
Theorem input_written_or_dropped (s : Server.state) (data : option string) :
  let s' := Server.step s (Server.Message (Server.Parsed (Server.Input data))) in
  (forall pid pr,
     Server.proc s = Some pid -> Server.procs s !! pid = Some pr ->
     Server.writable pr = true ->
     Server.procs s' !! pid
     = Some (Server.write_stdin (default "" data +:+ String "010" "") pr) /\
     Server.stdin (Server.write_stdin (default "" data +:+ String "010" "") pr)
     = Server.stdin pr ++ [default "" data +:+ String "010" ""] /\
     forall pid', pid' <> pid -> Server.procs s' !! pid' = Server.procs s !! pid') /\
  (Server.proc s = None -> s' = s) /\
  (forall pid pr,
     Server.proc s = Some pid -> Server.procs s !! pid = Some pr ->
     Server.writable pr = false -> s' = s) /\
  Server.sent s' = Server.sent s /\ Server.proc s' = Server.proc s /\
  Server.workdir s' = Server.workdir s /\ Server.fs s' = Server.fs s /\
  Server.jobs s' = Server.jobs s.
Proof.
  simpl. unfold Server.handle_input.
  split_and!; [ | | | input_cases ..].
  - intros pid pr -> Hpr Hw. rewrite Hpr, Hw. simpl. split_and!.
    + by rewrite list_lookup_alter_eq, Hpr.
    + done.
    + intros pid' Hne. by rewrite list_lookup_alter_ne.
  - by intros ->.
  - intros pid pr -> Hpr Hw. by rewrite Hpr, Hw.
Qed.

(** A line typed into a running Python program, and the same line on an
    idle session. *)
Example input_examples :
  Server.stdin <$>
    Server.procs (Server.step Sample.running_python
                    (Server.Message (Server.Parsed (Server.Input (Some "42")))))
    !! 0
  = Some ["42" +:+ String "010" ""] /\
  Server.step Server.init
    (Server.Message (Server.Parsed (Server.Input (Some "42"))))
  = Server.init.
Proof. split; reflexivity. Qed.


(** Without a compiler in the way, at most one process of the session is
    alive at every point of its history. *)
Lemma one_alive_without_compiler (evs : list Server.event) :
  (forall e, e ∈ evs -> forall id res, e <> Server.CompileDone id res) ->
  one_alive (Server.exec Server.init evs).
Proof.
  unfold Server.exec.
  assert (Hinit : one_alive Server.init) by (by intros pid pr Hpr).
  revert Hinit. generalize Server.init as s.
  induction evs as [| e evs IH]; intros s Hs Hno; [done|].
  simpl. apply IH.
  - apply step_keeps_one_alive; [done|].
    destruct e; try done. simpl. intros _.
    by destruct (Hno (Server.CompileDone id res) ltac:(left) id res).
  - intros e' He'. apply Hno. by right.
Qed.

(* ===================================================================== *)
(** * No workspace is left behind                                         *)
(* ===================================================================== *)

Section NoLeak.
Import Server.

Implicit Types (s : state).

(** Every event that ends a run ends in [release]. *)
Lemma ends_run_release s e :
  ends_run s e ->
  exists s0 o,
    workdir s0 = workdir s /\ proc s0 = proc s /\ fs s0 = fs s /\
    (step s e = release s0 \/ step s e = send o (release s0)).
Proof.
  destruct e as [raw | id res | pid d | pid d | pid c | pid m | pid |];
    simpl; try done.
  - destruct raw as [| [m | d | |]]; try done. intros _.
    exists s, (Out "exit" terminated). split_and!; [done..|]. by right.
  - intros (j & -> & -> & Hf). unfold resume. rewrite Hf.
    eexists _, (Out "" JNull). split_and!; [| | | left; reflexivity]; done.
  - intros (pr & -> & ->).
    eexists _, (Out "" JNull). split_and!; [| | | left; reflexivity]; done.
  - intros (pr & -> & ->).
    eexists _, (Out "" JNull). split_and!; [| | | left; reflexivity]; done.
  - intros _. exists s, (Out "" JNull). split_and!; [done..|]. by left.
Qed.

Lemma ends_run_removes s e d :
  ends_run s e -> workdir s = Some d -> d <> [] ->
  stat d (fs (step s e)) = None /\ workdir (step s e) = None /\
  proc (step s e) = None.
Proof.
  intros He Hw Hd.
  destruct (ends_run_release s e He) as (s0 & o & Hw0 & _ & _ & Hstep).
  destruct (release_fields s0) as (Hp & Hwd & _).
  assert (stat d (fs (release s0)) = None) as Hgone.
  { apply release_removes; [by rewrite Hw0 | done]. }
  destruct Hstep as [-> | ->]; done.
Qed.

(** What a [run] handler leaves when it returns or is suspended, for the
    workspace [w] that it made: a process started in [w], a compiler
    awaited in [w], or one [error] message and no [w]. *)
Lemma launch_outcome m w entryFile s :
  workdir s = Some w ->
  let s' := launch m w entryFile s in
  (workdir s' = Some w /\
   (proc s' = Some (length (procs s)) \/
    exists j, jobs s' = jobs s ++ [j] /\ j_cwd j = w /\ waiting j = true)) \/
  (workdir s' = None /\ proc s' = None /\ jobs s' = jobs s /\
   length (procs s') = length (procs s) /\
   (w <> [] -> stat w (fs s') = None) /\
   exists msg, sent s' = sent s ++ [Out "error" (JStr msg)]).
Proof.
  intros Hw s'. subst s'. unfold launch.
  repeat (destruct (String.eqb (language m) _));
    try (left; split; [done|]; left; done);
    try (left; split; [done|]; right; eexists; split_and!; reflexivity).
  - left. split.
    + simpl. destruct (useEsm _ _); [|done]. unfold write_esm_package.
      by destruct (Fs.writeFileSync _ _ _).
    + left. simpl. destruct (useEsm _ _); [|done]. unfold write_esm_package.
      by destruct (Fs.writeFileSync _ _ _).
  - right. unfold fail.
    set (s0 := send_error _ s).
    destruct (release_fields s0) as (Hp & Hwd & Hj & Hs & _ & Hl).
    split_and!.
    + exact Hwd.
    + exact Hp.
    + exact Hj.
    + exact Hl.
    + intros Hne. by apply release_removes.
    + eexists. exact Hs.
Qed.

Lemma run_body_outcome m s w s1 :
  mkdtempSync s = (Fs.Ok w, s1) ->
  let s' := run_body m s in
  (workdir s' = Some w /\
   (proc s' = Some (length (procs s)) \/
    exists j, jobs s' = jobs s ++ [j] /\ j_cwd j = w /\ waiting j = true)) \/
  (workdir s' = None /\ proc s' = None /\ jobs s' = jobs s /\
   length (procs s') = length (procs s) /\
   stat w (fs s') = None /\
   exists msg, sent s' = sent s ++ [Out "error" (JStr msg)]).
Proof.
  intros Hmk s'. subst s'. unfold run_body. rewrite Hmk.
  destruct (mkdtempSync_fields s) as (Hps & Hp & Hwd & Hj & Hs & Hr).
  rewrite Hmk in Hps, Hp, Hwd, Hj, Hs, Hr.
  cbn [fst snd] in Hps, Hp, Hwd, Hj, Hs, Hr.
  assert (Hw : w <> []).
  { destruct (Fs.mkdir_new _ _); [|done]. unfold Fs.bind in Hr.
    by injection Hr as ->. }
  assert (Hfail : forall data fs3,
    let s' := fail data (set_fs fs3 (set_workdir (Some w) s1)) in
    workdir s' = None /\ proc s' = None /\ jobs s' = jobs s /\
    length (procs s') = length (procs s) /\ stat w (fs s') = None /\
    exists msg, sent s' = sent s ++ [Out "error" (JStr msg)]).
  { intros data fs3 s'. subst s'. unfold fail.
    set (s0 := send_error _ _).
    destruct (release_fields s0) as (Hp' & Hwd' & Hj' & Hs' & _ & Hl').
    split_and!.
    - exact Hwd'.
    - exact Hp'.
    - rewrite Hj'. exact Hj.
    - rewrite Hl'. exact (f_equal length Hps).
    - by apply release_removes.
    - exists data. rewrite Hs'.
      change (sent s0) with (sent s1 ++ [Out "error" (JStr data)]).
      by rewrite Hs. }
  destruct (materialize w (files m) _) as [fs3 [e |]].
  - right. apply Hfail.
  - destruct (entry_file m) as [entryFile |]; [|right; apply Hfail].
    destruct (negb (Fs.existsSync _ _)); [right; apply Hfail|].
    set (s3 := set_fs fs3 (set_workdir (Some w) s1)).
    destruct (launch_outcome m w entryFile s3 eq_refl)
      as [[H1 H2] | (H1 & H2 & H3 & H4 & H5 & H6)].
    + left. split; [done|]. simpl in H2. by rewrite Hps, Hj in H2.
    + right. simpl in H3, H4, H6. rewrite Hj in H3. rewrite Hps in H4.
      rewrite Hs in H6. split_and!; [done.. | by apply H5 | done].
Qed.

Lemma run_body_no_workspace m s e s1 :
  mkdtempSync s = (Fs.Throw e, s1) ->
  let s' := run_body m s in
  workdir s' = None /\ proc s' = None /\
  sent s' = sent s ++ [Out "error" (JStr ("Runtime error: " +:+ e))].
Proof.
  intros Hmk s'. subst s'. unfold run_body. rewrite Hmk.
  destruct (mkdtempSync_fields s) as (_ & _ & _ & _ & Hs & _).
  rewrite Hmk in Hs. cbn [fst snd] in Hs. unfold run_catch, fail.
  set (s0 := send_error _ _).
  destruct (release_fields s0) as (Hp' & Hwd' & _ & Hs' & _).
  split_and!; [done..|]. rewrite Hs'. simpl. by rewrite Hs.
Qed.

(** A handler resumed after a successful compilation starts a process, or
    ends in the cleanup. *)
Lemma resume_outcome k res s :
  let s' := resume k res s in
  (proc s' = Some (length (procs s)) /\ workdir s' = workdir s /\
   fs s' = fs s) \/
  (workdir s' = None /\ proc s' = None /\
   length (procs s') = length (procs s) /\
   (forall d, workdir s = Some d -> d <> [] -> stat d (fs s') = None) /\
   exists msg, sent s' = sent s ++ [Out "error" (JStr msg)]).
Proof.
  intros s'. subst s'. unfold resume.
  assert (Hfail : forall data,
    let s' := fail data s in
    workdir s' = None /\ proc s' = None /\
    length (procs s') = length (procs s) /\
    (forall d, workdir s = Some d -> d <> [] -> stat d (fs s') = None) /\
    exists msg, sent s' = sent s ++ [Out "error" (JStr msg)]).
  { intros data s'. subst s'. unfold fail. set (s0 := send_error _ _).
    destruct (release_fields s0) as (Hp' & Hwd' & _ & Hs' & _ & Hl').
    split_and!.
    - exact Hwd'.
    - exact Hp'.
    - exact Hl'.
    - intros d Hd Hne. by apply release_removes.
    - exists data. exact Hs'. }
  destruct (compile_failed res); [right; apply Hfail|].
  destruct k as [fl ef | |]; destruct (workdir s) as [w |] eqn:Hwd;
    try (by left); try (right; apply Hfail).
  destruct (names_with _ _); [by left | right; apply Hfail].
Qed.

(** The value of [workdir] is always a directory made by [mkdtempSync]. *)
Lemma fail_workdir data s : workdir (fail data s) = None.
Proof.
  unfold fail. by destruct (release_fields (send_error data s)) as (_ & -> & _).
Qed.

Lemma step_workdir s e :
  (forall w, workdir s = Some w -> exists n, w = tmp_name n) ->
  forall w, workdir (step s e) = Some w -> exists n, w = tmp_name n.
Proof.
  intros Hs w.
  assert (Hrel : forall s0, workdir (release s0) = Some w -> exists n, w = tmp_name n).
  { intros s0. by destruct (release_fields s0) as (_ & -> & _). }
  assert (Hfail : forall data s0,
            workdir (fail data s0) = Some w -> exists n, w = tmp_name n).
  { intros data s0. by rewrite fail_workdir. }
  destruct e as [raw | id res | pid d | pid d | pid c | pid m | pid |]; simpl.
  - destruct raw as [| [m | d | |]]; simpl; try apply Hs.
    + unfold handle_run. set (r := release s). intros Hw.
      destruct (mkdtempSync r) as [[w0 | e] s1] eqn:Hmk.
      * destruct (run_body_outcome m r w0 s1 Hmk) as [[H1 _] | [H1 _]].
        -- rewrite H1 in Hw. injection Hw as <-.
           destruct (mkdtempSync_fields r) as (_ & _ & _ & _ & _ & Hr).
           rewrite Hmk in Hr. cbn [fst] in Hr.
           destruct (Fs.mkdir_new _ _); [|done]. unfold Fs.bind in Hr.
           injection Hr as ->. by eexists.
        -- by rewrite H1 in Hw.
      * destruct (run_body_no_workspace m r e s1 Hmk) as [H1 _].
        by rewrite H1 in Hw.
    + unfold handle_input. destruct (proc s) as [pid |]; [|apply Hs].
      destruct (procs s !! pid) as [pr |]; [|apply Hs].
      destruct (writable pr); apply Hs.
    + apply (Hrel s).
  - destruct (jobs s !! id) as [j |]; [|apply Hs].
    destruct (waiting j); [|apply Hs].
    set (s0 := set_jobs _ s).
    destruct (resume_outcome (j_cont j) res s0) as [(_ & H2 & _) | (H1 & _)].
    + rewrite H2. apply Hs.
    + by rewrite H1.
  - destruct (procs s !! pid) as [pr |]; [|apply Hs].
    destruct (closed pr); apply Hs.
  - destruct (procs s !! pid) as [pr |]; [|apply Hs].
    destruct (closed pr); apply Hs.
  - destruct (procs s !! pid) as [pr |]; [|apply Hs].
    destruct (closed pr); [apply Hs | unfold on_close; apply Hrel].
  - destruct (procs s !! pid) as [pr |]; [|apply Hs].
    destruct (closed pr); [apply Hs | unfold on_error; apply Hfail].
  - apply Hs.
  - apply (Hrel s).
Qed.

Lemma workdir_is_temporary (evs : list event) (w : list string) :
  workdir (exec init evs) = Some w -> exists n, w = tmp_name n.
Proof.
  unfold exec.
  assert (Hinit : forall w, workdir init = Some w -> exists n, w = tmp_name n)
    by done.
  revert w Hinit. generalize init as s.
  induction evs as [| e evs IH]; intros s w Hs; [apply Hs|].
  simpl. apply IH. by apply step_workdir.
Qed.

End NoLeak.

(* ===================================================================== *)
(** * Workspaces over a whole session                                     *)
(* ===================================================================== *)

Section Tidy.
Import Server.

Implicit Types (s : state) (ds : list (list string)).

Lemma tidy_extend wd fs ds :
  tidy wd fs ds -> tidy wd fs (ds ++ option_list wd).
Proof.
  intros [H1 H2]. split; [done|]. intros d Hd.
  apply elem_of_app in Hd as [Hd | Hd]; [by apply H2|].
  destruct wd as [w |]; simpl in Hd; [|by apply elem_of_nil in Hd].
  apply list_elem_of_singleton in Hd as ->. split; [by apply H1 | done].
Qed.

Lemma tidy_none fs ds :
  (forall d, d ∈ ds -> length d = 2 /\ stat d fs = None) -> tidy None fs ds.
Proof.
  intros H. split; [done|]. intros d Hd. destruct (H d Hd) as [Hl Hn].
  split; [done|]. rewrite Hn. by intros [? ?].
Qed.

(** After [release] none of the directories exists. *)
Lemma tidy_release s ds d :
  tidy (workdir s) (fs s) ds -> d ∈ ds ->
  length d = 2 /\ stat d (fs (release s)) = None.
Proof.
  intros [H1 H2] Hd. destruct (H2 d Hd) as [Hl Hex]. split; [done|].
  unfold release. simpl. rewrite cleanupProcess_unfold.
  destruct (kill_part_fields (proc s) s) as (_ & _ & Hfs & _).
  destruct (stat d (fs (match workdir s with
                        | Some d0 =>
                            match Fs.rmSync d0 (fs (kill_part (proc s) s)) with
                            | Fs.Ok fs' => set_fs fs' (kill_part (proc s) s)
                            | Fs.Throw _ => kill_part (proc s) s
                            end
                        | None => kill_part (proc s) s
                        end))) as [k |] eqn:Hst; [|done].
  exfalso.
  destruct (workdir s) as [w |] eqn:Hw.
  - assert (is_Some (stat d (fs s))) as Hs.
    { destruct (Fs.rmSync w (fs (kill_part (proc s) s))) as [fs' | e] eqn:Hrm.
      - simpl in Hst. rewrite Hfs in Hrm.
        apply (rmSync_stat _ _ _ _ Hrm). by rewrite Hst.
      - rewrite Hfs in Hst. by rewrite Hst. }
    specialize (Hex Hs). injection Hex as ->.
    pose proof (cleanupProcess_removes (proc s) d s) as Hgone.
    rewrite cleanupProcess_unfold in Hgone.
    rewrite Hgone in Hst; [done|]. by destruct d.
  - rewrite Hfs in Hst. assert (is_Some (stat d (fs s))) as Hs by (by rewrite Hst).
    by specialize (Hex Hs).
Qed.

Lemma tidy_fail data s ds :
  tidy (workdir s) (fs s) ds ->
  tidy (workdir (fail data s)) (fs (fail data s)) ds.
Proof.
  intros Ht. unfold fail.
  destruct (release_fields (send_error data s)) as (_ & -> & _).
  apply tidy_none. intros d Hd.
  by apply (tidy_release (send_error data s) ds d).
Qed.

Lemma prefix_same_length (a b : list string) :
  length a = length b -> a `prefix_of` b -> a = b.
Proof.
  intros Hl [k ->]. rewrite length_app in Hl.
  destruct k; [by rewrite app_nil_r | simpl in Hl; lia].
Qed.

Lemma tidy_launch m w entryFile s ds :
  workdir s = Some w ->
  tidy (Some w) (fs s) ds ->
  let s' := launch m w entryFile s in
  tidy (workdir s') (fs s') ds.
Proof.
  intros Hw Ht s'. subst s'. unfold launch.
  repeat (destruct (String.eqb (language m) _));
    try (simpl; by rewrite Hw).
  - destruct (useEsm _ _); [|simpl; by rewrite Hw].
    unfold write_esm_package. rewrite join_package_json.
    unfold Fs.writeFileSync. cbn [Path.slash Path.segs].
    destruct (Fs.write_at _ _ _) as [fs' | e] eqn:Hwr; [|simpl; by rewrite Hw].
    simpl. rewrite Hw.
    destruct Ht as [H1 H2]. split; [done|]. intros d Hd.
    destruct (H2 d Hd) as [Hl Hex]. split; [done|].
    rewrite (write_at_stat _ _ _ _ d Hwr); [done|].
    intros ->. specialize (H1 w eq_refl). rewrite length_app in Hl.
    simpl in Hl. lia.
  - apply tidy_fail. by rewrite Hw.
Qed.

(** The [try] block of a [run] on a session that [release] has cleared. *)
Lemma tidy_run_body m s ds :
  workdir s = None ->
  (forall d, d ∈ ds -> length d = 2 /\ stat d (fs s) = None) ->
  (forall f n, f ∈ files m -> name f = Some n -> no_dotdot n = true) ->
  let s' := run_body m s in
  tidy (workdir s') (fs s') (ds ++ option_list (workdir s')).
Proof.
  intros Hwd Hclean Hsafe s'. subst s'. apply tidy_extend.
  unfold run_body, mkdtempSync.
  change (fs (set_tmp_seq (S (tmp_seq s)) s)) with (fs s).
  set (w := tmp_name (tmp_seq s)).
  destruct (Fs.mkdir_new w (fs s)) as [fs1 | e] eqn:Hmk.
  - set (s2 := set_workdir (Some w) _).
    assert (Hfs2 : fs s2 = fs1) by done.
    assert (Hw2 : workdir s2 = Some w) by done.
    assert (Ht2 : forall fs', stat w fs' = Some IsDir ->
              (forall d, d ∈ ds -> d <> w -> stat d fs' = None) ->
              tidy (Some w) fs' ds).
    { intros fs' Hdir Hothers. split; [by intros ? [= <-]|].
      intros d Hd. destruct (Hclean d Hd) as [Hl _]. split; [done|].
      intros Hex. destruct (decide (d = w)) as [-> | Hne]; [done|].
      rewrite (Hothers d Hd Hne) in Hex. by destruct Hex. }
    assert (Hdir1 : stat w fs1 = Some IsDir).
    { by destruct (mkdir_new_stat _ _ _ w Hmk) as (_ & _ & ?). }
    assert (Hothers1 : forall d, d ∈ ds -> d <> w -> stat d fs1 = None).
    { intros d Hd Hne. destruct (Hclean d Hd) as [_ Hn].
      destruct (mkdir_new_stat _ _ _ d Hmk) as (Hcr & _ & _).
      destruct (stat d fs1) eqn:Hst; [|done].
      destruct (Hcr Hne ltac:(done)) as [k' Hk]. by rewrite Hn in Hk. }
    assert (Hmat : forall q, (~ w `prefix_of` q \/ q = w) ->
              stat q (materialize w (files m) (fs s2)).1 = stat q fs1).
    { intros q Hq. rewrite Hfs2. apply materialize_inside; [done | | done].
      intros f n Hf Hn. apply join_inside. by apply (Hsafe f). }
    destruct (materialize w (files m) (fs s2)) as [fs3 err] eqn:Hm.
    simpl in Hmat.
    assert (Ht3 : tidy (Some w) fs3 ds).
    { apply Ht2.
      - rewrite Hmat; [done | by right].
      - intros d Hd Hne. rewrite Hmat; [by apply Hothers1|].
        left. intros Hpre. apply Hne. symmetry.
        apply prefix_same_length; [|done].
        destruct (Hclean d Hd) as [Hl _]. by rewrite Hl. }
    destruct err as [e |].
    + by apply tidy_fail.
    + destruct (entry_file m) as [entryFile |]; [|by apply tidy_fail].
      destruct (negb (Fs.existsSync _ _)); [by apply tidy_fail|].
      by apply tidy_launch.
  - unfold run_catch. apply tidy_fail. simpl. rewrite Hwd.
    apply tidy_none. intros d Hd. by apply Hclean.
Qed.

Lemma tidy_resume k res s ds :
  tidy (workdir s) (fs s) ds ->
  tidy (workdir (resume k res s)) (fs (resume k res s)) ds.
Proof.
  intros Ht. unfold resume.
  destruct (compile_failed res); [by apply tidy_fail|].
  destruct k as [fl ef | |]; destruct (workdir s) as [w |] eqn:Hw;
    try (by apply tidy_fail; rewrite Hw);
    try (simpl; by rewrite Hw).
  destruct (names_with _ _); [simpl; by rewrite Hw|].
  unfold run_catch. apply tidy_fail. by rewrite Hw.
Qed.

Lemma tidy_step s e ds :
  tidy (workdir s) (fs s) ds -> safe_event e ->
  tidy (workdir (step s e)) (fs (step s e))
       (ds ++ option_list (workdir (step s e))).
Proof.
  intros Ht Hsafe.
  assert (Hrel : forall s0 : state, workdir s0 = workdir s -> fs s0 = fs s ->
            tidy (workdir (release s0)) (fs (release s0)) ds).
  { intros s0 Hw0 Hf0. destruct (release_fields s0) as (_ & -> & _).
    apply tidy_none. intros d Hd. apply (tidy_release s0 ds d); [|done].
    by rewrite Hw0, Hf0. }
  destruct e as [raw | id res | pid d | pid d | pid c | pid m | pid |].
  - destruct raw as [| [m | d | |]].
    + by apply tidy_extend.
    + change (step s _) with (run_body m (release s)).
      apply tidy_run_body.
      * by destruct (release_fields s) as (_ & -> & _).
      * intros d Hd. by apply (tidy_release s ds d).
      * apply Hsafe.
    + apply tidy_extend. simpl. unfold handle_input.
      destruct (proc s) as [pid |]; [|done].
      destruct (procs s !! pid) as [pr |]; [|done].
      by destruct (writable pr).
    + apply tidy_extend. simpl. unfold handle_terminate. by apply Hrel.
    + by apply tidy_extend.
  - apply tidy_extend. simpl.
    destruct (jobs s !! id) as [j |]; [|done].
    destruct (waiting j); [|done]. by apply tidy_resume.
  - apply tidy_extend. simpl. destruct (procs s !! pid) as [pr |]; [|done].
    by destruct (closed pr).
  - apply tidy_extend. simpl. destruct (procs s !! pid) as [pr |]; [|done].
    by destruct (closed pr).
  - apply tidy_extend. simpl. destruct (procs s !! pid) as [pr |]; [|done].
    destruct (closed pr); [done|]. unfold on_close. by apply Hrel.
  - apply tidy_extend. simpl. destruct (procs s !! pid) as [pr |]; [|done].
    destruct (closed pr); [done|]. unfold on_error. by apply tidy_fail.
  - by apply tidy_extend.
  - apply tidy_extend. by apply Hrel.
Qed.

Lemma tidy_exec s evs ds :
  tidy (workdir s) (fs s) ds ->
  (forall e, e ∈ evs -> safe_event e) ->
  tidy (workdir (exec s evs)) (fs (exec s evs)) (ds ++ workspaces s evs).
Proof.
  revert s ds. induction evs as [| e evs IH]; intros s ds Ht Hsafe.
  - simpl. by rewrite app_nil_r.
  - simpl. rewrite app_assoc. apply IH.
    + apply tidy_step; [done|]. apply Hsafe. left.
    + intros e' He'. apply Hsafe. by right.
Qed.

(** When no submitted file name has a [..] segment, a workspace directory
    of the session exists only while [workdir] names it. *)
Lemma no_workspace_outlives_its_run (evs : list event) (d : list string) :
  (forall e, e ∈ evs -> safe_event e) ->
  d ∈ workspaces init evs ->
  is_Some (stat d (fs (exec init evs))) ->
  workdir (exec init evs) = Some d.
Proof.
  intros Hsafe Hd.
  assert (tidy (workdir init) (fs init) []) as Ht0.
  { split; [done|]. intros ? H. by apply elem_of_nil in H. }
  destruct (tidy_exec init evs [] Ht0 Hsafe) as [_ H].
  by destruct (H d Hd).
Qed.

End Tidy.

(** The error branches of a [run] on a fresh session: each sends one
    [error] message and leaves [/tmp] empty. *)
Example run_error_examples :
  let run m := Server.exec Server.init
                 [Server.Message (Server.Parsed (Server.Run m))] in
  (Server.sent (run Sample.run_unknown), Server.fs (run Sample.run_unknown),
   Server.workdir (run Sample.run_unknown))
  = ([Server.Out "error" (Server.JStr "Language not supported: cobol")],
     Server.fs Server.init, None) /\
  (Server.sent (run Sample.run_empty), Server.fs (run Sample.run_empty),
   Server.workdir (run Sample.run_empty))
  = ([Server.Out "error" (Server.JStr "Entry file not found: main.py")],
     Server.fs Server.init, None) /\
  (Server.sent (run Sample.run_clash), Server.fs (run Sample.run_clash),
   Server.workdir (run Sample.run_clash))
  = ([Server.Out "error" (Server.JStr "Runtime error: EEXIST")],
     Server.fs Server.init, None).
Proof. vm_compute. repeat split. Qed.

(* ===================================================================== *)
(** * The cleanup when the removal can fail                               *)
(* ===================================================================== *)

Section Swallowed.
Import Fs Server.

Variable rm : list string -> node -> node * option string.

Implicit Types (s : state) (p : option nat) (w : option (list string)).

Lemma failing_cleanup_fields p w s :
  proc (Failing.cleanupProcess rm p w s) = proc s /\
  workdir (Failing.cleanupProcess rm p w s) = workdir s /\
  jobs (Failing.cleanupProcess rm p w s) = jobs s /\
  sent (Failing.cleanupProcess rm p w s) = sent s /\
  length (procs (Failing.cleanupProcess rm p w s)) = length (procs s) /\
  fs (Failing.cleanupProcess rm p w s)
  = match w with Some d => (rm d (fs s)).1 | None => fs s end.
Proof.
  unfold Failing.cleanupProcess.
  destruct (kill_part_fields p s) as (H1 & H2 & H3 & H4 & H5 & H6 & H7).
  destruct w as [d |]; simpl; rewrite ?H3; done.
Qed.

Lemma failing_release_fields s :
  proc (Failing.release rm s) = None /\
  workdir (Failing.release rm s) = None /\
  jobs (Failing.release rm s) = jobs s /\
  sent (Failing.release rm s) = sent s /\
  length (procs (Failing.release rm s)) = length (procs s) /\
  fs (Failing.release rm s)
  = match workdir s with Some d => (rm d (fs s)).1 | None => fs s end.
Proof.
  unfold Failing.release. simpl.
  destruct (failing_cleanup_fields (proc s) (workdir s) s)
    as (_ & _ & H3 & H4 & H5 & H6).
  done.
Qed.

Lemma failing_cleanup_idem p w s :
  Failing.repeatable rm ->
  Failing.cleanupProcess rm p w (Failing.cleanupProcess rm p w s)
  = Failing.cleanupProcess rm p w s.
Proof.
  intros Hrep. unfold Failing.cleanupProcess. cbv zeta.
  destruct w as [d |]; [|apply kill_part_idem].
  rewrite kill_part_set_fs, kill_part_idem.
  change (fs (set_fs ?f ?x)) with f. rewrite Hrep.
  by destruct (kill_part p s).
Qed.

(** Every event that ends a run ends in the cleanup. *)
Lemma failing_ends_run_release s e :
  ends_run s e ->
  exists s0 o,
    workdir s0 = workdir s /\ proc s0 = proc s /\ fs s0 = fs s /\
    (Failing.step rm s e = Failing.release rm s0 \/
     Failing.step rm s e = send o (Failing.release rm s0)).
Proof.
  destruct e as [raw | id res | pid d | pid d | pid c | pid m | pid |];
    simpl; try done.
  - destruct raw as [| [m | d | |]]; try done. intros _.
    exists s, (Out "exit" terminated). split_and!; [done..|]. by right.
  - intros (j & -> & -> & Hf). unfold Failing.resume. rewrite Hf.
    eexists _, (Out "" JNull). split_and!; [| | | left; reflexivity]; done.
  - intros (pr & -> & ->).
    eexists _, (Out "" JNull). split_and!; [| | | left; reflexivity]; done.
  - intros (pr & -> & ->).
    eexists _, (Out "" JNull). split_and!; [| | | left; reflexivity]; done.
  - intros _. exists s, (Out "" JNull). split_and!; [done..|]. by left.
Qed.

Lemma failing_ends_run s e d :
  ends_run s e -> workdir s = Some d ->
  fs (Failing.step rm s e) = (rm d (fs s)).1 /\
  workdir (Failing.step rm s e) = None /\
  proc (Failing.step rm s e) = None.
Proof.
  intros He Hw.
  destruct (failing_ends_run_release s e He) as (s0 & o & Hw0 & _ & Hfs & Hstep).
  destruct (failing_release_fields s0) as (Hp & Hwd & _ & _ & _ & Hf).
  rewrite Hw0, Hw, Hfs in Hf.
  destruct Hstep as [-> | ->]; done.
Qed.

Lemma failing_fail_outcome data s :
  let s' := Failing.fail rm data s in
  workdir s' = None /\ proc s' = None /\ jobs s' = jobs s /\
  length (procs s') = length (procs s) /\
  sent s' = sent s ++ [Out "error" (JStr data)] /\
  fs s' = match workdir s with Some d => (rm d (fs s)).1 | None => fs s end.
Proof.
  intros s'. subst s'. unfold Failing.fail.
  destruct (failing_release_fields (send_error data s))
    as (Hp & Hwd & Hj & Hs & Hl & Hf).
  done.
Qed.

(** What a [run] handler leaves for the workspace [w] that it made: a
    process started in [w], a compiler awaited in [w], or one [error]
    message after the cleanup of [w]. *)
Lemma failing_launch_outcome m wk entryFile s :
  workdir s = Some wk ->
  let s' := Failing.launch rm m wk entryFile s in
  (workdir s' = Some wk /\
   (proc s' = Some (length (procs s)) \/
    exists j, jobs s' = jobs s ++ [j] /\ j_cwd j = wk /\ waiting j = true)) \/
  (workdir s' = None /\ proc s' = None /\
   fs s' = (rm wk (fs s)).1 /\
   exists msg, sent s' = sent s ++ [Out "error" (JStr msg)]).
Proof.
  intros Hw s'. subst s'. unfold Failing.launch.
  repeat (destruct (String.eqb (language m) _));
    try (left; split; [done|]; left; done);
    try (left; split; [done|]; right; eexists; split_and!; reflexivity).
  - left. split.
    + simpl. destruct (useEsm _ _); [|done]. unfold write_esm_package.
      by destruct (Fs.writeFileSync _ _ _).
    + left. simpl. destruct (useEsm _ _); [|done]. unfold write_esm_package.
      by destruct (Fs.writeFileSync _ _ _).
  - right.
    destruct (failing_fail_outcome ("Language not supported: " +:+ language m) s)
      as (H1 & H2 & _ & _ & H5 & H6).
    rewrite Hw in H6. split_and!; [done.. |]. by eexists.
Qed.

Lemma failing_run_body_outcome m s wk s1 :
  mkdtempSync s = (Fs.Ok wk, s1) ->
  let s' := Failing.run_body rm m s in
  (workdir s' = Some wk /\
   (proc s' = Some (length (procs s)) \/
    exists j, jobs s' = jobs s ++ [j] /\ j_cwd j = wk /\ waiting j = true)) \/
  (workdir s' = None /\ proc s' = None /\
   (exists fs0, fs s' = (rm wk fs0).1) /\
   exists msg, sent s' = sent s ++ [Out "error" (JStr msg)]).
Proof.
  intros Hmk s'. subst s'. unfold Failing.run_body. rewrite Hmk.
  destruct (mkdtempSync_fields s) as (Hps & Hp & Hwd & Hj & Hs & Hr).
  rewrite Hmk in Hps, Hp, Hwd, Hj, Hs, Hr.
  cbn [fst snd] in Hps, Hp, Hwd, Hj, Hs, Hr.
  assert (Hfail : forall data fs3,
    let s' := Failing.fail rm data (set_fs fs3 (set_workdir (Some wk) s1)) in
    workdir s' = None /\ proc s' = None /\
    (exists fs0, fs s' = (rm wk fs0).1) /\
    exists msg, sent s' = sent s ++ [Out "error" (JStr msg)]).
  { intros data fs3 s'. subst s'.
    destruct (failing_fail_outcome data (set_fs fs3 (set_workdir (Some wk) s1)))
      as (H1 & H2 & _ & _ & H5 & H6).
    split_and!; [done | done | by eexists |].
    exists data. rewrite H5. simpl. by rewrite Hs. }
  destruct (materialize wk (files m) _) as [fs3 [e |]].
  - right. apply Hfail.
  - destruct (entry_file m) as [entryFile |]; [|right; apply Hfail].
    destruct (negb (Fs.existsSync _ _)); [right; apply Hfail|].
    set (s3 := set_fs fs3 (set_workdir (Some wk) s1)).
    destruct (failing_launch_outcome m wk entryFile s3 eq_refl)
      as [[H1 H2] | (H1 & H2 & H3 & H4)].
    + left. split; [done|]. simpl in H2. by rewrite Hps, Hj in H2.
    + right. simpl in H4. rewrite Hs in H4.
      split_and!; [done | done | by eexists | done].
Qed.

Lemma failing_run_body_no_workspace m s e s1 :
  mkdtempSync s = (Fs.Throw e, s1) ->
  let s' := Failing.run_body rm m s in
  workdir s' = None /\ proc s' = None /\
  sent s' = sent s ++ [Out "error" (JStr ("Runtime error: " +:+ e))].
Proof.
  intros Hmk s'. subst s'. unfold Failing.run_body. rewrite Hmk.
  destruct (mkdtempSync_fields s) as (_ & _ & _ & _ & Hs & _).
  rewrite Hmk in Hs. cbn [fst snd] in Hs. unfold Failing.run_catch.
  destruct (failing_fail_outcome ("Runtime error: " +:+ e) s1)
    as (H1 & H2 & _ & _ & H5 & _).
  split_and!; [done..|]. by rewrite H5, Hs.
Qed.

(** A handler resumed after the compiler starts a process, or ends in the
    cleanup. *)
Lemma failing_resume_outcome k res s :
  let s' := Failing.resume rm k res s in
  (proc s' = Some (length (procs s)) /\ workdir s' = workdir s /\
   fs s' = fs s) \/
  (workdir s' = None /\ proc s' = None /\
   (forall d, workdir s = Some d -> fs s' = (rm d (fs s)).1) /\
   exists msg, sent s' = sent s ++ [Out "error" (JStr msg)]).
Proof.
  intros s'. subst s'. unfold Failing.resume.
  assert (Hfail : forall data,
    let s' := Failing.fail rm data s in
    workdir s' = None /\ proc s' = None /\
    (forall d, workdir s = Some d -> fs s' = (rm d (fs s)).1) /\
    exists msg, sent s' = sent s ++ [Out "error" (JStr msg)]).
  { intros data s'. subst s'.
    destruct (failing_fail_outcome data s) as (H1 & H2 & _ & _ & H5 & H6).
    split_and!; [done | done | | by eexists].
    intros d Hd. by rewrite Hd in H6. }
  destruct (compile_failed res); [right; apply Hfail|].
  destruct k as [fl ef | |]; destruct (workdir s) as [wk |] eqn:Hwd;
    try (by left); try (right; apply Hfail).
  destruct (names_with _ _); [by left | right; apply Hfail].
Qed.

End Swallowed.

(** With the removal of [Fs] the handler is the one of [Server]. *)
Section Agreement.
Import Fs Server.

Implicit Types (s : state).

Lemma failing_rmSync_repeatable : Failing.repeatable Failing.rmSync.
Proof.
  intros d n. unfold Failing.rmSync.
  destruct (Fs.rmSync d n) as [n' | e] eqn:Hrm; simpl.
  - by rewrite (rmSync_idem _ _ _ Hrm).
  - by rewrite Hrm.
Qed.

Lemma agree_cleanupProcess p w s :
  Failing.cleanupProcess Failing.rmSync p w s = cleanupProcess p w s.
Proof.
  rewrite cleanupProcess_unfold. unfold Failing.cleanupProcess, Failing.rmSync.
  cbv zeta. destruct w as [d |]; [|done].
  destruct (Fs.rmSync d (fs (kill_part p s))); simpl; [done|].
  by destruct (kill_part p s).
Qed.

Lemma agree_release s : Failing.release Failing.rmSync s = release s.
Proof. unfold Failing.release, release. by rewrite agree_cleanupProcess. Qed.

Lemma agree_fail data s : Failing.fail Failing.rmSync data s = fail data s.
Proof. apply agree_release. Qed.

Lemma agree_launch m wk entryFile s :
  Failing.launch Failing.rmSync m wk entryFile s = launch m wk entryFile s.
Proof.
  unfold Failing.launch, launch.
  repeat (destruct (String.eqb (language m) _)); try done. apply agree_fail.
Qed.

Lemma agree_run_body m s : Failing.run_body Failing.rmSync m s = run_body m s.
Proof.
  unfold Failing.run_body, run_body, Failing.run_catch, run_catch.
  destruct (mkdtempSync s) as [[wk | e] s1]; [|apply agree_fail].
  destruct (materialize wk (files m) _) as [fs3 [e |]]; [apply agree_fail|].
  destruct (entry_file m) as [entryFile |]; [|apply agree_fail].
  destruct (negb (Fs.existsSync _ _)); [apply agree_fail | apply agree_launch].
Qed.

Lemma agree_resume k res s :
  Failing.resume Failing.rmSync k res s = resume k res s.
Proof.
  unfold Failing.resume, resume, Failing.run_catch, run_catch.
  destruct (compile_failed res); [apply agree_fail|].
  destruct k as [fl ef | |]; destruct (workdir s) as [wk |];
    try done; try apply agree_fail.
  destruct (names_with _ _); [done | apply agree_fail].
Qed.

Lemma agree_step s e : Failing.step Failing.rmSync s e = step s e.
Proof.
  destruct e as [raw | id res | pid d | pid d | pid c | pid m | pid |];
    simpl; try done.
  - destruct raw as [| [m | d | |]]; simpl; try done.
    + unfold Failing.handle_run, handle_run.
      by rewrite agree_release, agree_run_body.
    + unfold Failing.handle_terminate, handle_terminate.
      by rewrite agree_release.
  - destruct (jobs s !! id) as [j |]; [|done].
    destruct (waiting j); [apply agree_resume | done].
  - destruct (procs s !! pid) as [pr |]; [|done].
    destruct (closed pr); [done | apply agree_release].
  - destruct (procs s !! pid) as [pr |]; [|done].
    destruct (closed pr); [done | apply agree_fail].
  - apply agree_release.
Qed.

Lemma agree_exec s evs : Failing.exec Failing.rmSync s evs = exec s evs.
Proof.
  revert s. induction evs as [| e evs IH]; intros s; [done|].
  simpl. by rewrite agree_step, IH.
Qed.

End Agreement.

(** C2.  Every exit path of a run calls the one cleanup routine on the
    process and the workspace of the session and clears both variables,
    and the routine never fails; the directory is removed only when the
    removal succeeds.  For every removal [rm] (the file system it leaves,
    and its exception if any): [cleanupProcess] drops the exception, sends
    nothing and leaves the file system that the removal left; it is
    idempotent when the removal is repeatable, as the removal of [Fs] is.
    Every event that ends a run ([terminate], the end of the connection,
    the exit or the failure of the process, the failure of the compiler)
    leaves the file system that the removal of the workspace left and
    clears [workdir] and [proc].  A [run] message starts with the same
    cleanup; a [run] handler that made a workspace [w] either goes on with
    a process or a compiler in [w], or sends one [error] message after
    the cleanup of [w] (missing entry file, unsupported language,
    exception), and when no workspace could be made it sends one [error]
    message; a handler resumed after the compiler starts a process or
    ends in the cleanup.  With the removal of [Fs] the handler is the one
    of [Server]; a removal of [Fs] that returns leaves no directory, and
    then, when no file name has a [..] segment, a workspace directory
    exists only while [workdir] names it. *)
Theorem cleanup_called_on_every_exit :
  (forall rm p d s,
     Server.fs (Failing.cleanupProcess rm p (Some d) s) = (rm d (Server.fs s)).1 /\
     Server.sent (Failing.cleanupProcess rm p (Some d) s) = Server.sent s /\
     Server.workdir (Failing.cleanupProcess rm p (Some d) s) = Server.workdir s) /\
  (forall rm p w s,
     Failing.repeatable rm ->
     Failing.cleanupProcess rm p w (Failing.cleanupProcess rm p w s)
     = Failing.cleanupProcess rm p w s) /\
  Failing.repeatable Failing.rmSync /\
  (forall rm s e d,
     ends_run s e -> Server.workdir s = Some d ->
     Server.fs (Failing.step rm s e) = (rm d (Server.fs s)).1 /\
     Server.workdir (Failing.step rm s e) = None /\
     Server.proc (Failing.step rm s e) = None) /\
  (forall rm s m,
     Failing.step rm s (Server.Message (Server.Parsed (Server.Run m)))
     = Failing.run_body rm m (Failing.release rm s) /\
     Server.workdir (Failing.release rm s) = None /\
     Server.proc (Failing.release rm s) = None /\
     forall d, Server.workdir s = Some d ->
       Server.fs (Failing.release rm s) = (rm d (Server.fs s)).1) /\
  (forall rm s m w s1,
     Server.mkdtempSync (Failing.release rm s) = (Fs.Ok w, s1) ->
     let s' := Failing.step rm s (Server.Message (Server.Parsed (Server.Run m))) in
     (Server.workdir s' = Some w /\
      (Server.proc s' = Some (length (Server.procs s)) \/
       exists j, Server.jobs s' = Server.jobs s ++ [j] /\
                 Server.j_cwd j = w /\ Server.waiting j = true)) \/
     (Server.workdir s' = None /\ Server.proc s' = None /\
      (exists fs0, Server.fs s' = (rm w fs0).1) /\
      exists msg, Server.sent s'
                  = Server.sent s ++ [Server.Out "error" (Server.JStr msg)])) /\
  (forall rm s m e s1,
     Server.mkdtempSync (Failing.release rm s) = (Fs.Throw e, s1) ->
     let s' := Failing.step rm s (Server.Message (Server.Parsed (Server.Run m))) in
     Server.workdir s' = None /\ Server.proc s' = None /\
     Server.sent s'
     = Server.sent s
       ++ [Server.Out "error" (Server.JStr ("Runtime error: " +:+ e))]) /\
  (forall rm s id j res,
     Server.jobs s !! id = Some j -> Server.waiting j = true ->
     let s' := Failing.step rm s (Server.CompileDone id res) in
     (Server.proc s' = Some (length (Server.procs s)) /\
      Server.workdir s' = Server.workdir s /\ Server.fs s' = Server.fs s) \/
     (Server.workdir s' = None /\ Server.proc s' = None /\
      forall d, Server.workdir s = Some d ->
        Server.fs s' = (rm d (Server.fs s)).1)) /\
  (forall s evs, Failing.exec Failing.rmSync s evs = Server.exec s evs) /\
  (forall d fs,
     d <> [] -> (Failing.rmSync d fs).2 = None ->
     stat d (Failing.rmSync d fs).1 = None) /\
  (forall evs d,
     (forall e, e ∈ evs -> safe_event e) ->
     d ∈ workspaces Server.init evs ->
     is_Some (stat d (Server.fs (Failing.exec Failing.rmSync Server.init evs))) ->
     Server.workdir (Failing.exec Failing.rmSync Server.init evs) = Some d).
Proof.
  split_and!.
  - intros rm p d s.
    destruct (failing_cleanup_fields rm p (Some d) s)
      as (_ & H2 & _ & H4 & _ & H6).
    done.
  - intros rm p w s Hrep. by apply failing_cleanup_idem.
  - apply failing_rmSync_repeatable.
  - intros rm. apply failing_ends_run.
  - intros rm s m. split; [done|].
    destruct (failing_release_fields rm s) as (Hp & Hwd & _ & _ & _ & Hf).
    split_and!; [done | done |]. intros d Hd. by rewrite Hd in Hf.
  - intros rm s m w s1 Hmk s'. subst s'.
    change (Failing.step rm s _)
      with (Failing.run_body rm m (Failing.release rm s)).
    destruct (failing_release_fields rm s) as (_ & _ & Hj & Hs & Hl & _).
    destruct (failing_run_body_outcome rm m (Failing.release rm s) w s1 Hmk)
      as [[H1 H2] | (H1 & H2 & H3 & H4)].
    + left. split; [done|]. by rewrite Hl, Hj in H2.
    + right. rewrite Hs in H4. done.
  - intros rm s m e s1 Hmk s'. subst s'.
    change (Failing.step rm s _)
      with (Failing.run_body rm m (Failing.release rm s)).
    destruct (failing_release_fields rm s) as (_ & _ & _ & Hs & _).
    destruct (failing_run_body_no_workspace rm m (Failing.release rm s) e s1 Hmk)
      as (H1 & H2 & H3).
    rewrite Hs in H3. done.
  - intros rm s id j res Hj Hw s'. subst s'. simpl. rewrite Hj, Hw.
    set (s0 := Server.set_jobs _ s).
    destruct (failing_resume_outcome rm (Server.j_cont j) res s0)
      as [(H1 & H2 & H3) | (H1 & H2 & H3 & _)].
    + by left.
    + by right.
  - intros s evs. apply agree_exec.
  - intros d n Hd _. unfold Failing.rmSync.
    pose proof (rmSync_gone d n Hd) as Hgone. unfold stat.
    destruct (Fs.rmSync d n) as [n' | e]; simpl; by rewrite Hgone.
  - intros evs d. rewrite agree_exec. apply no_workspace_outlives_its_run.
Qed.

(** A Python program is running in its workspace; [terminate] calls the
    removal of the workspace, which removes it when it does not fail. *)
Lemma cleanup_called_on_every_exit_witness :
  Server.workdir Sample.running_python = Some ["tmp"; "code-sync-0"] /\
  stat ["tmp"; "code-sync-0"] (Server.fs Sample.running_python) = Some IsDir /\
  stat ["tmp"; "code-sync-0"]
    (Server.fs (Failing.step Failing.rmSync Sample.running_python
                  (Server.Message (Server.Parsed Server.Terminate)))) = None /\
  Server.workdir (Failing.step Failing.rmSync Sample.running_python
                    (Server.Message (Server.Parsed Server.Terminate))) = None.
Proof.
  split_and!; [reflexivity | reflexivity | |].
  - destruct cleanup_called_on_every_exit as (_ & _ & _ & H & _).
    destruct (H Failing.rmSync Sample.running_python
                (Server.Message (Server.Parsed Server.Terminate))
                ["tmp"; "code-sync-0"] I eq_refl) as (-> & _).
    reflexivity.
  - destruct cleanup_called_on_every_exit as (_ & _ & _ & H & _).
    by destruct (H Failing.rmSync Sample.running_python
                   (Server.Message (Server.Parsed Server.Terminate))
                   ["tmp"; "code-sync-0"] I eq_refl) as (_ & -> & _).
Defined.

(** Two sessions after which a workspace directory is still there.  In the
    first the removal fails on a busy directory: [terminate] sends its
    [exit] message and clears [workdir], and the directory stays.  In the
    second no removal fails: the second program has a file name that
    leads back into the directory of the first workspace, which is made
    again and is still there when the connection has ended. *)
Lemma workspace_outlives_its_run :
  let busy :=
    Failing.exec Failing.rm_busy Server.init
      [Server.Message (Server.Parsed (Server.Run Sample.run_python));
       Server.Message (Server.Parsed Server.Terminate)] in
  let again :=
    Server.exec Server.init
      [Server.Message (Server.Parsed (Server.Run Sample.run_python));
       Server.Message (Server.Parsed (Server.Run MoreSamples.run_reenter));
       Server.Close] in
  (Server.workdir busy = None /\ Server.proc busy = None /\
   Server.sent busy = [Server.Out "exit" Server.terminated] /\
   stat ["tmp"; "code-sync-0"] (Server.fs busy) = Some IsDir) /\
  (Server.workdir again = None /\ Server.proc again = None /\
   stat ["tmp"; "code-sync-0"] (Server.fs again) = Some IsDir /\
   stat ["tmp"; "code-sync-1"] (Server.fs again) = None).
Proof. by vm_compute. Qed.

(* ===================================================================== *)
(** * The session over time: what one event may do                        *)
(* ===================================================================== *)

Section Advance.
Import Fs Server Inv.

Lemma same_process_refl pr : same_process pr pr.
Proof. by split_and!. Qed.

Lemma same_process_trans a b c :
  same_process a b -> same_process b c -> same_process a c.
Proof.
  intros (H1 & H2 & H3 & H4) (G1 & G2 & G3 & G4).
  split_and!; try congruence. by etrans.
Qed.

Lemma keeps_refl ps : keeps_processes ps ps.
Proof. intros pid pr Hpr. exists pr. split; [done | apply same_process_refl]. Qed.

Lemma keeps_trans ps1 ps2 ps3 :
  keeps_processes ps1 ps2 -> keeps_processes ps2 ps3 -> keeps_processes ps1 ps3.
Proof.
  intros H12 H23 pid pr Hpr.
  destruct (H12 pid pr Hpr) as (pr2 & Hpr2 & Hs2).
  destruct (H23 pid pr2 Hpr2) as (pr3 & Hpr3 & Hs3).
  exists pr3. split; [done | by eapply same_process_trans].
Qed.

Lemma keeps_alter (f : process -> process) pid ps :
  (forall pr, same_process pr (f pr)) -> keeps_processes ps (alter f pid ps).
Proof.
  intros Hf i pr Hi. destruct (decide (i = pid)) as [-> | Hne].
  - exists (f pr). rewrite list_lookup_alter_eq, Hi. split; [done | apply Hf].
  - exists pr. rewrite list_lookup_alter_ne by done.
    split; [done | apply same_process_refl].
Qed.

Lemma keeps_app ps new : keeps_processes ps (ps ++ new).
Proof.
  intros i pr Hi. exists pr. split; [| apply same_process_refl].
  by apply lookup_app_l_Some.
Qed.

Lemma keeps_length ps ps' : keeps_processes ps ps' -> length ps <= length ps'.
Proof.
  intros Hk. destruct (decide (length ps = 0)) as [-> | Hne]; [lia|].
  destruct (lookup_lt_is_Some_2 ps (length ps - 1)) as [pr Hpr]; [lia|].
  destruct (Hk _ _ Hpr) as (pr' & Hpr' & _).
  apply lookup_lt_Some in Hpr'. lia.
Qed.

Lemma advances_same n s s' :
  sent s' = sent s -> procs s' = procs s -> jobs s' = jobs s ->
  advances n s s'.
Proof.
  intros Hs Hp Hj. exists []. rewrite Hs, Hp, Hj, app_nil_r.
  split_and!; [done | simpl; lia | lia | apply keeps_refl].
Qed.

Lemma advances_trans a b s1 s2 s3 :
  advances a s1 s2 -> advances b s2 s3 -> advances (a + b) s1 s3.
Proof.
  intros (o1 & Hs1 & Hn1 & Hj1 & Hk1) (o2 & Hs2 & Hn2 & Hj2 & Hk2).
  exists (o1 ++ o2). rewrite Hs2, Hs1, <- app_assoc, length_app.
  split_and!; [done | lia | lia | by eapply keeps_trans].
Qed.

Lemma advances_le n m s s' : n <= m -> advances n s s' -> advances m s s'.
Proof.
  intros Hle (o & Hs & Hn & Hj & Hk). exists o.
  split_and!; [done | lia | done | done].
Qed.

Lemma advances_send o s : advances 1 s (send o s).
Proof.
  exists [o]. split_and!; [done | simpl; lia | done | apply keeps_refl].
Qed.

Lemma same_process_mark_killed pr : same_process pr (mark_killed pr).
Proof. unfold mark_killed. destruct (running pr); by split_and!. Qed.

Lemma advances_kill_part p s : advances 0 s (kill_part p s).
Proof.
  unfold kill_part. destruct p as [pid |]; [| by apply advances_same].
  destruct (procs s !! pid) as [pr |]; [| by apply advances_same].
  destruct (negb (killed pr)); [| by apply advances_same].
  exists []. unfold kill. cbn [sent procs jobs set_procs].
  rewrite app_nil_r, length_alter.
  split_and!; [done | simpl; lia | lia |].
  apply keeps_alter, same_process_mark_killed.
Qed.

Lemma advances_cleanupProcess p w s : advances 0 s (cleanupProcess p w s).
Proof.
  apply (advances_trans 0 0 s (kill_part p s)); [apply advances_kill_part|].
  destruct (cleanupProcess_fields p w s) as (_ & _ & Hj & Hs & _ & Hp).
  destruct (kill_part_fields p s) as (_ & _ & _ & Hj' & Hs' & _).
  apply advances_same; congruence.
Qed.

Lemma advances_release s : advances 0 s (release s).
Proof.
  apply (advances_trans 0 0 s (cleanupProcess (proc s) (workdir s) s));
    [apply advances_cleanupProcess | by apply advances_same].
Qed.

Lemma advances_fail data s : advances 1 s (fail data s).
Proof.
  apply (advances_trans 1 0 s (send_error data s));
    [apply advances_send | apply advances_release].
Qed.

Lemma advances_spawn cmd args cwd s : advances 1 s (spawn cmd args cwd s).
Proof.
  exists []. unfold spawn. cbn [sent procs jobs set_procs set_proc].
  rewrite app_nil_r, length_app.
  split_and!; [done | simpl; lia | done | apply keeps_app].
Qed.

Lemma advances_await cmd args cwd k s :
  advances 1 s (await_compile cmd args cwd k s).
Proof.
  exists []. unfold await_compile. cbn [sent procs jobs set_jobs].
  rewrite app_nil_r, length_app.
  split_and!; [done | simpl; lia | simpl; lia | apply keeps_refl].
Qed.

Lemma advances_write_esm w s : advances 0 s (write_esm_package w s).
Proof.
  unfold write_esm_package.
  destruct (writeFileSync _ _ _); by apply advances_same.
Qed.

Lemma advances_launch m w entryFile s : advances 1 s (launch m w entryFile s).
Proof.
  unfold launch.
  repeat case_match;
    try apply advances_spawn; try apply advances_await; try apply advances_fail.
  apply (advances_trans 0 1 s (write_esm_package w s));
    [apply advances_write_esm | apply advances_spawn].
Qed.

Lemma advances_run_body m s : advances 1 s (run_body m s).
Proof.
  unfold run_body, run_catch.
  pose proof (mkdtempSync_fields s) as (Hp & _ & _ & Hj & Hs & _).
  destruct (mkdtempSync s) as [r s1]. cbn [fst snd] in *.
  assert (H01 : advances 0 s s1) by (by apply advances_same).
  destruct r as [w | e].
  - destruct (materialize w (files m) (fs (set_workdir (Some w) s1)))
      as [fs3 [e |]].
    + apply (advances_trans 0 1 s s1); [done|].
      apply (advances_trans 0 1 s1 (set_fs fs3 (set_workdir (Some w) s1)));
        [by apply advances_same | apply advances_fail].
    + apply (advances_trans 0 1 s s1); [done|].
      apply (advances_trans 0 1 s1 (set_fs fs3 (set_workdir (Some w) s1)));
        [by apply advances_same |].
      destruct (entry_file m) as [entryFile |]; [| apply advances_fail].
      destruct (negb _); [apply advances_fail | apply advances_launch].
  - apply (advances_trans 0 1 s s1); [done | apply advances_fail].
Qed.

Lemma advances_resume k res s : advances 1 s (resume k res s).
Proof.
  unfold resume, run_catch.
  repeat case_match; try apply advances_spawn; apply advances_fail.
Qed.

Lemma same_process_write chunk pr : same_process pr (write_stdin chunk pr).
Proof. split_and!; try done. simpl. by apply prefix_app_r. Qed.

Lemma advances_alter (f : process -> process) pid s :
  (forall pr, same_process pr (f pr)) ->
  advances 0 s (set_procs (alter f pid (procs s)) s).
Proof.
  intros Hf. exists []. cbn [sent procs jobs set_procs].
  rewrite app_nil_r, length_alter.
  split_and!; [done | simpl; lia | lia | by apply keeps_alter].
Qed.

Lemma advances_step s e : advances 1 s (step s e).
Proof.
  destruct e as [raw | id res | pid data | pid data | pid code | pid msg
                | pid |]; simpl.
  - destruct raw as [| [m | data | |]]; simpl.
    + apply advances_send.
    + apply (advances_trans 0 1 s (release s));
        [apply advances_release | apply advances_run_body].
    + apply (advances_le 0); [lia|]. unfold handle_input.
      repeat case_match; try (by apply advances_same).
      apply advances_alter, same_process_write.
    + apply (advances_trans 0 1 s (release s));
        [apply advances_release | apply advances_send].
    + by apply advances_same.
  - destruct (jobs s !! id) as [j |]; [| by apply advances_same].
    destruct (waiting j); [| by apply advances_same].
    apply (advances_trans 0 1 s (set_jobs (alter finish_job id (jobs s)) s));
      [| apply advances_resume].
    exists []. cbn [sent procs jobs set_jobs].
    rewrite app_nil_r, length_alter.
    split_and!; [done | simpl; lia | lia | apply keeps_refl].
  - repeat case_match; try (by apply advances_same). apply advances_send.
  - repeat case_match; try (by apply advances_same). apply advances_send.
  - destruct (procs s !! pid) as [pr |]; [| by apply advances_same].
    destruct (closed pr); [by apply advances_same|].
    apply (advances_trans 0 1 s (set_procs (alter mark_closed pid (procs s)) s)).
    + apply advances_alter. intros pr'. by split_and!.
    + apply (advances_trans 1 0 _ (send (Out "exit" (exit_data code))
                (set_procs (alter mark_closed pid (procs s)) s)));
        [apply advances_send | apply advances_release].
  - destruct (procs s !! pid) as [pr |]; [| by apply advances_same].
    destruct (closed pr); [by apply advances_same|].
    apply (advances_trans 0 1 s (set_procs (alter mark_failed pid (procs s)) s)).
    + apply advances_alter. intros pr'. by split_and!.
    + apply advances_fail.
  - apply (advances_le 0); [lia|]. apply advances_alter.
    intros pr'. by split_and!.
  - apply (advances_le 0); [lia | apply advances_release].
Qed.

Lemma advances_exec s evs : advances (length evs) s (exec s evs).
Proof.
  revert s. induction evs as [| e evs IH]; intros s.
  - by apply advances_same.
  - change (exec s (e :: evs)) with (exec (step s e) evs).
    apply (advances_trans 1 (length evs) s (step s e));
      [apply advances_step | apply IH].
Qed.

End Advance.

(** X1.  One event of the connection makes the server do at most one
    thing: send one message, spawn one process or start one compiler.  The
    messages already sent stay in the log, in order; a process of the
    table stays the same process (command, arguments, directory), and what
    was written to its input is never taken back.  Over a run of the
    event loop the number of things done is at most the number of
    events. *)
Theorem one_event_one_action :
  (forall s e, Inv.advances 1 s (Server.step s e)) /\
  (forall s evs, Inv.advances (length evs) s (Server.exec s evs)) /\
  (forall s evs,
     Server.sent s `prefix_of` Server.sent (Server.exec s evs) /\
     length (Server.sent (Server.exec s evs))
     <= length (Server.sent s) + length evs /\
     length (Server.procs s) <= length (Server.procs (Server.exec s evs))).
Proof.
  split_and!.
  - apply advances_step.
  - apply advances_exec.
  - intros s evs.
    destruct (advances_exec s evs) as (out & Hs & Hn & Hj & Hk).
    apply keeps_length in Hk. rewrite Hs, length_app.
    split_and!; [by apply prefix_app_r | lia | done].
Qed.

(* ===================================================================== *)
(** * The process that [proc] names                                       *)
(* ===================================================================== *)

Section Current.
Import Fs Server Inv.

Lemma one_alive_at_most_one s : one_alive s -> length (alive_pids s) <= 1.
Proof.
  intros Hone.
  assert (Hall : forall x, x ∈ alive_pids s -> proc s = Some x).
  { intros x Hx. unfold alive_pids in Hx.
    apply list_elem_of_filter in Hx as [Hx _].
    destruct (procs s !! x) as [pr |] eqn:Hpr; [| done].
    apply (Hone x pr Hpr). simpl in Hx. congruence. }
  assert (Hnd : NoDup (alive_pids s)) by apply NoDup_filter, NoDup_seq.
  destruct (alive_pids s) as [| a [| b l]]; simpl; [lia | lia |].
  exfalso.
  assert (a = b).
  { pose proof (Hall a ltac:(left)) as Ha.
    pose proof (Hall b ltac:(right; left)) as Hb. congruence. }
  subst b. apply NoDup_cons in Hnd as [Hnd _]. apply Hnd. left.
Qed.

Lemma runs_none s : proc s = None -> runs_in_workdir s.
Proof. intros Hp pid Hpid. congruence. Qed.

Lemma runs_same s s' :
  proc s' = proc s -> procs s' = procs s -> workdir s' = workdir s ->
  runs_in_workdir s -> runs_in_workdir s'.
Proof. intros Hp Hps Hw Hr pid. rewrite Hp, Hps, Hw. apply Hr. Qed.

Lemma runs_release s : runs_in_workdir (release s).
Proof. by apply runs_none. Qed.

Lemma runs_spawn cmd args s :
  runs_in_workdir (spawn cmd args (workdir s) s).
Proof.
  intros pid Hpid. unfold spawn in *. cbn [proc set_proc] in Hpid.
  injection Hpid as <-. eexists. split.
  - cbn [procs set_proc set_procs]. by apply list_lookup_middle.
  - done.
Qed.

Lemma runs_alter (f : process -> process) pid s :
  (forall pr, p_cwd (f pr) = p_cwd pr) ->
  runs_in_workdir s -> runs_in_workdir (set_procs (alter f pid (procs s)) s).
Proof.
  intros Hf Hr i Hi. destruct (Hr i Hi) as (pr & Hpr & Hcwd).
  cbn [procs workdir set_procs].
  destruct (decide (i = pid)) as [-> | Hne].
  - exists (f pr). rewrite list_lookup_alter_eq, Hpr. split; [done|].
    by rewrite Hf.
  - exists pr. by rewrite list_lookup_alter_ne.
Qed.

Lemma runs_launch m w entryFile s :
  workdir s = Some w -> runs_in_workdir s ->
  runs_in_workdir (launch m w entryFile s).
Proof.
  intros Hw Hr. unfold launch.
  assert (Hesm : workdir (write_esm_package w s) = Some w).
  { unfold write_esm_package. by destruct (writeFileSync _ _ _). }
  repeat case_match;
    try (rewrite <- Hw; apply runs_spawn);
    try (rewrite <- Hesm; apply runs_spawn);
    try (by apply (runs_same s));
    apply runs_release.
Qed.

Lemma runs_run_body m s : proc s = None -> runs_in_workdir (run_body m s).
Proof.
  intros Hp. unfold run_body, run_catch.
  pose proof (mkdtempSync_fields s) as (_ & Hp1 & _).
  destruct (mkdtempSync s) as [r s1]. cbn [fst snd] in *.
  destruct r as [w | e]; [| apply runs_release].
  destruct (materialize _ _ _) as [fs3 [e |]]; [apply runs_release|].
  destruct (entry_file m) as [entryFile |]; [| apply runs_release].
  destruct (negb _); [apply runs_release|].
  apply runs_launch; [done|]. apply runs_none. simpl. congruence.
Qed.

Lemma runs_resume k res s : runs_in_workdir (resume k res s).
Proof.
  unfold resume, run_catch.
  destruct (compile_failed res); [apply runs_release|].
  destruct k as [files entryFile | |]; destruct (workdir s) as [w |] eqn:Hw;
    try (rewrite <- Hw; apply runs_spawn); try apply runs_release.
  destruct (names_with _ _); [| apply runs_release].
  rewrite <- Hw. apply runs_spawn.
Qed.

Lemma runs_step s e : runs_in_workdir s -> runs_in_workdir (step s e).
Proof.
  intros Hr.
  destruct e as [raw | id res | pid data | pid data | pid code | pid msg
                | pid |]; simpl.
  - destruct raw as [| [m | data | |]]; simpl.
    + by apply (runs_same s).
    + apply runs_run_body. apply release_fields.
    + unfold handle_input. repeat case_match; try done.
      by apply runs_alter.
    + by apply runs_none.
    + done.
  - repeat case_match; try done; apply runs_resume.
  - repeat case_match; try done; by apply (runs_same s).
  - repeat case_match; try done; by apply (runs_same s).
  - repeat case_match; try done; apply runs_release.
  - repeat case_match; try done; apply runs_release.
  - by apply runs_alter.
  - apply runs_release.
Qed.

End Current.

Section Compilers.
Import Fs Server Inv.

Lemma release_jobs s : jobs (release s) = jobs s.
Proof. apply release_fields. Qed.

Lemma fail_jobs data s : jobs (fail data s) = jobs s.
Proof. unfold fail. by rewrite release_jobs. Qed.

Lemma launch_jobs m w entryFile s :
  exists new, jobs (launch m w entryFile s) = jobs s ++ new.
Proof.
  assert (Hesm : jobs (write_esm_package w s) = jobs s).
  { unfold write_esm_package. by destruct (writeFileSync _ _ _). }
  unfold launch.
  repeat case_match;
    try (exists []; rewrite app_nil_r; first [exact Hesm | reflexivity]);
    try (by eexists).
  exists []. by rewrite fail_jobs, app_nil_r.
Qed.

Lemma run_body_jobs m s : exists new, jobs (run_body m s) = jobs s ++ new.
Proof.
  unfold run_body, run_catch.
  pose proof (mkdtempSync_fields s) as (_ & _ & _ & Hj & _).
  destruct (mkdtempSync s) as [r s1]. cbn [fst snd] in *.
  assert (Hnil : forall data s2, jobs s2 = jobs s1 ->
            exists new, jobs (fail data s2) = jobs s ++ new).
  { intros data s2 H2. exists []. by rewrite fail_jobs, H2, Hj, app_nil_r. }
  destruct r as [w | e]; [| by apply Hnil].
  destruct (materialize _ _ _) as [fs3 [e |]]; [by apply Hnil|].
  destruct (entry_file m) as [entryFile |]; [| by apply Hnil].
  destruct (negb _); [by apply Hnil|].
  destruct (launch_jobs m w entryFile
              (set_fs fs3 (set_workdir (Some w) s1))) as [new ->].
  exists new. simpl. by rewrite Hj.
Qed.

Lemma step_jobs s e :
  (forall id res, e <> CompileDone id res) ->
  exists new, jobs (step s e) = jobs s ++ new.
Proof.
  intros Hno.
  assert (Hsame : forall s', jobs s' = jobs s ->
            exists new, jobs s' = jobs s ++ new).
  { intros s' ->. exists []. by rewrite app_nil_r. }
  destruct e as [raw | id res | pid data | pid data | pid code | pid msg
                | pid |]; simpl.
  - destruct raw as [| [m | data | |]]; simpl.
    + by apply Hsame.
    + unfold handle_run.
      destruct (run_body_jobs m (release s)) as [new ->]. exists new.
      by rewrite release_jobs.
    + apply Hsame. unfold handle_input. by repeat case_match.
    + apply Hsame. exact (release_jobs s).
    + by apply Hsame.
  - by destruct (Hno id res).
  - apply Hsame. by repeat case_match.
  - apply Hsame. by repeat case_match.
  - apply Hsame. repeat case_match; try done. unfold on_close.
    by rewrite release_jobs.
  - apply Hsame. repeat case_match; try done. unfold on_error.
    by rewrite fail_jobs.
  - by apply Hsame.
  - apply Hsame. exact (release_jobs s).
Qed.

Lemma compilers_running_elem s id :
  id ∈ compilers_running s <-> (waiting <$> jobs s !! id) = Some true.
Proof.
  unfold compilers_running. rewrite list_elem_of_filter, elem_of_seq.
  split; [by intros [? _]|]. intros H. split; [done|].
  destruct (jobs s !! id) as [j |] eqn:Hj; [| done].
  apply lookup_lt_Some in Hj. lia.
Qed.

End Compilers.

(** X2.  The one-process property for the processes spawned for a run,
    the ones that [proc] can name.  An event keeps the invariant that
    the only live run process is the one [proc] names, unless it resumes
    a handler after a successful compilation while [proc] is set; so a
    session in which no compiler finishes never has two live run
    processes.  The compilers that [runCommand] starts are not among
    them: they are child processes that no cleanup ends and no event
    other than their own end stops, so that a compiler can run beside a
    run process, as [javac] and [python3] do after a [run] of a Java
    program followed by a [run] of a Python program. *)
Theorem one_live_run_process :
  (forall s e,
     one_alive s ->
     (resumes_to_spawn s e -> Server.proc s = None) ->
     one_alive (Server.step s e)) /\
  (forall s, one_alive s -> length (Server.alive_pids s) <= 1) /\
  (forall evs,
     (forall e, e ∈ evs -> forall id res, e <> Server.CompileDone id res) ->
     one_alive (Server.exec Server.init evs) /\
     length (Server.alive_pids (Server.exec Server.init evs)) <= 1) /\
  (forall s e id,
     (forall id' res, e <> Server.CompileDone id' res) ->
     id ∈ Inv.compilers_running s ->
     id ∈ Inv.compilers_running (Server.step s e)) /\
  (let s := Server.exec Server.init
              [Server.Message (Server.Parsed (Server.Run Sample.run_java));
               Server.Message (Server.Parsed (Server.Run Sample.run_python))] in
   Inv.compilers_running s = [0] /\
   (Server.j_cmd <$> Server.jobs s !! 0) = Some "javac" /\
   Server.alive_pids s = [0] /\
   (Server.p_cmd <$> Server.procs s !! 0) = Some "python3").
Proof.
  split_and!.
  - apply step_keeps_one_alive.
  - apply one_alive_at_most_one.
  - intros evs Hno.
    pose proof (one_alive_without_compiler evs Hno) as Hone.
    split; [done | by apply one_alive_at_most_one].
  - intros s e id Hno Hid. apply compilers_running_elem in Hid.
    apply compilers_running_elem.
    destruct (step_jobs s e Hno) as [new ->].
    destruct (Server.jobs s !! id) as [j |] eqn:Hj; [| done].
    by rewrite (lookup_app_l_Some _ _ _ _ Hj).
  - cbv zeta. split_and!; vm_compute; reflexivity.
Qed.

(** X3.  In every state that a session reaches, the process that [proc]
    names is in the table of processes, and it was started in the
    directory that [workdir] names at that moment: input is never written
    to a process of another workspace. *)
Theorem current_process_runs_in_workdir :
  (forall s e, Inv.runs_in_workdir s -> Inv.runs_in_workdir (Server.step s e)) /\
  (forall evs pid,
     Server.proc (Server.exec Server.init evs) = Some pid ->
     exists pr,
       Server.procs (Server.exec Server.init evs) !! pid = Some pr /\
       Server.p_cwd pr = Server.workdir (Server.exec Server.init evs)).
Proof.
  split; [apply runs_step|].
  intros evs. change (Inv.runs_in_workdir (Server.exec Server.init evs)).
  unfold Server.exec.
  assert (Hinit : Inv.runs_in_workdir Server.init) by (by apply runs_none).
  revert Hinit. generalize Server.init as s.
  induction evs as [| e evs IH]; intros s Hs; [done|].
  simpl. apply IH. by apply runs_step.
Qed.


Section Exit.
Import Fs Server Inv.

Lemma run_ended_release s0 s o :
  proc s0 = proc s -> workdir s0 = workdir s -> sent s0 = sent s ->
  run_ended s (release (send o s0)) o.
Proof.
  intros Hp Hw Hs.
  destruct (release_fields (send o s0)) as (H1 & H2 & _ & H4 & _).
  split_and!; [| done | done | |].
  - rewrite H4. simpl. by rewrite Hs.
  - intros cur pr' Hcur. apply release_kills. simpl. congruence.
  - intros d Hd Hne. apply release_removes; [| done]. simpl. congruence.
Qed.

Lemma kill_part_closed p s i pr :
  procs s !! i = Some pr ->
  exists pr', procs (kill_part p s) !! i = Some pr' /\ closed pr' = closed pr.
Proof.
  intros Hi. unfold kill_part.
  destruct p as [pid |]; [| by exists pr].
  destruct (procs s !! pid) as [pr0 |]; [| by exists pr].
  destruct (negb (killed pr0)); [| by exists pr].
  unfold kill. cbn [procs set_procs].
  destruct (decide (i = pid)) as [-> | Hne].
  - exists (mark_killed pr). rewrite list_lookup_alter_eq, Hi. split; [done|].
    unfold mark_killed. by destruct (running pr).
  - exists pr. by rewrite list_lookup_alter_ne.
Qed.

Lemma release_closed s i pr :
  procs s !! i = Some pr ->
  exists pr', procs (release s) !! i = Some pr' /\ closed pr' = closed pr.
Proof.
  intros Hi. unfold release. cbn [procs set_proc set_workdir].
  destruct (cleanupProcess_fields (proc s) (workdir s) s)
    as (_ & _ & _ & _ & _ & ->).
  by apply kill_part_closed.
Qed.

End Exit.

(** X4.  When a process closes, the server sends its exit code; when it
    fails, the server sends the failure.  Either way the run that is
    current at that moment is ended: the process that [proc] names is
    killed and the workspace that [workdir] names is removed, also when
    the process of the event is an earlier one than the current one.
    Once a process has closed, its later events are ignored. *)
Theorem process_exit_ends_current_run (s : Server.state) (pid : nat)
    (pr : Server.process) :
  Server.procs s !! pid = Some pr -> Server.closed pr = false ->
  (forall code,
     Inv.run_ended s (Server.step s (Server.ProcClose pid code))
       (Server.Out "exit" (Server.exit_data code))) /\
  (forall msg,
     Inv.run_ended s (Server.step s (Server.ProcError pid msg))
       (Server.Out "error" (Server.JStr ("Failed to start runtime: " +:+ msg)))) /\
  (forall code e,
     e = Server.ProcClose pid code \/ (exists msg, e = Server.ProcError pid msg) \/
     (exists data, e = Server.ProcStdout pid data) \/
     (exists data, e = Server.ProcStderr pid data) ->
     Server.step (Server.step s (Server.ProcClose pid code)) e
     = Server.step s (Server.ProcClose pid code)).
Proof.
  intros Hpr Hcl. split_and!.
  - intros code. simpl. rewrite Hpr, Hcl. unfold Server.on_close.
    by apply run_ended_release.
  - intros msg. simpl. rewrite Hpr, Hcl.
    unfold Server.on_error, Server.fail, Server.send_error.
    by apply run_ended_release.
  - intros code e He.
    set (s' := Server.step s (Server.ProcClose pid code)).
    assert (Hclosed : exists pr', Server.procs s' !! pid = Some pr' /\
                                  Server.closed pr' = true).
    { subst s'. simpl. rewrite Hpr, Hcl. unfold Server.on_close.
      destruct (release_closed
                  (Server.send (Server.Out "exit" (Server.exit_data code))
                     (Server.set_procs
                        (alter Server.mark_closed pid (Server.procs s)) s))
                  pid (Server.mark_closed pr)) as (pr' & Hpr' & Hc).
      - simpl. by rewrite list_lookup_alter_eq, Hpr.
      - by exists pr'. }
    destruct Hclosed as (pr' & Hpr' & Hc).
    destruct He as [-> | [[msg ->] | [[data ->] | [data ->]]]];
      simpl; by rewrite Hpr', Hc.
Qed.

(** A second run has replaced a Python program that has not closed yet;
    when the first program closes, the second run is ended. *)
Lemma process_exit_ends_current_run_witness :
  let s := Server.exec Server.init
             [Server.Message (Server.Parsed (Server.Run Sample.run_python));
              Server.Message (Server.Parsed (Server.Run Sample.run_python))] in
  Server.proc s = Some 1 /\
  Inv.run_ended s (Server.step s (Server.ProcClose 0 None))
    (Server.Out "exit" Server.JNull).
Proof.
  split; [reflexivity|].
  refine (proj1 (process_exit_ends_current_run
                   (Server.exec Server.init
                      [Server.Message (Server.Parsed (Server.Run Sample.run_python));
                       Server.Message (Server.Parsed (Server.Run Sample.run_python))])
                   0 (Server.Process "python3" ["-u"; "a.py"]
                        (Some ["tmp"; "code-sync-0"]) true false true true [])
                   _ _) None); reflexivity.
Defined.

(* ===================================================================== *)
(** * What the workspace holds after materialization                      *)
(* ===================================================================== *)

Section Materialized.
Import Fs Server Inv.

Lemma materialize_app w a b fs :
  materialize w (a ++ b) fs
  = match materialize w a fs with
    | (fs1, None) => materialize w b fs1
    | (fs1, Some e) => (fs1, Some e)
    end.
Proof.
  revert fs. induction a as [| f a IH]; intros fs; [done|].
  simpl. destruct (materialize_file w f fs) as [fs1 [e |]]; [done | apply IH].
Qed.

Lemma stat_get_file p n c : stat p n = Some (IsFile c) <-> get p n = Some (File c).
Proof.
  unfold stat. destruct (get p n) as [[c' | es] |]; split; intros H;
    by simplify_eq.
Qed.

Lemma materialize_file_written w f n fs fs' :
  name f = Some n -> Js.truthy n = true ->
  materialize_file w f fs = (fs', None) ->
  Path.slash (Path.join w n) = false /\
  stat (Path.segs (Path.join w n)) fs' = Some (IsFile (content f)).
Proof.
  intros Hn Ht. unfold materialize_file. rewrite Hn, Ht.
  destruct (mkdirSync _ fs) as [fs1 | e]; [| done].
  unfold writeFileSync.
  destruct (Path.slash (Path.join w n)) eqn:Hsl; [done|].
  destruct (write_at _ _ fs1) as [fs2 | e] eqn:Hw; [| done].
  intros [= <-]. split; [done|].
  apply stat_get_file. by eapply write_at_get.
Qed.

Lemma materialize_file_keeps_file w f fs p c :
  (forall n, name f = Some n -> Js.truthy n = true ->
     Path.segs (Path.join w n) <> p) ->
  stat p fs = Some (IsFile c) ->
  stat p (materialize_file w f fs).1 = Some (IsFile c).
Proof.
  intros Hne Hp. unfold materialize_file.
  destruct (name f) as [n |] eqn:Hn; [| done].
  destruct (Js.truthy n) eqn:Ht; [| done].
  specialize (Hne n eq_refl Ht).
  destruct (mkdirSync _ fs) as [fs1 | e] eqn:Hmk; [| done].
  assert (Hp1 : stat p fs1 = Some (IsFile c)).
  { destruct (mkdir_p_stat _ _ _ p Hmk) as [-> | (Hnone & _)];
      [done | congruence]. }
  unfold writeFileSync. destruct (Path.slash _); [done|].
  destruct (write_at _ _ fs1) as [fs2 | e] eqn:Hw; [| done].
  simpl. rewrite (write_at_stat _ _ _ _ p Hw); [done | congruence].
Qed.

Lemma materialize_keeps_file w files fs p c :
  (forall f n, f ∈ files -> name f = Some n -> Js.truthy n = true ->
     Path.segs (Path.join w n) <> p) ->
  stat p fs = Some (IsFile c) ->
  stat p (materialize w files fs).1 = Some (IsFile c).
Proof.
  revert fs. induction files as [| f files IH]; intros fs Hne Hp; [done|].
  simpl.
  pose proof (materialize_file_keeps_file w f fs p c
                (fun n => Hne f n ltac:(left)) Hp) as Hf.
  destruct (materialize_file w f fs) as [fs1 [e |]]; [done|].
  apply IH; [| done]. intros g n Hg. apply Hne. by right.
Qed.



End Materialized.

(** X5.  After a materialization that did not throw, a submitted file can
    be read back under its name with the content that was submitted,
    provided no later file of the message is written to the same path.
    (A later file with the same path overwrites it.) *)
Theorem materialized_file_reads_back (w : list string)
    (pre post : list Server.SourceFile) (f : Server.SourceFile) (n : string)
    (fs fs' : Fs.node) :
  Server.materialize w (pre ++ f :: post) fs = (fs', None) ->
  Server.name f = Some n -> Js.truthy n = true ->
  (forall g m, g ∈ post -> Server.name g = Some m -> Js.truthy m = true ->
     Path.segs (Path.join w m) <> Path.segs (Path.join w n)) ->
  Fs.readFileSync (Path.join w n) fs' = Fs.Ok (Server.content f) /\
  Fs.existsSync (Path.join w n) fs' = true.
Proof.
  intros Hm Hn Ht Hpost. rewrite materialize_app in Hm.
  destruct (Server.materialize w pre fs) as [fs1 [e |]]; [done|].
  simpl in Hm.
  destruct (Server.materialize_file w f fs1) as [fs2 [e |]] eqn:Hf; [done|].
  destruct (materialize_file_written w f n fs1 fs2 Hn Ht Hf) as [Hsl Hst].
  pose proof (materialize_keeps_file w post fs2 _ _ Hpost Hst) as Hkeep.
  rewrite Hm in Hkeep. cbn [fst] in Hkeep.
  apply stat_get_file in Hkeep.
  unfold Fs.readFileSync, Fs.existsSync. by rewrite Hkeep, Hsl.
Qed.

(** Two files, the second below a directory. *)
Lemma materialized_file_reads_back_witness :
  Fs.readFileSync (Path.join ["tmp"; "ws"] "a.py")
    (Server.materialize ["tmp"; "ws"]
       [Server.SrcFile (Some "a.py") "print(1)";
        Server.SrcFile (Some "lib/b.py") "x = 2"]
       (Fs.Dir [("tmp", Fs.Dir [("ws", Fs.Dir [])])])).1
  = Fs.Ok "print(1)".
Proof.
  refine (proj1 (materialized_file_reads_back ["tmp"; "ws"] []
                   [Server.SrcFile (Some "lib/b.py") "x = 2"]
                   (Server.SrcFile (Some "a.py") "print(1)") "a.py"
                   (Fs.Dir [("tmp", Fs.Dir [("ws", Fs.Dir [])])]) _
                   _ _ _ _)); try reflexivity.
  intros g m Hg Hm _. apply list_elem_of_singleton in Hg. subst g.
  injection Hm as <-. vm_compute. discriminate.
Defined.

(* ===================================================================== *)
(** * [findJavaMainClass] of [index.js]: the class it names               *)
(* ===================================================================== *)

Section IndexResolver.
Import Fs Server Inv.

Lemma scan_java_skip fs w e pre rest fb :
  (forall g, g ∈ pre -> declares_main fs w g = None) ->
  scan_java fs w e (pre ++ rest) fb
  = scan_java fs w e rest
      (if bool_decide (e ∈ pre) then
         match readFileSync (Path.join w e) fs with
         | Ok c => Resolver.package_of c
         | Throw _ => fb
         end
       else fb).
Proof.
  revert fb. induction pre as [| g pre IH]; intros fb Hpre; [done|].
  assert (Hg : declares_main fs w g = None) by (apply Hpre; left).
  assert (Hpre' : forall g', g' ∈ pre -> declares_main fs w g' = None)
    by (intros g' Hg'; apply Hpre; by right).
  change ((g :: pre) ++ rest) with (g :: (pre ++ rest)).
  cbn [scan_java]. unfold declares_main in Hg.
  destruct (String.eqb_spec g e) as [-> | Hne].
  - rewrite bool_decide_eq_true_2 by left.
    destruct (readFileSync (Path.join w e) fs) as [c | err] eqn:Hread.
    + assert (Hcont :
        scan_java fs w e (pre ++ rest) (Resolver.package_of c)
        = scan_java fs w e rest (Resolver.package_of c)).
      { rewrite IH by done. by destruct (bool_decide _). }
      destruct (class_of c) as [cn |]; [| done].
      destruct (Regex.test Pat.hasMainRegex c && Js.truthy cn); done.
    + rewrite IH by done. by destruct (bool_decide _).
  - assert (Hdec : bool_decide (e ∈ g :: pre) = bool_decide (e ∈ pre)).
    { apply bool_decide_ext. rewrite elem_of_cons.
      split; [intros [Heq | Hin]; [congruence | done] | by right]. }
    rewrite Hdec.
    destruct (readFileSync (Path.join w g) fs) as [c | err]; [| by apply IH].
    destruct (class_of c) as [cn |]; [| by apply IH].
    destruct (Regex.test Pat.hasMainRegex c && Js.truthy cn);
      [done | by apply IH].
Qed.

Lemma scan_java_found fs w e f rest fb c :
  declares_main fs w f = Some c ->
  (scan_java fs w e (f :: rest) fb).1 = Some c.
Proof.
  unfold declares_main. cbn [scan_java].
  destruct (readFileSync (Path.join w f) fs) as [content | err]; [| done].
  destruct (class_of content) as [cn |]; [| done].
  destruct (Regex.test Pat.hasMainRegex content && Js.truthy cn); [| done].
  by intros [= <-].
Qed.

End IndexResolver.

(** X6.  [findJavaMainClass] of [index.js] names the class of the first
    submitted Java file that can be read, declares a class at the start
    of a line and has a [main]; when no file is such, it names the entry
    file without its [.java], in the package that the entry file
    declares. *)
Theorem index_js_names_first_main_or_entry (fs : Fs.node)
    (files : list Server.SourceFile) (w : list string) (entryFile : string) :
  let javaFiles := Server.names_with (Js.endsWith ".java") files in
  let result := Server.findJavaMainClass fs files w entryFile in
  (forall pre f post c,
     javaFiles = pre ++ f :: post ->
     (forall g, g ∈ pre -> Inv.declares_main fs w g = None) ->
     Inv.declares_main fs w f = Some c ->
     result = c) /\
  ((forall g, g ∈ javaFiles -> Inv.declares_main fs w g = None) ->
   result
   = Resolver.qualify (Inv.entry_package fs w entryFile javaFiles)
       (Path.basename entryFile ".java")).
Proof.
  intros javaFiles result. subst result. unfold Server.findJavaMainClass.
  fold javaFiles. split.
  - intros pre f post c Hsplit Hpre Hf. rewrite Hsplit.
    rewrite scan_java_skip by done.
    pose proof (scan_java_found fs w entryFile f post
                  (if bool_decide (entryFile ∈ pre)
                   then match Fs.readFileSync (Path.join w entryFile) fs with
                        | Fs.Ok c0 => Resolver.package_of c0
                        | Fs.Throw _ => ""
                        end
                   else "") c Hf) as Hfound.
    destruct (Server.scan_java _ _ _ _ _) as [r fb]. simpl in Hfound.
    by rewrite Hfound.
  - intros Hnone.
    pose proof (scan_java_skip fs w entryFile javaFiles [] "" Hnone) as Hskip.
    rewrite app_nil_r in Hskip. rewrite Hskip. simpl.
    unfold Inv.entry_package. done.
Qed.

(* ===================================================================== *)
(** * The two-phase resolver: what a source file contributes              *)
(* ===================================================================== *)

Section Sources.
Import Fs Resolver Inv.

Lemma append_inj (p a b : string) : p +:+ a = p +:+ b -> a = b.
Proof. induction p as [| c p IH]; simpl; [done|]. intros [= H]. auto. Qed.

Lemma qualify_inj (pkg a b : string) : qualify pkg a = qualify pkg b -> a = b.
Proof.
  unfold qualify. destruct (Js.truthy pkg); [| done].
  intros H. apply append_inj in H. by apply (append_inj ".") in H.
Qed.

Lemma NoDup_map_qualify (pkg : string) (l : list string) :
  NoDup l -> NoDup (map (qualify pkg) l).
Proof.
  induction 1 as [| x l Hx Hl IH]; simpl; constructor; [| done].
  intros Hin. apply Hx. apply list_elem_of_In, in_map_iff in Hin.
  destruct Hin as (y & Hy & Hin). apply qualify_inj in Hy. subst y.
  by apply list_elem_of_In.
Qed.

Lemma likely_inv_mono pkg seen seen' st :
  (forall t, t ∈ seen -> t ∈ seen') ->
  likely_inv pkg seen st -> likely_inv pkg seen' st.
Proof.
  intros Hsub [Hcur Hmains]. split.
  - destruct Hcur as [-> | (t & Ht & Hg)]; [by left | right; eauto].
  - intros c Hc. destruct (Hmains c Hc) as (name & t & ? & ? & ? & ?).
    exists name, t. eauto.
Qed.

Lemma likely_step_inv pkg seen st t :
  likely_inv pkg seen st -> likely_inv pkg (seen ++ [t]) (likely_step pkg st t).
Proof.
  intros Hinv.
  assert (Hinv' : likely_inv pkg (seen ++ [t]) st).
  { eapply likely_inv_mono; [| done]. intros x Hx.
    apply elem_of_app. by left. }
  clear Hinv. destruct st as [cur mains]. destruct Hinv' as [Hcur Hmains].
  simpl in Hcur, Hmains.
  assert (Hadd : Js.truthy cur = true ->
                 likely_inv pkg (seen ++ [t]) (cur, mains ++ [qualify pkg cur])).
  { intros Ht. split; [done|]. simpl. intros c Hc.
    apply elem_of_app in Hc as [Hc | Hc]; [by apply Hmains|].
    apply list_elem_of_singleton in Hc. subst c.
    destruct Hcur as [-> | (t0 & Ht0 & Hg)]; [done|].
    exists cur, t0. eauto. }
  unfold likely_step.
  destruct (Regex.group 1 t) as [name |] eqn:Hg.
  - destruct (Js.truthy name) eqn:Hname.
    + split; [| done]. right. exists t. split; [| done].
      apply elem_of_app. right. by left.
    + destruct (Js.truthy cur) eqn:Hc; [by apply Hadd | by split].
  - destruct (Js.truthy cur) eqn:Hc; [by apply Hadd | by split].
Qed.

Lemma likely_foldl_inv pkg toks seen st :
  likely_inv pkg seen st ->
  likely_inv pkg (seen ++ toks) (foldl (likely_step pkg) st toks).
Proof.
  revert seen st. induction toks as [| t toks IH]; intros seen st Hinv.
  - by rewrite app_nil_r.
  - simpl. replace (seen ++ t :: toks) with ((seen ++ [t]) ++ toks)
      by (by rewrite <- app_assoc).
    apply IH. by apply likely_step_inv.
Qed.

Lemma likely_foldl_none pkg toks :
  (forall t name, t ∈ toks -> Regex.group 1 t = Some name ->
     Js.truthy name = false) ->
  foldl (likely_step pkg) ("", []) toks = ("", []).
Proof.
  induction toks as [| t toks IH]; intros Hno; [done|].
  cbn [foldl].
  assert (Hstep : likely_step pkg ("", []) t = ("", [])).
  { unfold likely_step.
    destruct (Regex.group 1 t) as [name |] eqn:Hg; [| done].
    by rewrite (Hno t name ltac:(left) Hg). }
  rewrite Hstep. apply IH. intros t' n' Ht'. apply Hno. by right.
Qed.

End Sources.

(** X7.  A source file always gives the resolver at least one candidate
    class, and gives no candidate twice.  The candidates of a file that can
    be read and declares types are exactly these types, each qualified with
    the package of the file; the base name of the file (without [.java])
    is a candidate only when the file declares no type, in the package of
    the file, or when the file cannot be read, and then it is the only
    candidate. *)
Theorem source_file_gives_candidates (fs : Fs.node) (w : list string)
    (fileName : string) :
  let p := Resolver.parseJavaPackageAndClasses fs w fileName in
  Resolver.fqcnCandidates p
  = match Spec.declared_types fs w fileName with
    | [] => [Spec.base_name_type fs w fileName]
    | _ :: _ => Spec.declared_types fs w fileName
    end /\
  Resolver.fqcnCandidates p <> [] /\
  NoDup (Resolver.fqcnCandidates p) /\
  (forall c, c ∈ Spec.declared_types fs w fileName <->
     exists content name m,
       Fs.readFileSync (Path.join w fileName) fs = Fs.Ok content /\
       m ∈ Regex.exec_all Pat.classRegex content /\
       Regex.group 2 m = Some name /\
       c = Resolver.qualify (Resolver.package_of content) name) /\
  (forall content,
     Fs.readFileSync (Path.join w fileName) fs = Fs.Ok content ->
     Resolver.pkg p = Resolver.package_of content /\
     Spec.base_name_type fs w fileName
     = Resolver.qualify (Resolver.package_of content)
         (Path.basename fileName ".java")) /\
  (forall e, Fs.readFileSync (Path.join w fileName) fs = Fs.Throw e ->
     Resolver.fqcnCandidates p = [Path.basename fileName ".java"]).
Proof.
  intros p. subst p.
  assert (Hdecl : forall c, c ∈ Spec.declared_types fs w fileName <->
     exists content name m,
       Fs.readFileSync (Path.join w fileName) fs = Fs.Ok content /\
       m ∈ Regex.exec_all Pat.classRegex content /\
       Regex.group 2 m = Some name /\
       c = Resolver.qualify (Resolver.package_of content) name).
  { intros c. unfold Spec.declared_types, Spec.declared_names.
    destruct (Fs.readFileSync (Path.join w fileName) fs) as [content | e].
    - split.
      + intros Hc. apply list_elem_of_In, in_map_iff in Hc.
        destruct Hc as (name & <- & Hin). apply list_elem_of_In in Hin.
        apply uniq_elem, list_elem_of_omap in Hin as (m & Hm & Hg).
        by exists content, name, m.
      + intros (content' & name & m & [= <-] & Hm & Hg & ->).
        apply list_elem_of_In, in_map_iff. exists name. split; [done|].
        apply list_elem_of_In, uniq_elem, list_elem_of_omap. eauto.
    - split; [by intros ?%elem_of_nil|]. by intros (? & ? & ? & [=] & _). }
  assert (Hnd : NoDup (Spec.declared_types fs w fileName)).
  { unfold Spec.declared_types, Spec.declared_names.
    destruct (Fs.readFileSync (Path.join w fileName) fs) as [content | e];
      [| constructor].
    apply NoDup_map_qualify, uniq_NoDup. }
  rewrite parse_candidates_spec. unfold Spec.types_or.
  split_and!; [done | | | exact Hdecl | |].
  - by destruct (Spec.declared_types fs w fileName).
  - destruct (Spec.declared_types fs w fileName); [apply NoDup_singleton|].
    done.
  - intros content Hread.
    unfold Resolver.parseJavaPackageAndClasses, Spec.base_name_type.
    by rewrite Hread.
  - intros e Hread. unfold Spec.declared_types, Spec.base_name_type.
    by rewrite Hread.
Qed.

(** X8.  The scan for likely main classes gives no class twice, and every
    class it gives is a type name that a [class], [record] or [enum]
    token of the text has introduced, qualified with the package; a text
    without any such token gives no likely main, whatever signatures it
    has. *)
Theorem likely_mains_are_declared_types (pkg content : string) :
  let toks := Regex.exec_all Pat.tokenRegex content in
  let likely := Resolver.findLikelySourceMainClasses pkg content in
  NoDup likely /\
  (forall c, c ∈ likely ->
     exists name t, c = Resolver.qualify pkg name /\ Js.truthy name = true /\
                    t ∈ toks /\ Regex.group 1 t = Some name) /\
  ((forall t name, t ∈ toks -> Regex.group 1 t = Some name ->
      Js.truthy name = false) ->
   likely = []).
Proof.
  intros toks likely. subst likely.
  unfold Resolver.findLikelySourceMainClasses. fold toks. split_and!.
  - apply uniq_NoDup.
  - intros c Hc. apply (proj1 (uniq_elem _ _)) in Hc.
    assert (Hinit : Inv.likely_inv pkg [] ("", [])).
    { split; [by left|]. intros c' Hc'. by apply elem_of_nil in Hc'. }
    pose proof (likely_foldl_inv pkg toks [] _ Hinit) as [_ Hmains].
    by apply Hmains.
  - intros Hno. by rewrite likely_foldl_none.
Qed.

(** X9.  The two-phase resolver names a class only when [javap] has
    confirmed it or when the scan of the sources finds it likely, and the
    class is always one of the candidates; it answers [null] exactly when
    the probing accepts no candidate and no likely main is a candidate.
    When the candidates can be listed, it always gives an answer. *)
Theorem two_phase_names_confirmed_or_likely
    (javap : string -> Resolver.cmd_result) (fs : Fs.node) (w : list string)
    (entryFile : string) (javaFiles cands : list string) :
  Resolver.orderedCandidates fs w entryFile javaFiles = Some (Fs.Ok cands) ->
  let likely :=
    Resolver.sourceLikelyMains fs w (Resolver.orderedFiles entryFile javaFiles) in
  let result := Resolver.findJavaMainClass javap fs w entryFile javaFiles in
  (exists r, result = Some (Fs.Ok r)) /\
  (forall c, result = Some (Fs.Ok (Some c)) ->
     c ∈ cands /\
     (Resolver.classHasMainWithJavap (javap c) = Some true \/ c ∈ likely)) /\
  (result = Some (Fs.Ok None) <->
   (forall c, Resolver.probe javap cands <> Resolver.Accepted c) /\
   (forall c, c ∈ likely -> c ∉ cands)).
Proof.
  intros Hc likely result. subst result. unfold Resolver.findJavaMainClass.
  rewrite Hc. fold likely. split_and!.
  - destruct (Resolver.probe javap cands); by eexists.
  - intros c. destruct (Resolver.probe javap cands) eqn:Hp.
    + intros [= ->]. apply probe_accepted_inv in Hp as [H1 H2]. auto.
    + intros [= Hf]. apply fallback_Some in Hf as [H1 H2]. auto.
    + intros [= Hf]. apply fallback_Some in Hf as [H1 H2]. auto.
  - rewrite <- fallback_None.
    destruct (Resolver.probe javap cands) eqn:Hp.
    + split; [done|]. intros [Hna _]. by destruct (Hna fqcn).
    + split; [intros [= ->]; by split | by intros [_ ->]].
    + split; [intros [= ->]; by split | by intros [_ ->]].
Qed.

(** With [javap] missing, the compiled work directory of the samples still
    gives [Main]: the scan of the sources finds it likely. *)
Lemma two_phase_names_confirmed_or_likely_witness :
  "Main" ∈ ["Main"; "lib.Util"] /\
  (Resolver.classHasMainWithJavap (Sample.javap_missing "Main") = Some true \/
   "Main" ∈ Resolver.sourceLikelyMains Sample.java_fs ["w"]
              (Resolver.orderedFiles "Main.java" ["Main.java"; "Util.java"])).
Proof.
  refine (proj1 (proj2 (two_phase_names_confirmed_or_likely
                          Sample.javap_missing Sample.java_fs ["w"]
                          "Main.java" ["Main.java"; "Util.java"]
                          ["Main"; "lib.Util"] _)) "Main" _);
    vm_compute; reflexivity.
Defined.

(* ===================================================================== *)
(** * The resolver that scans the sources only                            *)
(* ===================================================================== *)

Section ScanFacts.
Import Fs Scan.

Lemma first_main_skip fs w pre rest :
  (forall g, g ∈ pre -> hasMain (parseJavaClassInfo fs w g) = false) ->
  first_main fs w (pre ++ rest) = first_main fs w rest.
Proof.
  induction pre as [| g pre IH]; intros Hpre; [done|].
  simpl. rewrite (Hpre g) by left. apply IH. intros g' Hg'. apply Hpre.
  by right.
Qed.

Lemma first_main_None fs w files :
  first_main fs w files = None <->
  forall f, f ∈ files -> hasMain (parseJavaClassInfo fs w f) = false.
Proof.
  induction files as [| g files IH]; simpl.
  - split; [| done]. intros _ f Hf. by apply elem_of_nil in Hf.
  - destruct (hasMain (parseJavaClassInfo fs w g)) eqn:Hg.
    + split; [done|]. intros Hall. specialize (Hall g ltac:(left)). congruence.
    + rewrite IH. split.
      * intros Hall f Hf. apply elem_of_cons in Hf as [-> | Hf]; auto.
      * intros Hall f Hf. apply Hall. by right.
Qed.

End ScanFacts.

(** X10.  The resolver that only scans the sources names the class of the
    first file, entry file first, whose text has a runnable [main]
    signature; an entry file with such a signature always wins.  It
    answers [null] exactly when no submitted Java file can be read with
    such a signature: it never falls back on a default class. *)
Theorem scan_names_first_file_with_main (fs : Fs.node) (w : list string)
    (entryFile : string) (javaFiles : list string) :
  let ordered := Resolver.orderedFiles entryFile javaFiles in
  let result := Scan.findJavaMainClass fs w entryFile javaFiles in
  (result = None <->
   forall f, f ∈ ordered ->
     Scan.hasMain (Scan.parseJavaClassInfo fs w f) = false) /\
  (forall pre f post,
     ordered = pre ++ f :: post ->
     (forall g, g ∈ pre ->
        Scan.hasMain (Scan.parseJavaClassInfo fs w g) = false) ->
     Scan.hasMain (Scan.parseJavaClassInfo fs w f) = true ->
     result = Some (Scan.fqcn (Scan.parseJavaClassInfo fs w f))) /\
  (is_java entryFile = true ->
   Scan.hasMain (Scan.parseJavaClassInfo fs w entryFile) = true ->
   result = Some (Scan.fqcn (Scan.parseJavaClassInfo fs w entryFile))) /\
  (forall f, Scan.hasMain (Scan.parseJavaClassInfo fs w f) = true <->
     exists content,
       Fs.readFileSync (Path.join w f) fs = Fs.Ok content /\
       Regex.test Scan.mainRegex content = true).
Proof.
  intros ordered result. subst result. unfold Scan.findJavaMainClass.
  fold ordered.
  assert (Hfirst : forall pre f post,
            ordered = pre ++ f :: post ->
            (forall g, g ∈ pre ->
               Scan.hasMain (Scan.parseJavaClassInfo fs w g) = false) ->
            Scan.hasMain (Scan.parseJavaClassInfo fs w f) = true ->
            Scan.first_main fs w ordered
            = Some (Scan.fqcn (Scan.parseJavaClassInfo fs w f))).
  { intros pre f post -> Hpre Hf. rewrite first_main_skip by done.
    simpl. by rewrite Hf. }
  split_and!.
  - apply first_main_None.
  - exact Hfirst.
  - intros Hjava Hmain. apply (Hfirst [] entryFile
                                 (other_files entryFile javaFiles)).
    + unfold ordered. rewrite orderedFiles_split, Hjava. done.
    + intros g Hg. by apply elem_of_nil in Hg.
    + done.
  - intros f. unfold Scan.parseJavaClassInfo.
    destruct (Fs.readFileSync (Path.join w f) fs) as [content | e]; simpl.
    + split; [eauto|]. by intros (c & [= <-] & Hc).
    + split; [done|]. by intros (c & [=] & _).
Qed.

(* ===================================================================== *)
(** * Previews: creation and cleanup                                      *)
(* ===================================================================== *)

Section PreviewFacts.
Import Fs Server Inv.

Lemma same_run_refl s : same_run s s.
Proof. by split_and!. Qed.

Lemma same_run_trans s1 s2 s3 : same_run s1 s2 -> same_run s2 s3 -> same_run s1 s3.
Proof.
  intros (H1 & H2 & H3 & H4 & H5) (G1 & G2 & G3 & G4 & G5).
  split_and!; congruence.
Qed.


Lemma remove_quietly_same dir s : same_run s (Preview.remove_quietly dir s).
Proof.
  unfold Preview.remove_quietly. destruct (rmSync dir (fs s)); by split_and!.
Qed.

Lemma remove_quietly_gone dir s :
  dir <> [] -> stat dir (fs (Preview.remove_quietly dir s)) = None.
Proof.
  intros Hne. unfold Preview.remove_quietly, stat.
  pose proof (rmSync_gone dir (fs s) Hne) as Hg.
  destruct (rmSync dir (fs s)) as [fs' | e]; simpl; by rewrite Hg.
Qed.

Lemma remove_quietly_no_new dir s q :
  is_Some (stat q (fs (Preview.remove_quietly dir s))) -> is_Some (stat q (fs s)).
Proof.
  unfold Preview.remove_quietly.
  destruct (rmSync dir (fs s)) as [fs' | e] eqn:Hrm; [| done].
  simpl. by apply rmSync_stat with (p := dir).
Qed.



Lemma cleanupPreview_previews previewId w :
  Preview.previews (Preview.cleanupPreview previewId w)
  = delete previewId (Preview.previews w).
Proof.
  unfold Preview.cleanupPreview.
  destruct (Preview.previews w !! previewId) eqn:Hl; [done|].
  by rewrite delete_id.
Qed.

Lemma cleanupPreview_same previewId w :
  same_run (Preview.session w)
           (Preview.session (Preview.cleanupPreview previewId w)) /\
  Preview.ownedPreviews (Preview.cleanupPreview previewId w)
  = Preview.ownedPreviews w /\
  Preview.replies (Preview.cleanupPreview previewId w) = Preview.replies w.
Proof.
  unfold Preview.cleanupPreview.
  destruct (Preview.previews w !! previewId); simpl.
  - split; [apply remove_quietly_same | done].
  - split; [apply same_run_refl | done].
Qed.

Lemma cleanupPreview_no_new previewId w q :
  is_Some (stat q (fs (Preview.session (Preview.cleanupPreview previewId w)))) ->
  is_Some (stat q (fs (Preview.session w))).
Proof.
  unfold Preview.cleanupPreview.
  destruct (Preview.previews w !! previewId); [| done].
  apply remove_quietly_no_new.
Qed.

Lemma cleanupPreview_gone previewId w dir :
  Preview.previews w !! previewId = Some dir -> dir <> [] ->
  stat dir (fs (Preview.session (Preview.cleanupPreview previewId w))) = None.
Proof.
  intros Hl Hne. unfold Preview.cleanupPreview. rewrite Hl. simpl.
  by apply remove_quietly_gone.
Qed.

(** The loop [for (const previewId of ownedPreviews)]. *)
Lemma cleanup_all_spec ids w :
  let w' := foldl (fun w previewId => Preview.cleanupPreview previewId w) w ids in
  (forall previewId,
     Preview.previews w' !! previewId
     = if bool_decide (previewId ∈ ids) then None
       else Preview.previews w !! previewId) /\
  (forall q, is_Some (stat q (fs (Preview.session w'))) ->
             is_Some (stat q (fs (Preview.session w)))) /\
  (forall previewId dir,
     previewId ∈ ids -> Preview.previews w !! previewId = Some dir ->
     dir <> [] -> stat dir (fs (Preview.session w')) = None) /\
  same_run (Preview.session w) (Preview.session w') /\
  Preview.ownedPreviews w' = Preview.ownedPreviews w /\
  Preview.replies w' = Preview.replies w.
Proof.
  revert w. induction ids as [| a ids IH]; intros w; cbn zeta.
  - cbn [foldl]. split_and!; [| done | | apply same_run_refl | done | done].
    + intros previewId. rewrite bool_decide_eq_false_2; [done|].
      apply not_elem_of_nil.
    + intros previewId dir Hin. by apply elem_of_nil in Hin.
  - cbn [foldl].
    destruct (IH (Preview.cleanupPreview a w))
      as (Hlook & Hnew & Hgone & Hsame & Hown & Hrep).
    destruct (cleanupPreview_same a w) as (Hsame1 & Hown1 & Hrep1).
    split_and!.
    + intros previewId. rewrite Hlook, cleanupPreview_previews.
      destruct (decide (previewId = a)) as [-> | Hne].
      * rewrite lookup_delete_eq, (bool_decide_eq_true_2 (a ∈ a :: ids))
          by left.
        by destruct (bool_decide _).
      * rewrite lookup_delete_ne by done.
        apply (f_equal (fun b : bool =>
                 if b then None else Preview.previews w !! previewId)).
        apply bool_decide_ext. rewrite elem_of_cons.
        split; [by right | by intros [Heq | Hin]].
    + intros q Hq. by apply (cleanupPreview_no_new a), Hnew.
    + intros previewId dir Hin Hl Hne.
      destruct (decide (previewId = a)) as [-> | Hna].
      * pose proof (cleanupPreview_gone a w dir Hl Hne) as Hg.
        destruct (stat dir (fs (Preview.session (foldl _ _ ids)))) eqn:Hst;
          [| done].
        assert (Hs : is_Some (stat dir (fs (Preview.session
                 (Preview.cleanupPreview a w))))) by (apply Hnew; eauto).
        rewrite Hg in Hs. by destruct Hs.
      * apply (Hgone previewId); [| | done].
        -- apply elem_of_cons in Hin as [? | ?]; done.
        -- rewrite cleanupPreview_previews. by rewrite lookup_delete_ne.
    + by eapply same_run_trans.
    + congruence.
    + congruence.
Qed.

End PreviewFacts.

(** X11.  [cleanupPreview] removes one preview: its entry leaves the
    table, its directory is removed from the disk, and no other preview is
    touched.  For an id that is not in the table it does nothing, so that
    a second call does nothing either; afterwards the HTTP server answers
    404 for every path below the id.  The run of the connection is not
    affected. *)
Theorem cleanupPreview_removes_one_preview (previewId : string)
    (w : Preview.world) :
  let w' := Preview.cleanupPreview previewId w in
  Preview.previews w' = delete previewId (Preview.previews w) /\
  (forall dir, Preview.previews w !! previewId = Some dir -> dir <> [] ->
     stat dir (Server.fs (Preview.session w')) = None) /\
  (Preview.previews w !! previewId = None -> w' = w) /\
  Preview.cleanupPreview previewId w' = w' /\
  Inv.same_run (Preview.session w) (Preview.session w') /\
  Preview.ownedPreviews w' = Preview.ownedPreviews w /\
  Preview.replies w' = Preview.replies w /\
  (forall rest, Preview.handle_request w' ("preview" :: previewId :: rest)
                = Web.plain 404 "Preview not found").
Proof.
  intros w'. subst w'.
  assert (Hgone : Preview.previews (Preview.cleanupPreview previewId w)
                  !! previewId = None).
  { by rewrite cleanupPreview_previews, lookup_delete_eq. }
  destruct (cleanupPreview_same previewId w) as (Hsame & Hown & Hrep).
  split_and!; try done.
  - apply cleanupPreview_previews.
  - intros dir. apply cleanupPreview_gone.
  - intros Hnone. unfold Preview.cleanupPreview. by rewrite Hnone.
  - unfold Preview.cleanupPreview at 1. by rewrite Hgone.
  - intros rest. unfold Preview.handle_request. simpl. by rewrite Hgone.
Qed.


(** X13.  When the connection closes, the run is released and every
    preview that the connection owns is cleaned up: it leaves the table,
    its directory is removed, and the HTTP server answers 404 below its
    id.  The previews of other connections stay as they are, and nothing
    is sent. *)
Theorem close_removes_owned_previews (w : Preview.world) :
  let w' := Preview.step w (Preview.Conn Server.Close) in
  (forall previewId, previewId ∈ Preview.ownedPreviews w ->
     Preview.previews w' !! previewId = None /\
     forall rest, Preview.handle_request w' ("preview" :: previewId :: rest)
                  = Web.plain 404 "Preview not found") /\
  (forall previewId, previewId ∉ Preview.ownedPreviews w ->
     Preview.previews w' !! previewId = Preview.previews w !! previewId) /\
  (forall previewId dir,
     previewId ∈ Preview.ownedPreviews w ->
     Preview.previews w !! previewId = Some dir -> dir <> [] ->
     stat dir (Server.fs (Preview.session w')) = None) /\
  Server.proc (Preview.session w') = None /\
  Server.workdir (Preview.session w') = None /\
  (forall d, Server.workdir (Preview.session w) = Some d -> d <> [] ->
     stat d (Server.fs (Preview.session w')) = None) /\
  Server.sent (Preview.session w') = Server.sent (Preview.session w) /\
  Preview.replies w' = Preview.replies w.
Proof.
  intros w'. subst w'. cbn [Preview.step]. unfold Preview.handle_close.
  set (w0 := Preview.set_session
               (Server.step (Preview.session w) Server.Close) w).
  destruct (cleanup_all_spec (Preview.ownedPreviews w) w0)
    as (Hlook & Hnew & Hgone & (Hp & Hw & _ & _ & Hs) & _ & Hrep).
  destruct (release_fields (Preview.session w)) as (R1 & R2 & _ & R4 & _).
  split_and!.
  - intros previewId Hin.
    assert (Hnone : Preview.previews
                      (foldl (fun w1 i => Preview.cleanupPreview i w1) w0
                         (Preview.ownedPreviews w)) !! previewId = None).
    { by rewrite Hlook, bool_decide_eq_true_2. }
    split; [done|]. intros rest. unfold Preview.handle_request. simpl.
    by rewrite Hnone.
  - intros previewId Hin. by rewrite Hlook, bool_decide_eq_false_2.
  - intros previewId dir Hin Hl Hne. by apply (Hgone previewId).
  - by rewrite Hp.
  - by rewrite Hw.
  - intros d Hd Hne.
    pose proof (release_removes (Preview.session w) d Hd Hne) as Hrel.
    destruct (stat d (Server.fs (Preview.session (foldl _ _ _)))) eqn:Hst;
      [| done].
    assert (Hsome : is_Some (stat d (Server.fs (Preview.session w0))))
      by (apply Hnew; eauto).
    change (is_Some (stat d (Server.fs (Server.release (Preview.session w)))))
      in Hsome.
    rewrite Hrel in Hsome. by destruct Hsome.
  - by rewrite Hs.
  - by rewrite Hrep.
Qed.

(* ===================================================================== *)
(** * Strings, [split] and [join]                                         *)
(* ===================================================================== *)

Section Strings.
Import Inv.

Lemma append_cons (c : ascii) (a b : string) :
  String c a +:+ b = String c (a +:+ b).
Proof. reflexivity. Qed.

Lemma append_nil_r (s : string) : s +:+ "" = s.
Proof.
  induction s as [| c s IH]; [done|]. by rewrite append_cons, IH.
Qed.

Lemma append_assoc (a b c : string) : (a +:+ b) +:+ c = a +:+ (b +:+ c).
Proof.
  induction a as [| x a IH]; [done|]. by rewrite !append_cons, IH.
Qed.

Lemma length_append (a b : string) :
  String.length (a +:+ b) = String.length a + String.length b.
Proof.
  induction a as [| x a IH]; [done|]. rewrite append_cons. simpl.
  by rewrite IH.
Qed.

Lemma rev_app_rev_app (a b c : string) :
  String.rev_app (String.rev_app a b) c = String.rev_app b (a +:+ c).
Proof.
  revert b c. induction a as [| x a IH]; intros b c; simpl; [done|].
  by rewrite IH.
Qed.

Lemma rev_rev_app (a : string) : String.rev (String.rev_app a "") = a.
Proof. unfold String.rev. rewrite rev_app_rev_app. simpl. apply append_nil_r. Qed.

Lemma no_slash_rev_app (a b : string) :
  no_slash (String.rev_app a b) = no_slash a && no_slash b.
Proof.
  revert b. induction a as [| x a IH]; intros b; simpl; [done|].
  rewrite IH. simpl. by destruct (Ascii.eqb x "/"), (no_slash a), (no_slash b).
Qed.

Lemma no_slash_append (a b : string) :
  no_slash (a +:+ b) = no_slash a && no_slash b.
Proof.
  induction a as [| x a IH]; [done|]. rewrite append_cons. simpl.
  rewrite IH. by destruct (Ascii.eqb x "/").
Qed.

Lemma split_aux_no_slash (cur s : string) :
  no_slash cur = true ->
  Forall (fun x => no_slash x = true) (Js.split_aux "/" cur s).
Proof.
  revert cur. induction s as [| c s IH]; intros cur Hcur; simpl.
  - constructor; [| done]. unfold String.rev.
    by rewrite no_slash_rev_app, Hcur.
  - destruct (Ascii.eqb c "/") eqn:Hc.
    + constructor; [| by apply IH].
      unfold String.rev. by rewrite no_slash_rev_app, Hcur.
    + apply IH. simpl. by rewrite Hc.
Qed.

Lemma split_no_slash (s : string) :
  Forall (fun x => no_slash x = true) (Js.split "/" s).
Proof. by apply split_aux_no_slash. Qed.

Lemma split_aux_prefix (x cur s : string) :
  no_slash x = true ->
  Js.split_aux "/" cur (x +:+ s) = Js.split_aux "/" (String.rev_app x cur) s.
Proof.
  revert cur. induction x as [| c x IH]; intros cur Hx; [done|].
  rewrite append_cons. simpl.
  simpl in Hx. apply andb_true_iff in Hx as [Hc Hx].
  apply negb_true_iff in Hc. rewrite Hc. by apply IH.
Qed.

Lemma join_cons (x : string) (l : list string) :
  Js.join "/" (x :: l)
  = x +:+ match l with [] => "" | _ :: _ => "/" +:+ Js.join "/" l end.
Proof. destruct l; simpl; [by rewrite append_nil_r | done]. Qed.

Lemma join_snoc (l : list string) (x : string) :
  l <> [] -> Js.join "/" (l ++ [x]) = Js.join "/" l +:+ "/" +:+ x.
Proof.
  induction l as [| y l IH]; intros Hne; [done|].
  destruct l as [| z l]; [done|].
  change ((y :: z :: l) ++ [x]) with (y :: ((z :: l) ++ [x])).
  rewrite join_cons. change ((z :: l) ++ [x]) with (z :: (l ++ [x])) at 1.
  cbv iota. change (z :: (l ++ [x])) with ((z :: l) ++ [x]).
  rewrite IH by done. rewrite (join_cons y (z :: l)).
  by rewrite !append_assoc.
Qed.

Lemma join_app (a b : list string) :
  a <> [] -> b <> [] ->
  Js.join "/" (a ++ b) = Js.join "/" a +:+ "/" +:+ Js.join "/" b.
Proof.
  induction a as [| y a IH]; intros Ha Hb; [done|].
  destruct a as [| z a].
  - destruct b as [| x b]; [done|]. done.
  - change ((y :: z :: a) ++ b) with (y :: z :: (a ++ b)).
    rewrite join_cons. change (z :: (a ++ b)) with ((z :: a) ++ b).
    rewrite IH by done. rewrite (join_cons y (z :: a)).
    by rewrite !append_assoc.
Qed.

Lemma split_join (l : list string) :
  l <> [] -> Forall (fun x => no_slash x = true) l ->
  Js.split "/" (Js.join "/" l) = l.
Proof.
  induction l as [| x l IH]; intros Hne Hall; [done|].
  apply Forall_cons in Hall as [Hx Hl]. rewrite join_cons.
  unfold Js.split. rewrite split_aux_prefix by done.
  destruct l as [| y l].
  - simpl. by rewrite rev_rev_app.
  - change (Js.split_aux "/" (String.rev_app x "") ("/" +:+ Js.join "/" (y :: l)))
      with (String.rev (String.rev_app x "")
            :: Js.split_aux "/" "" (Js.join "/" (y :: l))).
    rewrite rev_rev_app. f_equal. by apply IH.
Qed.

Lemma startsWith_append (a b : string) : Js.startsWith a (a +:+ b) = true.
Proof.
  induction a as [| c a IH]; [done|]. rewrite append_cons. simpl.
  by rewrite Ascii.eqb_refl.
Qed.

End Strings.

(* ===================================================================== *)
(** * The path of a preview request                                       *)
(* ===================================================================== *)

Section Normalize.
Import Inv Web.

Lemma forallb_reverse {A} (f : A -> bool) (l : list A) :
  forallb f (reverse l) = forallb f l.
Proof.
  induction l as [| x l IH]; [done|].
  rewrite reverse_cons, forallb_app, IH. simpl.
  by destruct (f x), (forallb f l).
Qed.

Lemma not_dotdot_ups l :
  forallb (fun y => negb (String.eqb y "..")) l = true -> ups_first l = true.
Proof.
  destruct l as [| x l]; [done|]. simpl. intros H.
  apply andb_true_iff in H as [Hx Hl]. apply negb_true_iff in Hx.
  by rewrite Hx.
Qed.

Lemma all_dotdot_ups l :
  forallb (fun z => String.eqb z "..") l = true -> ups_first l = true.
Proof.
  induction l as [| x l IH]; [done|]. simpl. intros H.
  apply andb_true_iff in H as [Hx Hl]. rewrite Hx. by apply IH.
Qed.

Lemma ups_first_snoc l y :
  ups_first l = true -> String.eqb y ".." = false ->
  ups_first (l ++ [y]) = true.
Proof.
  induction l as [| x l IH]; simpl.
  - intros _ Hy. by rewrite Hy.
  - destruct (String.eqb x ".."); [apply IH|].
    intros Hl Hy. rewrite forallb_app. simpl. by rewrite Hl, Hy.
Qed.

Lemma ups_last_first acc : ups_last acc = true -> ups_first (reverse acc) = true.
Proof.
  induction acc as [| y acc IH]; [done|]. rewrite reverse_cons. simpl.
  destruct (String.eqb y "..") eqn:Hy.
  - intros Hall. apply all_dotdot_ups.
    rewrite forallb_app, forallb_reverse, Hall. simpl. by rewrite Hy.
  - intros Hacc. apply ups_first_snoc; [by apply IH | done].
Qed.

Lemma norm_rel_ups acc xs :
  ups_last acc = true -> ups_first (norm_rel acc xs) = true.
Proof.
  revert acc. induction xs as [| x xs IH]; intros acc Hacc; simpl.
  - by apply ups_last_first.
  - destruct (Path.is_dot x); [by apply IH|].
    destruct (String.eqb x "..") eqn:Hx.
    + destruct acc as [| y acc]; [apply IH; simpl; by rewrite Hx|].
      simpl in Hacc. destruct (String.eqb y "..") eqn:Hy.
      * apply IH. simpl. by rewrite Hx, Hy.
      * by apply IH.
    + apply IH. simpl. by rewrite Hx.
Qed.

Lemma norm_rel_Forall (P : string -> Prop) acc xs :
  Forall P acc -> Forall P xs -> Forall P (norm_rel acc xs).
Proof.
  revert acc. induction xs as [| x xs IH]; intros acc Hacc Hxs; simpl.
  - by apply Forall_reverse.
  - apply Forall_cons in Hxs as [Hx Hxs].
    destruct (Path.is_dot x); [by apply IH|].
    destruct (String.eqb x "..").
    + destruct acc as [| y acc]; [apply IH; [by constructor | done]|].
      apply Forall_cons in Hacc as [Hy Hacc].
      destruct (String.eqb y ".."); apply IH; try done.
      by repeat constructor.
    + apply IH; [by constructor | done].
Qed.

Lemma norm_abs_Forall acc xs :
  Forall (fun x => no_slash x = true /\ String.eqb x ".." = false) acc ->
  Forall (fun x => no_slash x = true) xs ->
  Forall (fun x => no_slash x = true /\ String.eqb x ".." = false)
         (Path.norm acc xs).
Proof.
  revert acc. induction xs as [| x xs IH]; intros acc Hacc Hxs; simpl.
  - by apply Forall_reverse.
  - apply Forall_cons in Hxs as [Hx Hxs].
    destruct (Path.is_dot x); [by apply IH|].
    destruct (String.eqb x "..") eqn:Hdd.
    + apply IH; [| done]. destruct acc as [| y acc]; [done|].
      by apply Forall_cons in Hacc as [_ Hacc].
    + apply IH; [| done]. by constructor.
Qed.

Lemma join_trail (l : list string) (tr : bool) :
  l <> [] ->
  Js.join "/" (l ++ (if tr then [""] else []))
  = Js.join "/" l +:+ (if tr then "/" else "").
Proof.
  intros Hne. destruct tr.
  - by rewrite join_snoc.
  - by rewrite app_nil_r, append_nil_r.
Qed.

(** What [path.normalize] returns is a list of segments joined by
    slashes, in which the segments [..] come first. *)
Lemma normalize_shape (raw : string) :
  exists l, normalize raw = Js.join "/" l /\
            Forall (fun x => no_slash x = true) l /\ ups_first l = true.
Proof.
  unfold normalize. destruct (String.eqb raw ""); [by exists ["."]; repeat constructor|].
  pose proof (split_no_slash raw) as Hxs.
  destruct (Js.startsWith "/" raw).
  - pose proof (norm_abs_Forall [] (Js.split "/" raw) ltac:(done) Hxs) as Hn.
    set (segs := Path.norm [] (Js.split "/" raw)) in *.
    destruct (String.eqb (Js.join "/" segs) "") eqn:Hb.
    + exists [""; ""]. by repeat constructor.
    + assert (Hne : segs <> []) by (intros Heq; by rewrite Heq in Hb).
      exists ("" :: segs ++ (if Js.endsWith "/" raw then [""] else [])).
      split_and!.
      * rewrite join_cons, join_trail by done.
        destruct segs; [done|]. reflexivity.
      * constructor; [done|]. apply Forall_app. split.
        -- eapply Forall_impl; [exact Hn|]. by intros x [? _].
        -- destruct (Js.endsWith "/" raw); by repeat constructor.
      * simpl. rewrite forallb_app. apply andb_true_iff. split.
        -- apply forallb_forall. intros x Hx.
           apply list_elem_of_In in Hx.
           rewrite Forall_forall in Hn. destruct (Hn x Hx) as [_ ->]. done.
        -- by destruct (Js.endsWith "/" raw).
  - pose proof (norm_rel_Forall _ [] (Js.split "/" raw) ltac:(done) Hxs) as Hn.
    pose proof (norm_rel_ups [] (Js.split "/" raw) eq_refl) as Hu.
    set (segs := norm_rel [] (Js.split "/" raw)) in *.
    destruct (String.eqb (Js.join "/" segs) "") eqn:Hb.
    + destruct (Js.endsWith "/" raw);
        [exists ["."; ""] | exists ["."]]; by repeat constructor.
    + assert (Hne : segs <> []) by (intros Heq; by rewrite Heq in Hb).
      exists (segs ++ (if Js.endsWith "/" raw then [""] else [])).
      split_and!.
      * by rewrite join_trail.
      * apply Forall_app. split; [done|].
        destruct (Js.endsWith "/" raw); by repeat constructor.
      * destruct (Js.endsWith "/" raw); [| by rewrite app_nil_r].
        by apply ups_first_snoc.
Qed.

Lemma strip_unchanged_1 (c : ascii) (s : string) :
  Ascii.eqb c "." = false -> strip_dotdot (String c s) = String c s.
Proof. intros Hc. destruct s; simpl; [done|]. by rewrite Hc. Qed.

Lemma strip_unchanged_2 (c1 c2 : ascii) (s : string) :
  Ascii.eqb c2 "." = false ->
  strip_dotdot (String c1 (String c2 s)) = String c1 (String c2 s).
Proof. intros Hc. simpl. by rewrite Hc, andb_false_r. Qed.

Lemma no_dotdot_join a rest :
  String.eqb a ".." = false ->
  Forall (fun x => no_slash x = true) (a :: rest) ->
  forallb (fun y => negb (String.eqb y "..")) rest = true ->
  no_dotdot (Js.join "/" (a :: rest)) = true.
Proof.
  intros Ha Hall Hrest. unfold no_dotdot. rewrite split_join by done.
  simpl. by rewrite Ha, Hrest.
Qed.

Lemma strip_no_dotdot (n : nat) (l : list string) :
  String.length (Js.join "/" l) < n ->
  Forall (fun x => no_slash x = true) l -> ups_first l = true ->
  no_dotdot (strip_dotdot (Js.join "/" l)) = true.
Proof.
  revert l. induction n as [| n IH]; intros l Hlen Hall Hups; [lia|].
  destruct l as [| a rest]; [done|].
  pose proof Hall as Hall'. apply Forall_cons in Hall' as [Ha Hrest].
  assert (Hkeep : String.eqb a ".." = false ->
                  strip_dotdot (Js.join "/" (a :: rest)) = Js.join "/" (a :: rest) ->
                  no_dotdot (strip_dotdot (Js.join "/" (a :: rest))) = true).
  { intros Hne ->. apply no_dotdot_join; [done | done |].
    simpl in Hups. by rewrite Hne in Hups. }
  rewrite join_cons in Hlen |- *.
  rewrite join_cons in Hkeep.
  destruct a as [| c1 [| c2 a2]].
  - (* the empty segment *)
    apply Hkeep; [done|]. destruct rest as [| y rest']; [done|].
    change ("" +:+ "/" +:+ Js.join "/" (y :: rest'))
      with (String "/" (Js.join "/" (y :: rest'))).
    by apply strip_unchanged_1.
  - (* one character *)
    apply Hkeep.
    + simpl. by destruct (Ascii.eqb c1 ".").
    + destruct rest as [| y rest']; [done|].
      change (String c1 "" +:+ "/" +:+ Js.join "/" (y :: rest'))
        with (String c1 (String "/" (Js.join "/" (y :: rest')))).
      by apply strip_unchanged_2.
  - set (tl := match rest with
               | [] => ""
               | _ :: _ => "/" +:+ Js.join "/" rest
               end) in *.
    change (String c1 (String c2 a2) +:+ tl)
      with (String c1 (String c2 (a2 +:+ tl))) in *.
    destruct (Ascii.eqb c1 ".") eqn:H1.
    2:{ apply Hkeep; [| by apply strip_unchanged_1].
        simpl. by rewrite H1. }
    destruct (Ascii.eqb c2 ".") eqn:H2.
    2:{ apply Hkeep; [| by apply strip_unchanged_2].
        simpl. rewrite H1. simpl. by rewrite H2. }
    apply Ascii.eqb_eq in H1, H2. subst c1 c2.
    destruct a2 as [| c3 a3].
    + (* the segment [..] *)
      subst tl. destruct rest as [| y rest']; [done|].
      change (strip_dotdot (String "." (String "." ("" +:+ "/" +:+ Js.join "/" (y :: rest')))))
        with (strip_dotdot (Js.join "/" (y :: rest'))).
      apply IH; [| done | done].
      change (String.length (String "." (String "." ("" +:+ "/" +:+ Js.join "/" (y :: rest')))))
        with (S (S (S (String.length (Js.join "/" (y :: rest')))))) in Hlen.
      lia.
    + simpl in Ha.
      apply andb_true_iff in Ha as [Hc3 Ha3]. apply negb_true_iff in Hc3.
      assert (Hrest' : forallb (fun y => negb (String.eqb y "..")) rest = true).
      { simpl in Hups.
        by destruct (Ascii.eqb c3 "."), a3 in Hups. }
      change (String c3 a3 +:+ tl) with (String c3 (a3 +:+ tl)) in *.
      destruct (Ascii.eqb c3 "\") eqn:Hb.
      * assert (Hstrip :
          strip_dotdot (String "." (String "." (String c3 (a3 +:+ tl))))
          = strip_dotdot (a3 +:+ tl)).
        { simpl. by rewrite Hb, orb_true_r. }
        rewrite Hstrip. subst tl. rewrite <- join_cons.
        apply IH.
        -- rewrite join_cons. simpl in Hlen. lia.
        -- by constructor.
        -- simpl. destruct (String.eqb a3 ".."); [| done].
           by apply not_dotdot_ups.
      * apply Hkeep; [by destruct a3 |].
        simpl. by rewrite Hc3, Hb.
Qed.

Lemma relPath_no_dotdot (segments : list string) :
  no_dotdot (relPath segments) = true.
Proof.
  unfold relPath.
  destruct (normalize_shape
              (Js.or_else (Js.join "/" (drop 2 segments)) "index.html"))
    as (l & -> & Hall & Hups).
  by apply (strip_no_dotdot (S (String.length (Js.join "/" l)))); [lia | |].
Qed.

Lemma prefix_startsWith (d p : list string) (sl : bool) :
  d `prefix_of` p ->
  Js.startsWith (Path.to_string d) (path_text (Path.Make p sl)) = true.
Proof.
  intros [q ->]. unfold path_text, Path.to_string. cbn [Path.segs Path.slash].
  destruct d as [| x d].
  - destruct q; reflexivity.
  - change ((x :: d) ++ q) with (x :: (d ++ q)). cbv iota.
    change (x :: (d ++ q)) with ((x :: d) ++ q).
    change (Js.startsWith ("/" +:+ ?a) (("/" +:+ ?b) +:+ ?c))
      with (Js.startsWith a (b +:+ c)).
    destruct q as [| y q].
    + rewrite app_nil_r. apply startsWith_append.
    + rewrite join_app by done. rewrite !append_assoc.
      apply startsWith_append.
Qed.

End Normalize.

(** The handler from the segments on: whatever the segments below
    [/preview/<id>] of a registered preview are, the path of the file lies
    in the directory of the preview and the answer is never 403. *)
Lemma segments_stay_in_the_directory (w : Preview.world)
    (previewId : string) (rest dir : list string) :
  Preview.previews w !! previewId = Some dir ->
  let segments := "preview" :: previewId :: rest in
  let target := Web.filePath dir segments in
  let fs := Server.fs (Preview.session w) in
  let r := Preview.handle_request w segments in
  dir `prefix_of` Path.segs target /\
  Web.status r <> 403 /\
  (forall c, Fs.readFileSync target fs = Fs.Ok c ->
     r = Web.Response 200 (Web.getMimeType (Web.path_text target))
           (Some "no-cache")
           (if Web.rewritten (Web.toLowerCase (Web.extname (Web.path_text target)))
            then Web.rewriteRootUrls c ("/preview/" +:+ previewId)
            else c)) /\
  (Web.status r = 200 <-> exists c, Fs.readFileSync target fs = Fs.Ok c) /\
  (Web.status r = 404 <-> Fs.existsSync target fs = false) /\
  (Web.status r = 500 <-> stat (Path.segs target) fs = Some IsDir).
Proof.
  intros Hl segments target fs r.
  assert (Hin : dir `prefix_of` Path.segs target).
  { apply join_inside, relPath_no_dotdot. }
  assert (Hr : r = Web.serve fs previewId dir segments).
  { subst r. unfold Preview.handle_request. simpl. by rewrite Hl. }
  assert (Hstarts : Js.startsWith (Path.to_string dir) (Web.path_text target)
                    = true).
  { destruct target as [p sl] eqn:Ht. by apply prefix_startsWith. }
  rewrite Hr. unfold Web.serve. fold target. rewrite Hstarts. cbn [negb].
  unfold Fs.existsSync, Fs.readFileSync, stat.
  destruct (Fs.get (Path.segs target) fs) as [[c | es] |];
    [destruct (Path.slash target) |..]; cbn [negb Web.status Web.plain].
  - split_and!; try done; split; try done; by intros [c' ?].
  - split_and!; try done.
    + by intros c' [= <-].
    + split; [eauto | done].
  - split_and!; try done; split; try done; by intros [c' ?].
  - split_and!; try done; split; try done; by intros [c' ?].
Qed.

(** X14.  The request handler of the HTTP server, from the request on.
    When [new URL] throws (a malformed [Host] header or URL) the handler
    gives no answer at all; otherwise it answers.  When the path name that
    [new URL] gives has the segments [preview], the id of a registered
    preview and any others, the file is looked for in the directory of
    that preview and the answer 403 is never given: the answer is 200 with
    the file (rewritten when it is HTML or CSS) exactly when the path is a
    regular file, 404 exactly when nothing is there, and 500 exactly when
    it is a directory. *)
Theorem preview_request_stays_in_its_directory (w : Preview.world)
    (pathname previewId : string) (rest dir : list string) :
  filter (fun x => Js.truthy x = true) (Js.split "/" pathname)
  = "preview" :: previewId :: rest ->
  Preview.previews w !! previewId = Some dir ->
  let segments := "preview" :: previewId :: rest in
  let target := Web.filePath dir segments in
  let fs := Server.fs (Preview.session w) in
  (forall url, Preview.on_request w url = None <-> exists e, url = Fs.Throw e) /\
  exists r,
    Preview.on_request w (Fs.Ok pathname) = Some r /\
    dir `prefix_of` Path.segs target /\
    Web.status r <> 403 /\
    (forall c, Fs.readFileSync target fs = Fs.Ok c ->
       r = Web.Response 200 (Web.getMimeType (Web.path_text target))
             (Some "no-cache")
             (if Web.rewritten
                   (Web.toLowerCase (Web.extname (Web.path_text target)))
              then Web.rewriteRootUrls c ("/preview/" +:+ previewId)
              else c)) /\
    (Web.status r = 200 <-> exists c, Fs.readFileSync target fs = Fs.Ok c) /\
    (Web.status r = 404 <-> Fs.existsSync target fs = false) /\
    (Web.status r = 500 <-> stat (Path.segs target) fs = Some IsDir).
Proof.
  intros Hsegs Hl segments target fs. split.
  - intros [pathname' | e]; simpl.
    + split; [done | by intros [e ?]].
    + split; [eauto | done].
  - exists (Preview.handle_request w segments). split.
    + unfold Preview.on_request. by rewrite Hsegs.
    + exact (segments_stay_in_the_directory w previewId rest dir Hl).
Qed.

(** The style sheet of the sample preview is served from the directory of
    the preview. *)
Lemma preview_request_stays_in_its_directory_witness :
  exists r,
    Preview.on_request PreviewSample.served (Fs.Ok "/preview/u1/a.css") = Some r /\
    ["tmp"; "code-sync-preview-0"]
      `prefix_of` Path.segs (Web.filePath ["tmp"; "code-sync-preview-0"]
                               ["preview"; "u1"; "a.css"]) /\
    Web.status r = 200 /\ Web.contentType r = "text/css; charset=utf-8" /\
    Web.body r = "body { }".
Proof.
  destruct (preview_request_stays_in_its_directory PreviewSample.served
              "/preview/u1/a.css" "u1" ["a.css"] ["tmp"; "code-sync-preview-0"]
              eq_refl eq_refl) as (_ & r & Hr & Hin & _ & Hfile & _).
  exists r. split; [exact Hr|]. split; [exact Hin|].
  rewrite (Hfile "body { }" eq_refl). by vm_compute.
Defined.

(* ===================================================================== *)
(** * From the announced URL back to the entry file                       *)
(* ===================================================================== *)

Section RoundTrip.
Import Inv Web.

Lemma norm_rel_no_dotdot (acc xs : list string) :
  forallb (fun x => negb (String.eqb x "..")) xs = true ->
  norm_rel acc xs
  = reverse acc ++ filter (fun x => Path.is_dot x = false) xs.
Proof.
  revert acc. induction xs as [| x xs IH]; intros acc Hxs; simpl.
  - by rewrite app_nil_r.
  - simpl in Hxs. apply andb_true_iff in Hxs as [Hx Hxs].
    rewrite filter_cons. destruct (Path.is_dot x) eqn:Hd.
    + rewrite decide_False by done. by apply IH.
    + rewrite decide_True by done.
      apply negb_true_iff in Hx. rewrite Hx, IH by done.
      by rewrite reverse_cons, <- app_assoc.
Qed.

Lemma filter_nondot_truthy (xs : list string) :
  filter (fun x => Path.is_dot x = false)
         (filter (fun x => Js.truthy x = true) xs)
  = filter (fun x => Path.is_dot x = false) xs.
Proof.
  induction xs as [| x xs IH]; [done|].
  rewrite !filter_cons. destruct (Js.truthy x) eqn:Ht.
  - rewrite decide_True by done. rewrite filter_cons. by rewrite IH.
  - rewrite decide_False by done. rewrite IH.
    unfold Js.truthy in Ht. apply negb_false_iff in Ht.
    rewrite decide_False; [done|]. unfold Path.is_dot. by rewrite Ht.
Qed.

Lemma filter_nondot_idem (xs : list string) :
  filter (fun x => Path.is_dot x = false)
         (filter (fun x => Path.is_dot x = false) xs)
  = filter (fun x => Path.is_dot x = false) xs.
Proof.
  induction xs as [| x xs IH]; [done|].
  rewrite filter_cons. destruct (decide (Path.is_dot x = false)); [| done].
  rewrite filter_cons, decide_True by done. by rewrite IH.
Qed.

Lemma strip_no_prefix (s : string) :
  Js.startsWith ".." s = false -> strip_dotdot s = s.
Proof.
  destruct s as [| a [| b rest]]; [done | done |].
  destruct (Ascii.eqb_spec a ".") as [-> | Ha].
  - destruct (Ascii.eqb_spec b ".") as [-> | Hb].
    + intros H. by simpl in H.
    + intros _. apply strip_unchanged_2. by apply Ascii.eqb_neq.
  - intros _. apply strip_unchanged_1. by apply Ascii.eqb_neq.
Qed.

Lemma startsWith_join (a : string) (rest : list string) :
  Path.is_dot a = false ->
  Js.startsWith ".." (Js.join "/" (a :: rest)) = Js.startsWith ".." a.
Proof.
  intros Hd. rewrite join_cons.
  destruct a as [| c1 [| c2 a2]]; [done | | done].
  rewrite append_cons.
  change (Js.startsWith ".." (String c1 ?t))
    with (if Ascii.eqb "." c1 then Js.startsWith "." t else false).
  destruct (Ascii.eqb_spec "." c1) as [<- | Hc]; [| done].
  by vm_compute in Hd.
Qed.

Lemma endsWith_cons (p : string) (c : ascii) (s : string) :
  Js.endsWith p (String c s)
  = if String.eqb p (String c s) then true else Js.endsWith p s.
Proof. reflexivity. Qed.

Lemma endsWith_no_slash (a : string) :
  no_slash a = true -> Js.endsWith "/" a = false.
Proof.
  induction a as [| c a IH]; [done|]. intros H. simpl in H.
  apply andb_true_iff in H as [Hc Ha]. apply negb_true_iff in Hc.
  rewrite endsWith_cons.
  destruct (String.eqb_spec "/" (String c a)) as [Heq | _]; [| by apply IH].
  injection Heq as <- _. by rewrite Ascii.eqb_refl in Hc.
Qed.

Lemma endsWith_append (s1 s2 : string) :
  s2 <> "" -> Js.endsWith "/" (s1 +:+ s2) = Js.endsWith "/" s2.
Proof.
  intros Hne. induction s1 as [| c s1 IH]; [done|].
  rewrite append_cons, endsWith_cons.
  destruct (String.eqb_spec "/" (String c (s1 +:+ s2))) as [Heq | _];
    [| exact IH].
  injection Heq as _ Heq. destruct s1 as [| c' s1].
  - by destruct Hne.
  - by rewrite append_cons in Heq.
Qed.

Lemma join_nonempty (a : string) (rest : list string) :
  a <> "" -> Js.join "/" (a :: rest) <> "".
Proof. intros Ha. rewrite join_cons. by destruct a. Qed.

Lemma endsWith_join (l : list string) :
  l <> [] -> Forall (fun x => no_slash x = true /\ x <> "") l ->
  Js.endsWith "/" (Js.join "/" l) = false.
Proof.
  induction l as [| a rest IH]; intros Hne Hall; [done|].
  apply Forall_cons in Hall as [[Ha Hne'] Hrest]. rewrite join_cons.
  destruct rest as [| b rest].
  - rewrite append_nil_r. by apply endsWith_no_slash.
  - rewrite endsWith_append by done.
    change ("/" +:+ Js.join "/" (b :: rest))
      with (String "/" (Js.join "/" (b :: rest))).
    pose proof Hrest as Hb. apply Forall_cons in Hb as [[_ Hb] _].
    pose proof (join_nonempty b rest Hb) as Hj.
    rewrite endsWith_cons.
    destruct (String.eqb_spec "/" (String "/" (Js.join "/" (b :: rest))))
      as [Heq | _]; [| by apply IH].
    injection Heq as Heq. by destruct Hj.
Qed.

Lemma startsWith_slash_join (a : string) (rest : list string) :
  no_slash a = true -> a <> "" ->
  Js.startsWith "/" (Js.join "/" (a :: rest)) = false.
Proof.
  intros Ha Hne. rewrite join_cons. destruct a as [| c a]; [done|].
  rewrite append_cons. simpl in Ha.
  apply andb_true_iff in Ha as [Hc _]. apply negb_true_iff in Hc.
  change (Js.startsWith "/" (String c ?t))
    with (if Ascii.eqb "/" c then true else false).
  destruct (Ascii.eqb_spec "/" c) as [<- | _]; [| done].
  by rewrite Ascii.eqb_refl in Hc.
Qed.

Lemma nondot_nonempty (x : string) : Path.is_dot x = false -> x <> "".
Proof. intros H ->. by vm_compute in H. Qed.

(** The path that the request handler makes of the segments of an entry
    path. *)
Lemma filePath_of_entry (dir : list string) (previewId entryPath : string) :
  (forall x, x ∈ Js.split "/" entryPath -> Js.startsWith ".." x = false) ->
  Js.endsWith "/" entryPath = false ->
  filter (fun x => Path.is_dot x = false) (Js.split "/" entryPath) <> [] ->
  filePath dir ("preview" :: previewId
                :: filter (fun x => Js.truthy x = true) (Js.split "/" entryPath))
  = Path.join dir entryPath.
Proof.
  intros Hseg Hend HF.
  set (xs := Js.split "/" entryPath) in *.
  set (S := filter (fun x => Js.truthy x = true) xs).
  set (F := filter (fun x => Path.is_dot x = false) xs) in *.
  assert (Hxs : Forall (fun x => no_slash x = true) xs) by apply split_no_slash.
  assert (Hdd : forall l, (forall x, x ∈ l -> x ∈ xs) ->
            forallb (fun x => negb (String.eqb x "..")) l = true).
  { intros l Hl. apply forallb_forall. intros x Hx.
    apply list_elem_of_In, Hl, Hseg in Hx.
    destruct (String.eqb_spec x "..") as [-> | _];
      [by vm_compute in Hx | done]. }
  assert (HS : forall x, x ∈ S -> x ∈ xs).
  { intros x Hx. by apply list_elem_of_filter in Hx as [_ Hx]. }
  assert (HFin : forall x, x ∈ F -> x ∈ xs).
  { intros x Hx. by apply list_elem_of_filter in Hx as [_ Hx]. }
  assert (HSF : filter (fun x => Path.is_dot x = false) S = F)
    by apply filter_nondot_truthy.
  assert (HSne : S <> []).
  { intros HS0. apply HF. by rewrite <- HSF, HS0. }
  assert (HSall : Forall (fun x => no_slash x = true /\ x <> "") S).
  { apply Forall_forall. intros x Hx.
    pose proof Hx as Hx'. apply list_elem_of_filter in Hx' as [Ht Hin].
    split.
    - rewrite Forall_forall in Hxs. by apply Hxs.
    - intros ->. by vm_compute in Ht. }
  assert (HFall : Forall (fun x => no_slash x = true /\ x <> "") F).
  { apply Forall_forall. intros x Hx.
    pose proof Hx as Hx'. apply list_elem_of_filter in Hx' as [Ht Hin].
    split.
    - rewrite Forall_forall in Hxs. by apply Hxs.
    - by apply nondot_nonempty. }
  assert (Hrel : relPath ("preview" :: previewId :: S) = Js.join "/" F).
  { unfold relPath. cbn [drop].
    destruct S as [| a S'] eqn:HSeq; [done|].
    change (drop 0 (a :: S')) with (a :: S').
    pose proof HSall as Ha. apply Forall_cons in Ha as [[Ha1 Ha2] _].
    assert (Hraw : Js.or_else (Js.join "/" (a :: S')) "index.html"
                   = Js.join "/" (a :: S')).
    { unfold Js.or_else, Js.truthy.
      pose proof (join_nonempty a S' Ha2) as Hj.
      destruct (String.eqb_spec (Js.join "/" (a :: S')) "") as [Heq | _];
        [done | done]. }
    rewrite Hraw. unfold normalize.
    pose proof (join_nonempty a S' Ha2) as Hj.
    destruct (String.eqb_spec (Js.join "/" (a :: S')) "") as [Heq | _];
      [done|].
    rewrite startsWith_slash_join by done.
    rewrite endsWith_join by done.
    rewrite split_join; [| done |].
    2:{ eapply Forall_impl; [exact HSall|]. by intros x [? _]. }
    rewrite norm_rel_no_dotdot by (apply Hdd; exact HS).
    rewrite HSF. simpl.
    destruct F as [| b F'] eqn:HFeq; [done|].
    pose proof HFall as Hb. apply Forall_cons in Hb as [[Hb1 Hb2] _].
    pose proof (join_nonempty b F' Hb2) as Hjb.
    destruct (String.eqb_spec (Js.join "/" (b :: F')) "") as [Heq | _];
      [done|].
    rewrite append_nil_r.
    apply strip_no_prefix. rewrite startsWith_join.
    - apply Hseg, HFin. left.
    - assert (Hbin : b ∈ filter (fun x => Path.is_dot x = false) (a :: S'))
        by (rewrite HSF; left).
      by apply list_elem_of_filter in Hbin as [Hbd _]. }
  unfold filePath. fold S. rewrite Hrel. unfold Path.join. f_equal.
  - rewrite split_join; [| done |].
    2:{ eapply Forall_impl; [exact HFall|]. by intros x [? _]. }
    rewrite !norm_no_dotdot by (apply Hdd; done).
    fold xs. fold F. f_equal. unfold F. apply filter_nondot_idem.
  - rewrite Hend. by apply endsWith_join.
Qed.

Lemma announced_segments (previewId entryPath : string) :
  previewId <> "" -> no_slash previewId = true ->
  filter (fun x => Js.truthy x = true)
    (Js.split "/" ("/preview/" +:+ previewId +:+ "/" +:+ entryPath))
  = "preview" :: previewId
    :: filter (fun x => Js.truthy x = true) (Js.split "/" entryPath).
Proof.
  intros Hid Hslash. unfold Js.split.
  change (Js.split_aux "/" "" ("/preview/" +:+ previewId +:+ "/" +:+ entryPath))
    with ("" :: "preview"
          :: Js.split_aux "/" "" (previewId +:+ "/" +:+ entryPath)).
  rewrite split_aux_prefix by done.
  change (Js.split_aux "/" (String.rev_app previewId "") ("/" +:+ entryPath))
    with (String.rev (String.rev_app previewId "")
          :: Js.split_aux "/" "" entryPath).
  rewrite rev_rev_app.
  rewrite filter_cons_False by done.
  rewrite filter_cons_True by done.
  rewrite filter_cons_True; [done|].
  unfold Js.truthy. apply negb_true_iff.
  by destruct (String.eqb_spec previewId "").
Qed.

Lemma serve_file (fs : Fs.node) (previewId : string) (dir segments : list string)
    (c : string) :
  Fs.readFileSync (filePath dir segments) fs = Fs.Ok c ->
  serve fs previewId dir segments
  = Response 200 (getMimeType (path_text (filePath dir segments)))
      (Some "no-cache")
      (if rewritten (toLowerCase (extname (path_text (filePath dir segments))))
       then rewriteRootUrls c ("/preview/" +:+ previewId) else c).
Proof.
  intros Hread. unfold serve.
  assert (Hstarts : Js.startsWith (Path.to_string dir)
                      (path_text (filePath dir segments)) = true).
  { destruct (filePath dir segments) as [p sl] eqn:Ht.
    apply prefix_startsWith.
    change p with (Path.segs (Path.Make p sl)). rewrite <- Ht.
    apply join_inside, relPath_no_dotdot. }
  rewrite Hstarts, Hread. cbn [negb].
  unfold Fs.readFileSync in Hread. unfold Fs.existsSync.
  destruct (Fs.get (Path.segs (filePath dir segments)) fs) as [[c' | es] |];
    [| done | done].
  by destruct (Path.slash (filePath dir segments)).
Qed.

End RoundTrip.

(** X15.  The URL that a [preview] answer announces leads back to the
    entry file when the URL parser leaves its path as it is.  Let the path
    name that [new URL] gives be the announced URL itself, [/preview/],
    the id, a slash and the entry path (so for names made of letters,
    digits, [-], [_], [.] and [/] without dot segments; a name with a
    blank is percent-encoded instead).  When the id is not empty and has
    no slash, no segment of the entry path begins with two dots and the
    entry path is a regular file of the preview, the request is answered
    200 with that file, rewritten when it is HTML or CSS. *)
Theorem announced_url_is_served (w : Preview.world) (previewId : string)
    (dir : list string) (entryPath c pathname : string) :
  Preview.previews w !! previewId = Some dir ->
  stat dir (Server.fs (Preview.session w)) = Some IsDir ->
  previewId <> "" -> Inv.no_slash previewId = true ->
  (forall x, x ∈ Js.split "/" entryPath -> Js.startsWith ".." x = false) ->
  Fs.readFileSync (Path.join dir entryPath) (Server.fs (Preview.session w))
  = Fs.Ok c ->
  pathname = "/preview/" +:+ previewId +:+ "/" +:+ entryPath ->
  let segments :=
    filter (fun x => Js.truthy x = true) (Js.split "/" pathname) in
  Web.filePath dir segments = Path.join dir entryPath /\
  Preview.on_request w (Fs.Ok pathname)
  = Some (Web.Response 200
            (Web.getMimeType (Web.path_text (Path.join dir entryPath)))
            (Some "no-cache")
            (if Web.rewritten
                  (Web.toLowerCase
                     (Web.extname (Web.path_text (Path.join dir entryPath))))
             then Web.rewriteRootUrls c ("/preview/" +:+ previewId) else c)).
Proof.
  intros Hl Hdir Hid Hslash Hseg Hread -> segments.
  assert (Hsegs : segments
                  = "preview" :: previewId
                    :: filter (fun x => Js.truthy x = true)
                         (Js.split "/" entryPath)).
  { subst segments. by apply announced_segments. }
  assert (Hend : Js.endsWith "/" entryPath = false).
  { unfold Fs.readFileSync in Hread.
    destruct (Fs.get _ _) as [[c' | es] |]; [| done | done].
    change (Path.slash (Path.join dir entryPath))
      with (Js.endsWith "/" entryPath) in Hread.
    by destruct (Js.endsWith "/" entryPath). }
  assert (HF : filter (fun x => Path.is_dot x = false) (Js.split "/" entryPath)
               <> []).
  { intros HF. unfold Fs.readFileSync, Path.join in Hread.
    cbn [Path.segs] in Hread.
    rewrite norm_no_dotdot in Hread.
    - rewrite HF, app_nil_r, reverse_involutive in Hread.
      unfold stat in Hdir.
      by destruct (Fs.get dir (Server.fs (Preview.session w))) as [[c' | es] |].
    - apply forallb_forall. intros x Hx.
      apply list_elem_of_In, Hseg in Hx.
      destruct (String.eqb_spec x "..") as [-> | _];
        [by vm_compute in Hx | done]. }
  pose proof (filePath_of_entry dir previewId entryPath Hseg Hend HF) as Hpath.
  rewrite <- Hsegs in Hpath.
  split; [exact Hpath|].
  unfold Preview.on_request. fold segments. f_equal.
  rewrite Hsegs. unfold Preview.handle_request. simpl. rewrite Hl.
  rewrite <- Hsegs, <- Hpath. apply serve_file. by rewrite Hpath.
Qed.

(** The page of the samples is served under the URL announced for it. *)
Lemma announced_url_is_served_witness :
  Preview.replies PreviewSample.served
  = [Preview.PreviewReady (Server.JNum 7) "/preview/u1/index.html"] /\
  exists r,
    Preview.on_request PreviewSample.served (Fs.Ok "/preview/u1/index.html")
    = Some r /\
    Web.status r = 200 /\ Web.body r = "<link href='/preview/u1/a.css'>".
Proof.
  split; [reflexivity|].
  pose proof (announced_url_is_served PreviewSample.served "u1"
                ["tmp"; "code-sync-preview-0"] "index.html"
                "<link href='/a.css'>" "/preview/u1/index.html"
                eq_refl eq_refl) as H.
  destruct H as [_ H].
  - done.
  - reflexivity.
  - intros x Hx. vm_compute in Hx. apply list_elem_of_singleton in Hx.
    by subst x.
  - reflexivity.
  - reflexivity.
  - eexists. split; [exact H|]. split; reflexivity.
Defined.

(** A name with a blank: the announced URL has the blank, the path name
    that the URL parser gives has [%20] in its place, and the handler,
    which does not decode it, finds no such file. *)
Lemma announced_url_with_blank_is_not_found :
  Preview.replies PreviewSample.served_spaced
  = [Preview.PreviewReady Server.JNull "/preview/u2/my page.html"] /\
  Preview.on_request PreviewSample.served_spaced
    (Fs.Ok "/preview/u2/my%20page.html")
  = Some (Web.plain 404 "File not found") /\
  Fs.readFileSync (Path.join ["tmp"; "code-sync-preview-0"] "my page.html")
    (Server.fs (Preview.session PreviewSample.served_spaced))
  = Fs.Ok "<p>hello</p>".
Proof. by vm_compute. Qed.
